(** * autograph-pls: the ASN.1 signature locator of [parsesign.go]

    A shallow embedding of the decoding core of [parsesign.go] (the second,
    current program of that file: [parseASN1Element], [parseOID],
    [findFieldsInASN1], [findLastOctetString], [calculateKeySize] and
    [FindValidSignature]) together with the properties the specification
    states about it.

    Conventions of the embedding.
    - A Go [[]byte] is a [list byte]; [len] is its length as an integer.
    - A Go [int] is a 64-bit two's-complement integer, held in [Z] with the
      wrap-around of [+], [<<] written out ([GoInt]).
    - A Go run-time panic (index or slice bounds out of range) is the
      outcome [Panic].  A loop that may run forever is a [Fixpoint] on a
      fuel counter, one unit per loop iteration or recursive call; a run
      that needs more than the fuel it is given ends in [OutOfFuel], and a
      call that ends in [OutOfFuel] for every amount of fuel never returns.
    - A Go [error] is its message; [None] is [nil]. *)

From Stdlib Require Import ZArith List String Ascii Bool Lia.
From Stdlib Require Import Strings.Byte DecimalString DecimalN.
Import ListNotations.
Open Scope Z_scope.

(** ** Outcomes of a call *)

Inductive outcome (A : Type) : Type :=
| Done (a : A)
| Panic
| OutOfFuel.
Arguments Done {A} a.
Arguments Panic {A}.
Arguments OutOfFuel {A}.

Definition bind {A B : Type} (m : outcome A) (k : A -> outcome B) : outcome B :=
  match m with
  | Done a => k a
  | Panic => Panic
  | OutOfFuel => OutOfFuel
  end.

Definition omap {A B : Type} (f : A -> B) (m : outcome A) : outcome B :=
  bind m (fun a => Done (f a)).

Declare Scope outcome_scope.
Delimit Scope outcome_scope with outcome.
Notation "x <- m ;; k" := (bind m (fun x => k))
  (at level 61, m at next level, right associativity) : outcome_scope.
Notation "' p <- m ;; k" := (bind m (fun x => let 'p := x in k))
  (at level 61, p pattern, m at next level, right associativity) : outcome_scope.
Open Scope outcome_scope.

(** ** Go integers and bytes *)

Module GoInt.

(** The value of a 64-bit signed integer holding the low 64 bits of [z]. *)
Definition wrap (z : Z) : Z := (z + 2 ^ 63) mod 2 ^ 64 - 2 ^ 63.

Definition add (a b : Z) : Z := wrap (a + b).
Definition sub (a b : Z) : Z := wrap (a - b).
Definition mul (a b : Z) : Z := wrap (a * b).
Definition shl (a n : Z) : Z := wrap (Z.shiftl a n).

Definition in_range (z : Z) : Prop := - 2 ^ 63 <= z < 2 ^ 63.

End GoInt.

(** [uint64] arithmetic of [parseOID]. *)
Definition u64 (z : Z) : Z := z mod 2 ^ 64.

Definition b2z (b : byte) : Z := Z.of_N (Byte.to_N b).

Definition z2b (z : Z) : byte :=
  match Byte.of_N (Z.to_N (z mod 256)) with
  | Some b => b
  | None => x00
  end.

(** ** Slices

    The model gives a slice the capacity of its length: an upper bound past
    the length is out of bounds. *)

Definition len (data : list byte) : Z := Z.of_nat (List.length data).

(** [data[i]] *)
Definition index (data : list byte) (i : Z) : outcome Z :=
  if (0 <=? i) && (i <? len data)
  then match nth_error data (Z.to_nat i) with
       | Some b => Done (b2z b)
       | None => Panic
       end
  else Panic.

(** [data[lo:]] *)
Definition slice_from (data : list byte) (lo : Z) : outcome (list byte) :=
  if (0 <=? lo) && (lo <=? len data)
  then Done (skipn (Z.to_nat lo) data)
  else Panic.

(** [data[lo:hi]] *)
Definition slice (data : list byte) (lo hi : Z) : outcome (list byte) :=
  if (0 <=? lo) && (lo <=? hi) && (hi <=? len data)
  then Done (firstn (Z.to_nat (hi - lo)) (skipn (Z.to_nat lo) data))
  else Panic.

(** ** Constants of [parsesign.go] *)

Definition TagSequence : Z := 16.
Definition TagSet : Z := 17.
Definition TagInteger : Z := 2.
Definition TagOctetString : Z := 4.
Definition TagObjectID : Z := 6.
Definition TagBitString : Z := 3.
Definition TagNull : Z := 5.
Definition TagUTF8String : Z := 12.

Definition OIDCommonName : string := "2.5.4.3".
Definition OIDCountryName : string := "2.5.4.6".
Definition OIDLocalityName : string := "2.5.4.7".
Definition OIDOrganizationName : string := "2.5.4.10".
Definition OIDEmailAddress : string := "1.2.840.113549.1.9.1".

(** Modelled from the spec: the two limits [MaxRecursionDepth] and
    [MaxElementsPerLevel] are named by the specification, by the tests and by
    TESTING.md; [parsesign.go] declares neither and no function of it
    reads them. *)
Definition MaxRecursionDepth : Z := 50.
Definition MaxElementsPerLevel : Z := 10000.

Definition error : Type := string.

(** ** [ASN1Element]

    The two display strings of the Go struct, [TagName] and [Content], are
    left out: [getTagName] and [formatPrimitiveContent] are total formatting
    functions whose results no decoding decision reads.  The slice
    expression that feeds [formatPrimitiveContent] is kept, since it can
    go out of bounds. *)

Record ASN1Element : Type := mkElement {
  Depth : Z;
  Offset : Z;
  HeaderLen : Z;
  Length : Z;
  Tag : Z;
  Class : Z;
  IsCompound : bool
}.

(** [ASN1Element{}] *)
Definition zeroElement : ASN1Element := mkElement 0 0 0 0 0 0 false.

Definition withLength (e : ASN1Element) (l hl : Z) : ASN1Element :=
  mkElement (Depth e) (Offset e) hl l (Tag e) (Class e) (IsCompound e).

(** The [for i := 0; i < lengthOctets; i++] loop of [parseASN1Element]:
    [n] iterations remain, [length] is [element.Length]. *)
Fixpoint readLength (n : nat) (data : list byte) (length bytesRead : Z)
  : outcome (Z * Z) :=
  match n with
  | O => Done (length, bytesRead)
  | S n' =>
      b <- index data bytesRead ;;
      readLength n' data (Z.lor (GoInt.shl length 8) b) (GoInt.add bytesRead 1)
  end.

(** The tail of [parseASN1Element], from "Set tag name and content" on. *)
Definition finishElement (data : list byte) (element : ASN1Element)
  : outcome (ASN1Element * Z * option error) :=
  _ <- (if negb (IsCompound element) && (Length element >? 0)
           && (len data >=? GoInt.add (HeaderLen element) (Length element))
        then slice data (HeaderLen element)
                   (GoInt.add (HeaderLen element) (Length element))
        else Done []) ;;
  let totalBytes := GoInt.add (HeaderLen element) (Length element) in
  if totalBytes >? len data
  then Done (element, 0, Some "element extends beyond available data"%string)
  else Done (element, totalBytes, None).

Definition parseASN1Element (data : list byte) (depth offset : Z)
  : outcome (ASN1Element * Z * option error) :=
  if len data <? 2
  then Done (zeroElement, 0, Some "insufficient data for ASN.1 element"%string)
  else
    tagByte <- index data 0 ;;
    let element :=
      mkElement depth offset 0 0
                (Z.land tagByte 0x1F)
                (Z.shiftr (Z.land tagByte 0xC0) 6)
                (negb (Z.land tagByte 0x20 =? 0)) in
    let bytesRead := 1 in
    lengthByte <- index data 1 ;;
    let bytesRead := GoInt.add bytesRead 1 in
    if Z.land lengthByte 0x80 =? 0
    then finishElement data (withLength element lengthByte bytesRead)
    else
      let lengthOctets := Z.land lengthByte 0x7F in
      if lengthOctets =? 0
      then Done (element, 0, Some "indefinite length not supported"%string)
      else if len data <? GoInt.add bytesRead lengthOctets
      then Done (element, 0, Some "insufficient data for length octets"%string)
      else
        '(length, bytesRead) <- readLength (Z.to_nat lengthOctets) data 0 bytesRead ;;
        finishElement data (withLength element length bytesRead).

(** ** [parseOID] *)

Definition fmt_d (z : Z) : string := NilEmpty.string_of_uint (N.to_uint (Z.to_N z)).

(** The inner loop of [parseOID]: one base-128 chunk.  It returns the
    accumulated [value] and the bytes after the chunk; it stops at the first
    byte whose high bit is clear, or at the end of the content. *)
Fixpoint oidChunk (value : Z) (content : list byte) : Z * list byte :=
  match content with
  | [] => (value, [])
  | b :: rest =>
      let value := Z.lor (u64 (Z.shiftl value 7)) (Z.land (b2z b) 0x7F) in
      if Z.land (b2z b) 0x80 =? 0 then (value, rest) else oidChunk value rest
  end.

(** The outer loop of [parseOID]; every iteration consumes at least one byte,
    so [n = length content] iterations are enough. *)
Fixpoint oidSubidentifiers (n : nat) (content : list byte) : list Z :=
  match n, content with
  | _, [] => []
  | O, _ => []
  | S n', _ =>
      let '(value, rest) := oidChunk 0 content in
      value :: oidSubidentifiers n' rest
  end.

(** The numbers appended to [oid] by [parseOID], in order. *)
Definition oidArcs (content : list byte) : list Z :=
  match content with
  | [] => []
  | first :: rest =>
      [b2z first / 40; b2z first mod 40] ++ oidSubidentifiers (List.length rest) rest
  end.

Definition parseOID (content : list byte) : string :=
  match content with
  | [] => ""%string
  | _ => String.concat "." (map fmt_d (oidArcs content))
  end.

(** ** [SignatureValidation] *)

Record SignatureValidation : Type := mkValidation {
  HasCommonName : bool;
  HasCountryName : bool;
  HasLocalityName : bool;
  HasOrganizationName : bool;
  HasEmailAddress : bool;
  CommonName : string;
  CountryName : string;
  LocalityName : string;
  OrganizationName : string;
  EmailAddress : string
}.

(** [SignatureValidation{}] *)
Definition zeroValidation : SignatureValidation :=
  mkValidation false false false false false "" "" "" "" "".

Definition IsValid (sv : SignatureValidation) : bool :=
  HasCommonName sv && HasCountryName sv && HasLocalityName sv &&
  HasOrganizationName sv && HasEmailAddress sv.

Definition setValidationField (validation : SignatureValidation)
  (oid value : string) : SignatureValidation :=
  let 'mkValidation hcn hc hl ho he cn c l o e := validation in
  if String.eqb oid OIDCommonName then mkValidation true hc hl ho he value c l o e
  else if String.eqb oid OIDCountryName then mkValidation hcn true hl ho he cn value l o e
  else if String.eqb oid OIDLocalityName then mkValidation hcn hc true ho he cn c value o e
  else if String.eqb oid OIDOrganizationName then mkValidation hcn hc hl true he cn c l value e
  else if String.eqb oid OIDEmailAddress then mkValidation hcn hc hl ho true cn c l o value
  else validation.

(** ** The walk shared by [findFieldsInASN1] and [findLastOctetString] *)

(** The block "Check if this is an OID we're looking for" of
    [findFieldsInASN1], up to the call of [setValidationField]: the
    arguments [oid] and [valueContent] of that call when it is reached. *)
Definition valueAfterOID (data : list byte) (offset : Z)
  (element : ASN1Element) (bytesRead : Z) : outcome (option (string * string)) :=
  if (Tag element =? TagObjectID) && (Length element >? 0)
  then
    content <- slice data (GoInt.add offset (HeaderLen element))
                     (GoInt.add (GoInt.add offset (HeaderLen element)) (Length element)) ;;
    let oid := parseOID content in
    let valueOffset := GoInt.add offset bytesRead in
    if valueOffset <? len data
    then
      rest <- slice_from data valueOffset ;;
      '(valueElement, _, err) <- parseASN1Element rest 0 valueOffset ;;
      match err with
      | None =>
          if negb (IsCompound valueElement) && (Length valueElement >? 0)
          then
            valueBytes <-
              slice data (GoInt.add valueOffset (HeaderLen valueElement))
                    (GoInt.add (GoInt.add valueOffset (HeaderLen valueElement))
                               (Length valueElement)) ;;
            Done (Some (oid, string_of_list_byte valueBytes))
          else Done None
      | Some _ => Done None
      end
    else Done None
  else Done None.

(** The block "Recursively search in compound elements", written the same
    in [findFieldsInASN1] and [findLastOctetString], up to the recursive
    call: the [content] handed to that call when it is reached. *)
Definition compoundContent (data : list byte) (offset : Z)
  (element : ASN1Element) (bytesRead : Z) : outcome (option (list byte)) :=
  if IsCompound element && (Length element >? 0)
  then
    let contentStart := HeaderLen element in
    if contentStart <? bytesRead
    then
      rest <- slice_from data offset ;;
      if Length element <=? GoInt.sub (len rest) contentStart
      then
        content <- slice data (GoInt.add offset contentStart)
                         (GoInt.add (GoInt.add offset contentStart) (Length element)) ;;
        Done (Some content)
      else Done None
    else Done None
  else Done None.

(** [findFieldsInASN1], as the state of its [for offset < len(data)] loop. *)
Fixpoint findFieldsInASN1_from (fuel : nat) (data : list byte) (offset : Z)
  (validation : SignatureValidation) : outcome SignatureValidation :=
  match fuel with
  | O => OutOfFuel
  | S fuel' =>
      if offset <? len data
      then
        rest <- slice_from data offset ;;
        '(element, bytesRead, err) <- parseASN1Element rest 0 offset ;;
        match err with
        | Some _ => Done validation
        | None =>
            found <- valueAfterOID data offset element bytesRead ;;
            let validation :=
              match found with
              | Some (oid, valueContent) => setValidationField validation oid valueContent
              | None => validation
              end in
            inner <- compoundContent data offset element bytesRead ;;
            validation <-
              match inner with
              | Some content => findFieldsInASN1_from fuel' content 0 validation
              | None => Done validation
              end ;;
            findFieldsInASN1_from fuel' data (GoInt.add offset bytesRead) validation
        end
      else Done validation
  end.

Definition findFieldsInASN1 (fuel : nat) (data : list byte)
  (validation : SignatureValidation) : outcome SignatureValidation :=
  findFieldsInASN1_from fuel data 0 validation.

Definition validateSignatureFields (fuel : nat) (data : list byte)
  : outcome SignatureValidation :=
  findFieldsInASN1 fuel data zeroValidation.

(** The statement after the loop of [findLastOctetString]. *)
Definition noteOctetString (lastElement : ASN1Element) (keySize : Z) : Z :=
  if Tag lastElement =? TagOctetString
  then GoInt.mul (Length lastElement) 8
  else keySize.

(** [findLastOctetString], as the state of its loop; [keySize] is the
    integer behind the pointer. *)
Fixpoint findLastOctetString_from (fuel : nat) (data : list byte) (depth : Z)
  (offset : Z) (lastElement : ASN1Element) (keySize : Z) : outcome Z :=
  match fuel with
  | O => OutOfFuel
  | S fuel' =>
      if offset <? len data
      then
        rest <- slice_from data offset ;;
        '(element, bytesRead, err) <- parseASN1Element rest depth offset ;;
        match err with
        | Some _ => Done (noteOctetString lastElement keySize)
        | None =>
            inner <- compoundContent data offset element bytesRead ;;
            keySize <-
              match inner with
              | Some content =>
                  findLastOctetString_from fuel' content (GoInt.add depth 1) 0
                                           zeroElement keySize
              | None => Done keySize
              end ;;
            findLastOctetString_from fuel' data depth (GoInt.add offset bytesRead)
                                     element keySize
        end
      else Done (noteOctetString lastElement keySize)
  end.

Definition findLastOctetString (fuel : nat) (data : list byte) (keySize : Z)
  (depth : Z) : outcome Z :=
  findLastOctetString_from fuel data depth 0 zeroElement keySize.

Definition calculateKeySize (fuel : nat) (data : list byte) : outcome Z :=
  findLastOctetString fuel data 0 0.

(** ** [FindValidSignature] *)

Module asn1.

(** [asn1.RawValue] of Go's [encoding/asn1]. *)
Record RawValue : Type := mkRawValue {
  Class : Z;
  Tag : Z;
  IsCompound : bool;
  Bytes : list byte;
  FullBytes : list byte
}.

End asn1.

Definition noSignature : error := "no valid signature found"%string.

Section Locator.

(** [asn1.Unmarshal(buffer, &raw)] belongs to Go's standard library, not to
    this repository: it is a parameter.  [Some (raw, rest)] is a [nil]
    error. *)
Variable Unmarshal : list byte -> option (asn1.RawValue * list byte).

(** The body of the loop of [FindValidSignature] at offset [i]:
    [Some raw] when it reaches [return &raw, i, nil], [None] when it falls
    through or reaches a [continue]. *)
Definition tryCandidate (fuel : nat) (data : list byte) (i : Z)
  : outcome (option asn1.RawValue) :=
  b0 <- index data i ;;
  if b0 =? 0x30
  then
    b1 <- index data (GoInt.add i 1) ;;
    if b1 =? 0x82
    then
      buffer <- slice_from data i ;;
      match Unmarshal buffer with
      | None => Done None
      | Some (raw, _) =>
          validation <- validateSignatureFields fuel (asn1.FullBytes raw) ;;
          if negb (IsValid validation) then Done None else Done (Some raw)
      end
    else Done None
  else Done None.

(** The loop [for i := len(sp.data) - 2; i >= 0; i--], with [n = i + 1]
    offsets left to try. *)
Fixpoint FindValidSignature_scan (fuel : nat) (data : list byte) (n : nat)
  : outcome (option asn1.RawValue * Z * option error) :=
  match n with
  | O => Done (None, 0, Some noSignature)
  | S i =>
      r <- tryCandidate fuel data (Z.of_nat i) ;;
      match r with
      | Some raw => Done (Some raw, Z.of_nat i, None)
      | None => FindValidSignature_scan fuel data i
      end
  end.

Definition FindValidSignature (fuel : nat) (data : list byte)
  : outcome (option asn1.RawValue * Z * option error) :=
  FindValidSignature_scan fuel data (Z.to_nat (GoInt.sub (len data) 2 + 1)).

End Locator.

(** ** Traces of the two walks

    The same two loops, recording what they do instead of the result:
    [fieldOccurrences] lists the [(oid, value)] pairs in the order in which
    [findFieldsInASN1] hands them to [setValidationField];
    [walkTrace] lists, for [findLastOctetString], every element decoded
    ([Visited]) and, at the end of every call, the [lastElement] of that call
    ([RegionEnd]). *)

Definition occurrence (found : option (string * string)) : list (string * string) :=
  match found with
  | Some p => [p]
  | None => []
  end.

Fixpoint fieldOccurrences_from (fuel : nat) (data : list byte) (offset : Z)
  : outcome (list (string * string)) :=
  match fuel with
  | O => OutOfFuel
  | S fuel' =>
      if offset <? len data
      then
        rest <- slice_from data offset ;;
        '(element, bytesRead, err) <- parseASN1Element rest 0 offset ;;
        match err with
        | Some _ => Done []
        | None =>
            found <- valueAfterOID data offset element bytesRead ;;
            inner <- compoundContent data offset element bytesRead ;;
            below <-
              match inner with
              | Some content => fieldOccurrences_from fuel' content 0
              | None => Done []
              end ;;
            later <- fieldOccurrences_from fuel' data (GoInt.add offset bytesRead) ;;
            Done (occurrence found ++ below ++ later)
        end
      else Done []
  end.

Definition fieldOccurrences (fuel : nat) (data : list byte)
  : outcome (list (string * string)) :=
  fieldOccurrences_from fuel data 0.

(** Replaying a list of occurrences through [setValidationField]. *)
Definition recordAll (occ : list (string * string)) (validation : SignatureValidation)
  : SignatureValidation :=
  fold_left (fun v p => setValidationField v (fst p) (snd p)) occ validation.

(** The value of the last pair of [occ] whose OID is [oid]. *)
Fixpoint lastValueOf (oid : string) (occ : list (string * string)) : option string :=
  match occ with
  | [] => None
  | (o, value) :: rest =>
      match lastValueOf oid rest with
      | Some later => Some later
      | None => if String.eqb o oid then Some value else None
      end
  end.

Definition recognized (oid : string) : Prop :=
  oid = OIDCommonName \/ oid = OIDCountryName \/ oid = OIDLocalityName \/
  oid = OIDOrganizationName \/ oid = OIDEmailAddress.

(** The pair of [SignatureValidation] fields that belongs to a recognized OID. *)
Definition fieldOf (oid : string) (sv : SignatureValidation) : bool * string :=
  if String.eqb oid OIDCommonName then (HasCommonName sv, CommonName sv)
  else if String.eqb oid OIDCountryName then (HasCountryName sv, CountryName sv)
  else if String.eqb oid OIDLocalityName then (HasLocalityName sv, LocalityName sv)
  else if String.eqb oid OIDOrganizationName then (HasOrganizationName sv, OrganizationName sv)
  else if String.eqb oid OIDEmailAddress then (HasEmailAddress sv, EmailAddress sv)
  else (false, ""%string).

Inductive walkEvent : Type :=
| Visited (element : ASN1Element)
| RegionEnd (lastElement : ASN1Element).

Fixpoint walkTrace_from (fuel : nat) (data : list byte) (depth : Z)
  (offset : Z) (lastElement : ASN1Element) : outcome (list walkEvent) :=
  match fuel with
  | O => OutOfFuel
  | S fuel' =>
      if offset <? len data
      then
        rest <- slice_from data offset ;;
        '(element, bytesRead, err) <- parseASN1Element rest depth offset ;;
        match err with
        | Some _ => Done [RegionEnd lastElement]
        | None =>
            inner <- compoundContent data offset element bytesRead ;;
            below <-
              match inner with
              | Some content =>
                  walkTrace_from fuel' content (GoInt.add depth 1) 0 zeroElement
              | None => Done []
              end ;;
            later <- walkTrace_from fuel' data depth (GoInt.add offset bytesRead) element ;;
            Done (Visited element :: below ++ later)
        end
      else Done [RegionEnd lastElement]
  end.

Definition walkTrace (fuel : nat) (data : list byte) (depth : Z)
  : outcome (list walkEvent) :=
  walkTrace_from fuel data depth 0 zeroElement.

(** The elements decoded, in the order of the walk. *)
Fixpoint visitedElements (trace : list walkEvent) : list ASN1Element :=
  match trace with
  | [] => []
  | Visited e :: rest => e :: visitedElements rest
  | RegionEnd _ :: rest => visitedElements rest
  end.

(** The last element decoded in the whole walk. *)
Definition lastVisited (trace : list walkEvent) : option ASN1Element :=
  last (map Some (visitedElements trace)) None.

(** The [lastElement] of the call that ended last among those whose
    [lastElement] has tag number 4. *)
Fixpoint lastOctetRegion (trace : list walkEvent) : option ASN1Element :=
  match trace with
  | [] => None
  | ev :: rest =>
      match lastOctetRegion rest with
      | Some e => Some e
      | None =>
          match ev with
          | RegionEnd e => if Tag e =? TagOctetString then Some e else None
          | Visited _ => None
          end
      end
  end.

(** The key size left by the calls of a trace, starting from [keySize]. *)
Definition keySizeAfter (trace : list walkEvent) (keySize : Z) : Z :=
  match lastOctetRegion trace with
  | Some e => GoInt.mul (Length e) 8
  | None => keySize
  end.

(** ** Test inputs *)

(** [SEQUENCE] with an 8-octet length field holding -10: header 10 bytes,
    header + length = 0. *)
Definition zeroAdvance : list byte :=
  [x30; x88; xff; xff; xff; xff; xff; xff; xff; xf6].

(** The same with length -11: header + length = -1. *)
Definition negativeAdvance : list byte :=
  [x30; x88; xff; xff; xff; xff; xff; xff; xff; xf5].

(** A primitive element whose length field holds 2^63 - 1. *)
Definition hugePrimitive : list byte :=
  [x04; x88; x7f; xff; xff; xff; xff; xff; xff; xff].

(** A constructed element whose length field holds 2^63 - 1. *)
Definition hugeConstructed : list byte :=
  [x30; x88; x7f; xff; xff; xff; xff; xff; xff; xff].

(** [n] elements wrapped around [inner], each a [SEQUENCE] with a
    short-form length. *)
Definition nested (n : nat) (inner : list byte) : list byte :=
  Nat.iter n (fun content => x30 :: z2b (len content) :: content) inner.

(** [n] sibling [NULL] elements. *)
Fixpoint nulls (n : nat) : list byte :=
  match n with
  | O => []
  | S n' => x05 :: x00 :: nulls n'
  end.

(** [OBJECT IDENTIFIER 2.5.4.3] followed by the UTF8String "A". *)
Definition commonNameA : list byte :=
  [x06; x03; x55; x04; x03; x0c; x01; x41].

(** ** Auxiliary definitions of the statements *)

(** The element decoded from a first byte [t], with the given header and
    content lengths. *)
Definition elementOf (t : byte) (depth offset headerLen length : Z) : ASN1Element :=
  mkElement depth offset headerLen length
            (Z.land (b2z t) 0x1F)
            (Z.shiftr (Z.land (b2z t) 0xC0) 6)
            (negb (Z.land (b2z t) 0x20 =? 0)).

Definition continues (b : byte) : bool := negb (Z.land (b2z b) 0x80 =? 0).

(** The bytes end on a chunk boundary: empty, or the last byte has its
    continuation bit clear. *)
Fixpoint endsChunk (body : list byte) : bool :=
  match body with
  | [] => true
  | [b] => negb (continues b)
  | _ :: rest => endsChunk rest
  end.

(** The value accumulated over a run of bytes by the inner loop of
    [parseOID]. *)
Definition accumulated (chunk : list byte) : Z := fst (oidChunk 0 chunk).

(** Two relative distinguished names, both [commonName]: "A", then "B". *)
Definition twoCommonNames : list byte :=
  [x30; x18;
   x31; x0a; x30; x08; x06; x03; x55; x04; x03; x0c; x01; x41;
   x31; x0a; x30; x08; x06; x03; x55; x04; x03; x0c; x01; x42].

(** [SEQUENCE { SEQUENCE { OCTET STRING (1 byte) }, INTEGER 5 }] *)
Definition octetThenInteger : list byte :=
  [x30; x08; x30; x03; x04; x01; xaa; x02; x01; x05].

(** One sibling more than [MaxElementsPerLevel]. *)
Definition manySiblings : nat := Z.to_nat (MaxElementsPerLevel + 1).

(** There is a marker [30 82] at index [i]. *)
Definition markerAt (data : list byte) (i : nat) : bool :=
  match nth_error data i, nth_error data (S i) with
  | Some b0, Some b1 => (b2z b0 =? 0x30) && (b2z b1 =? 0x82)
  | _, _ => false
  end.

(** What [encoding/asn1] does with a buffer that starts with the marker
    [30 82], the only buffers [FindValidSignature] hands to it: the next two
    bytes [hi lo] are the content length [hi * 256 + lo]; a leading zero
    ([hi = 0], not minimal in DER) and a content that runs past the end of
    the buffer are errors; otherwise [FullBytes] is the header and the
    content, and the remaining bytes are returned.  An instance of the
    parameter [Unmarshal], for concrete runs. *)
Definition unmarshalSequence2 (buffer : list byte)
  : option (asn1.RawValue * list byte) :=
  match buffer with
  | t :: l :: hi :: lo :: content =>
      if (b2z t =? 0x30) && (b2z l =? 0x82) && negb (b2z hi =? 0)
      then
        let length := b2z hi * 256 + b2z lo in
        if length <=? len content
        then Some (asn1.mkRawValue 0 16 true
                     (firstn (Z.to_nat length) content)
                     (t :: l :: hi :: lo :: firstn (Z.to_nat length) content),
                   skipn (Z.to_nat length) content)
        else None
      else None
  | _ => None
  end.

(** A decoder reads a structure from the front of the buffer: bytes added
    after a buffer it accepts only add to what remains. *)
Definition readsPrefix (Unmarshal : list byte -> option (asn1.RawValue * list byte))
  : Prop :=
  forall buffer raw rest trailing,
    Unmarshal buffer = Some (raw, rest) ->
    Unmarshal (buffer ++ trailing) = Some (raw, rest ++ trailing).

(** The content of [hangBuffer]. *)
Definition hangContent : list byte := zeroAdvance ++ repeat x00 246.

(** A 260-byte SEQUENCE whose content starts with [zeroAdvance]. *)
Definition hangBuffer : list byte :=
  [x30; x82; x01; x00] ++ zeroAdvance ++ repeat x00 246.

(** A 260-byte SEQUENCE holding the five attributes, each followed by a
    one-letter string, and an OCTET STRING of 207 bytes. *)
Definition completeSignature : list byte :=
  [x30; x82; x01; x00;
   x06; x03; x55; x04; x03; x0c; x01; x41;
   x06; x03; x55; x04; x06; x13; x01; x42;
   x06; x03; x55; x04; x07; x0c; x01; x43;
   x06; x03; x55; x04; x0a; x0c; x01; x44;
   x06; x09; x2a; x86; x48; x86; xf7; x0d; x01; x09; x01; x16; x01; x45;
   x04; x81; xcf] ++ repeat x00 207.

(** ** Definitions for the further properties *)

Definition bigEndian (octets : list byte) (acc : Z) : Z :=
  fold_left (fun a b => a * 256 + b2z b) octets acc.

(** What a decode result says apart from the two position fields. *)
Definition decoded (r : ASN1Element * Z * option error)
  : Z * Z * Z * Z * bool * Z * option error :=
  let '(e, n, err) := r in
  (HeaderLen e, Length e, Tag e, Class e, IsCompound e, n, err).

(** No byte of the data, read as a length byte, announces more than seven
    length octets. *)
Definition shortLengths (data : list byte) : bool :=
  forallb (fun b => b2z b <? 0x88) data.

(** What a successful decode of [data[offset:]] guarantees when the
    lengths are bounded. *)
Definition fitsAt (data : list byte) (offset : Z) (e : ASN1Element) (n : Z) : Prop :=
  0 <= Length e /\ 2 <= HeaderLen e /\ n = HeaderLen e + Length e /\
  offset + n <= len data.

Definition hasMarker (data : list byte) : bool :=
  existsb (markerAt data) (seq 0 (List.length data)).

(** The number a chunk spells in base 128, most significant digit first. *)
Definition base128 (chunk : list byte) : Z :=
  fold_left (fun value b => value * 128 + b2z b mod 128) chunk 0.

(** A chunk as DER writes one arc: not empty, the continuation bit set on
    every byte but the last. *)
Definition wellFormedChunk (chunk : list byte) : bool :=
  match rev chunk with
  | [] => false
  | final :: init => negb (continues final) && forallb continues init
  end.

Definition oidStep (value : Z) (b : byte) : Z :=
  Z.lor (u64 (Z.shiftl value 7)) (Z.land (b2z b) 0x7F).

(** A decoder hands back, as [FullBytes], bytes from the front of its
    buffer. *)
Definition cutsFromBuffer (Unmarshal : list byte -> option (asn1.RawValue * list byte))
  : Prop :=
  forall buffer raw rest,
    Unmarshal buffer = Some (raw, rest) ->
    exists n, asn1.FullBytes raw = firstn n buffer.

(** The tag numbers and constructed flags a decoded element can have. *)
Definition decodedTags : list (Z * bool) :=
  list_prod (map Z.of_nat (seq 0 32)) [true; false].


(** ** Formatting *)

(** [%d] of a signed integer. *)
Definition fmt_int (z : Z) : string :=
  if z <? 0 then ("-" ++ fmt_d (- z))%string else fmt_d z.

Definition hexDigit (upper : bool) (n : Z) : ascii :=
  nth (Z.to_nat n)
      (list_ascii_of_string (if upper then "0123456789ABCDEF" else "0123456789abcdef"))
      "0"%char.

Fixpoint hexString (upper : bool) (bytes : list byte) : string :=
  match bytes with
  | [] => ""
  | b :: rest =>
      String (hexDigit upper (b2z b / 16))
             (String (hexDigit upper (b2z b mod 16)) (hexString upper rest))
  end.

(** [hex.EncodeToString] *)
Definition hexEncode (bytes : list byte) : string := hexString false bytes.

(** [%X] of a byte slice *)
Definition hexUpper (bytes : list byte) : string := hexString true bytes.

(** [strings.Repeat(s, n)] for [n >= 0] *)
Fixpoint repeatString (s : string) (n : nat) : string :=
  match n with
  | O => ""
  | S n' => (s ++ repeatString s n')%string
  end.

(** [%8s] *)
Definition pad8 (s : string) : string :=
  (repeatString " " (8 - String.length s) ++ s)%string.

Definition TagPrintable : Z := 19.
Definition TagT61String : Z := 20.
Definition TagIA5String : Z := 22.
Definition TagUTCTime : Z := 23.
Definition TagGeneralTime : Z := 24.

Definition oidNames : list (string * string) :=
  [("1.2.840.113549.1.1.1", "rsaEncryption");
   ("1.2.840.113549.1.1.5", "sha1WithRSAEncryption");
   ("1.2.840.113549.1.1.11", "sha256WithRSAEncryption");
   ("1.2.840.113549.1.1.12", "sha384WithRSAEncryption");
   ("1.2.840.113549.1.1.13", "sha512WithRSAEncryption");
   ("1.2.840.10045.2.1", "ecPublicKey");
   ("1.2.840.10045.4.3.2", "ecdsa-with-SHA256");
   ("2.16.840.1.101.3.4.2.1", "sha256");
   ("2.16.840.1.101.3.4.2.2", "sha384");
   ("2.16.840.1.101.3.4.2.3", "sha512");
   ("1.3.14.3.2.26", "sha1");
   (OIDCommonName, "commonName");
   (OIDCountryName, "countryName");
   (OIDLocalityName, "localityName");
   (OIDOrganizationName, "organizationName");
   (OIDEmailAddress, "emailAddress")]%string.

(** [oidNames[oid]] *)
Definition oidName (oid : string) : option string :=
  option_map snd (find (fun entry => String.eqb (fst entry) oid) oidNames).

Definition getTagName (tag : Z) (isCompound : bool) : string :=
  if isCompound
  then
    if tag =? TagSequence then "SEQUENCE"
    else if tag =? TagSet then "SET"
    else ("CONSTRUCTED [" ++ fmt_int tag ++ "]")%string
  else
    if tag =? 1 then "BOOLEAN"
    else if tag =? TagInteger then "INTEGER"
    else if tag =? TagBitString then "BIT STRING"
    else if tag =? TagOctetString then "OCTET STRING"
    else if tag =? TagNull then "NULL"
    else if tag =? TagObjectID then "OBJECT IDENTIFIER"
    else if tag =? TagUTF8String then "UTF8String"
    else if tag =? TagPrintable then "PrintableString"
    else if tag =? TagT61String then "T61String"
    else if tag =? TagIA5String then "IA5String"
    else if tag =? TagUTCTime then "UTCTime"
    else if tag =? TagGeneralTime then "GeneralizedTime"
    else ("PRIMITIVE [" ++ fmt_int tag ++ "]")%string.

(** The loop [for _, b := range content] of the INTEGER case. *)
Definition integerValue (content : list byte) : Z :=
  fold_left (fun value b => Z.lor (GoInt.shl value 8) (b2z b)) content 0.

(** The loop [for i := len(content); i < 8; i++] of the INTEGER case. *)
Definition signExtend (n : nat) (value : Z) : Z :=
  fold_left (fun value i => Z.lor value (GoInt.shl 0xFF (8 * (7 - Z.of_nat i))))
            (seq n (8 - n)) value.

(** The common tail of the OCTET STRING and default cases. *)
Definition hexPreview (content : list byte) : string :=
  if len content >? 32
  then (hexEncode (firstn 32 content) ++ "... (" ++ fmt_int (len content) ++ " bytes)")%string
  else hexEncode content.

Section Display.

(** [fmt.Sprintf("%q", s)], Go's quoting of a string, belongs to the standard
    library: it is a parameter. *)
Variable quote : string -> string.

Definition formatPrimitiveContent (tag : Z) (content : list byte) : string :=
  if tag =? 1 then
    match content with
    | [b] => if b2z b =? 0 then "FALSE" else "TRUE"
    | _ => hexEncode content
    end
  else if tag =? TagInteger then
    if len content <=? 8
    then
      let value := integerValue content in
      let value :=
        match content with
        | first :: _ =>
            if negb (Z.land (b2z first) 0x80 =? 0)
            then signExtend (List.length content) value
            else value
        | [] => value
        end in
      (fmt_int value ++ " (0x" ++ hexUpper content ++ ")")%string
    else hexEncode content
  else if tag =? TagBitString then
    match content with
    | unusedBits :: data =>
        if len data >? 32
        then ("unused bits: " ++ fmt_int (b2z unusedBits) ++ ", data: " ++
              hexEncode (firstn 32 data) ++ "... (" ++ fmt_int (len data) ++ " bytes)")%string
        else ("unused bits: " ++ fmt_int (b2z unusedBits) ++ ", data: " ++
              hexEncode data)%string
    | [] => hexEncode content
    end
  else if tag =? TagOctetString then hexPreview content
  else if tag =? TagNull then ""
  else if tag =? TagObjectID then
    let oid := parseOID content in
    match oidName oid with
    | Some name => (oid ++ " (" ++ name ++ ")")%string
    | None => oid
    end
  else if (tag =? TagUTF8String) || (tag =? TagPrintable) ||
          (tag =? TagT61String) || (tag =? TagIA5String)
  then quote (string_of_list_byte content)
  else if (tag =? TagUTCTime) || (tag =? TagGeneralTime)
  then quote (string_of_list_byte content)
  else hexPreview content.

(** The field [TagName] that [parseASN1Element] stores in its element. *)
Definition elementTagName (element : ASN1Element) : string :=
  getTagName (Tag element) (IsCompound element).

(** The field [Content] that [parseASN1Element] stores in the element it
    decodes from the window [data]. *)
Definition elementContent (data : list byte) (element : ASN1Element) : string :=
  if negb (IsCompound element) && (Length element >? 0)
     && (len data >=? GoInt.add (HeaderLen element) (Length element))
  then
    match slice data (HeaderLen element)
                (GoInt.add (HeaderLen element) (Length element)) with
    | Done content => formatPrimitiveContent (Tag element) content
    | _ => ""
    end
  else "".

(** The line printed by [displayElement]. *)
Definition displayElement (element : ASN1Element) (tagName content : string)
  : string :=
  let lengthStr := ("l=" ++ fmt_int (Length element))%string in
  let headerStr := ("hl=" ++ fmt_int (HeaderLen element))%string in
  let depthStr := ("d=" ++ fmt_int (Depth element))%string in
  let offsetStr := (fmt_int (Offset element) ++ ":")%string in
  let constructedStr := (if IsCompound element then "cons" else "prim")%string in
  let line := (pad8 offsetStr ++ depthStr ++ " " ++ headerStr ++ " " ++ lengthStr ++
               " " ++ constructedStr ++ ": " ++ tagName)%string in
  if String.eqb content "" then line else (line ++ "  " ++ content)%string.

(** The line printed when the content of a constructed element does not
    decode; [strings.Repeat] panics on a negative count. *)
Definition hexDumpLine (depth : Z) (content : list byte) : outcome string :=
  let count := GoInt.add depth 1 in
  if count <? 0 then Panic
  else Done (repeatString "  " (Z.to_nat count) ++ "[HEX DUMP]: " ++ hexEncode content)%string.

(** [parseAndDisplayASN1], as the state of its loop: the lines printed from
    this state on, and the error returned. *)
Fixpoint parseAndDisplayASN1_from (fuel : nat) (data : list byte) (depth : Z)
  (baseOffset : Z) (offset : Z) : outcome (list string * option error) :=
  match fuel with
  | O => OutOfFuel
  | S fuel' =>
      if offset <? len data
      then
        rest <- slice_from data offset ;;
        '(element, bytesRead, err) <-
          parseASN1Element rest depth (GoInt.add baseOffset offset) ;;
        match err with
        | Some e => Done ([], Some e)
        | None =>
            let line := displayElement element (elementTagName element)
                                       (elementContent rest element) in
            inner <- compoundContent data offset element bytesRead ;;
            below <-
              match inner with
              | Some content =>
                  '(lines, err) <-
                    parseAndDisplayASN1_from fuel' content (GoInt.add depth 1)
                      (GoInt.add (GoInt.add baseOffset offset) (HeaderLen element)) 0 ;;
                  match err with
                  | Some _ =>
                      dump <- hexDumpLine depth content ;;
                      Done (lines ++ [dump])
                  | None => Done lines
                  end
              | None => Done []
              end ;;
            '(later, err) <-
              parseAndDisplayASN1_from fuel' data depth baseOffset
                                       (GoInt.add offset bytesRead) ;;
            Done (line :: below ++ later, err)
        end
      else Done ([], None)
  end.

Definition parseAndDisplayASN1 (fuel : nat) (data : list byte) (depth baseOffset : Z)
  : outcome (list string * option error) :=
  parseAndDisplayASN1_from fuel data depth baseOffset 0.

Definition Display (fuel : nat) (data : list byte) (baseOffset : Z)
  : outcome (list string * option error) :=
  parseAndDisplayASN1 fuel data 0 baseOffset.

End Display.

(** ** Encoded structures

    The structures that DER writes, and their encoding: what the walks are
    meant to read. *)

(** An element: an object identifier given by its arcs, another primitive
    element given by its identifier byte and content, or a constructed
    element given by its identifier byte and children. *)
#[warnings="-register-all"] Inductive node : Type :=
| ObjectIdentifier (arcs : list Z)
| Primitive (tagByte : byte) (content : list byte)
| Constructed (tagByte : byte) (children : list node).

(** The [k] low-order bytes of [n], most significant first. *)
Fixpoint octetsOf (k : nat) (n : Z) : list byte :=
  match k with
  | O => []
  | S k' => octetsOf k' (n / 256) ++ [z2b n]
  end.

(** The least number of octets that hold a length below 2^56. *)
Definition octetCount (n : Z) : nat :=
  if n <? 2 ^ 8 then 1
  else if n <? 2 ^ 16 then 2
  else if n <? 2 ^ 24 then 3
  else if n <? 2 ^ 32 then 4
  else if n <? 2 ^ 40 then 5
  else if n <? 2 ^ 48 then 6
  else 7.

(** A definite length: short form below 128, else the long form with the
    least number of octets. *)
Definition encodeLength (n : Z) : list byte :=
  if n <? 128 then [z2b n]
  else z2b (0x80 + Z.of_nat (octetCount n)) :: octetsOf (octetCount n) n.

Definition encodeElement (tagByte : byte) (content : list byte) : list byte :=
  tagByte :: encodeLength (len content) ++ content.

(** The base-128 digits of [n] above the last, each with the continuation
    bit; [k] digits are enough below 128^k. *)
Fixpoint highDigits (k : nat) (n : Z) : list byte :=
  match k with
  | O => []
  | S k' =>
      if n =? 0 then []
      else highDigits k' (n / 128) ++ [z2b (0x80 + n mod 128)]
  end.

(** One arc below 2^64 in base 128. *)
Definition encodeArc (n : Z) : list byte :=
  highDigits 10 (n / 128) ++ [z2b (n mod 128)].

(** The content of an OBJECT IDENTIFIER: the first two arcs in one byte,
    the others in base 128. *)
Definition encodeOID (arcs : list Z) : list byte :=
  match arcs with
  | first :: second :: rest =>
      z2b (40 * first + second) :: List.concat (map encodeArc rest)
  | _ => []
  end.

Fixpoint encode (n : node) : list byte :=
  match n with
  | ObjectIdentifier arcs => encodeElement x06 (encodeOID arcs)
  | Primitive tagByte content => encodeElement tagByte content
  | Constructed tagByte children =>
      encodeElement tagByte (List.concat (map encode children))
  end.

(** A run of sibling elements. *)
Definition encodeAll (siblings : list node) : list byte :=
  List.concat (map encode siblings).

Definition validArcs (arcs : list Z) : bool :=
  match arcs with
  | first :: second :: rest =>
      (0 <=? first) && (first <=? 2) && (0 <=? second) && (second <? 40) &&
      forallb (fun arc => (0 <=? arc) && (arc <? 2 ^ 64)) rest
  | _ => false
  end.

Definition tagNumber (tagByte : byte) : Z := Z.land (b2z tagByte) 0x1F.

Definition constructedBit (tagByte : byte) : bool :=
  negb (Z.land (b2z tagByte) 0x20 =? 0).

(** The identifier byte agrees with the kind of element, tag number 6 is
    used by object identifiers only, and the arcs can be written. *)
Fixpoint wellFormed (n : node) : bool :=
  match n with
  | ObjectIdentifier arcs => validArcs arcs
  | Primitive tagByte _ =>
      negb (constructedBit tagByte) && negb (tagNumber tagByte =? TagObjectID)
  | Constructed tagByte children =>
      constructedBit tagByte && negb (tagNumber tagByte =? TagObjectID) &&
      forallb wellFormed children
  end.

(** The content of a primitive non-empty element. *)
Definition primitiveValue (n : node) : option (list byte) :=
  match n with
  | ObjectIdentifier arcs => Some (encodeOID arcs)
  | Primitive _ [] => None
  | Primitive _ content => Some content
  | Constructed _ _ => None
  end.

(** An attribute: an object identifier followed, among its siblings, by a
    primitive non-empty element. *)
Definition attributeAt (n : node) (following : list node) : list (list Z * string) :=
  match n, following with
  | ObjectIdentifier arcs, next :: _ =>
      match primitiveValue next with
      | Some value => [(arcs, string_of_list_byte value)]
      | None => []
      end
  | _, _ => []
  end.

(** The attributes below an element, in document order. *)
Fixpoint attributesBelow (n : node) : list (list Z * string) :=
  match n with
  | Constructed _ children =>
      (fix among (siblings : list node) : list (list Z * string) :=
         match siblings with
         | [] => []
         | first :: following =>
             attributeAt first following ++ attributesBelow first ++ among following
         end) children
  | _ => []
  end.

(** The attributes of a run of siblings, in document order: depth first,
    left to right. *)
Fixpoint attributes (siblings : list node) : list (list Z * string) :=
  match siblings with
  | [] => []
  | first :: following =>
      attributeAt first following ++ attributesBelow first ++ attributes following
  end.

(** The value of the last attribute with the given arcs. *)
Fixpoint lastValueFor (arcs : list Z) (found : list (list Z * string))
  : option string :=
  match found with
  | [] => None
  | (a, value) :: rest =>
      match lastValueFor arcs rest with
      | Some later => Some later
      | None => if list_eq_dec Z.eq_dec a arcs then Some value else None
      end
  end.

(** The five attributes of [SignatureValidation]. *)
Inductive attribute : Type :=
| commonName | countryName | localityName | organizationName | emailAddress.

Definition arcsOf (a : attribute) : list Z :=
  match a with
  | commonName => [2; 5; 4; 3]
  | countryName => [2; 5; 4; 6]
  | localityName => [2; 5; 4; 7]
  | organizationName => [2; 5; 4; 10]
  | emailAddress => [1; 2; 840; 113549; 1; 9; 1]
  end.

(** The flag and the value that [SignatureValidation] keeps for an
    attribute. *)
Definition recorded (a : attribute) (sv : SignatureValidation) : bool * string :=
  match a with
  | commonName => (HasCommonName sv, CommonName sv)
  | countryName => (HasCountryName sv, CountryName sv)
  | localityName => (HasLocalityName sv, LocalityName sv)
  | organizationName => (HasOrganizationName sv, OrganizationName sv)
  | emailAddress => (HasEmailAddress sv, EmailAddress sv)
  end.

(** The dotted form of a list of arcs. *)
Definition dotted (arcs : list Z) : string := String.concat "." (map fmt_d arcs).

(** No character of the string is a dot. *)
Fixpoint dotFree (s : string) : bool :=
  match s with
  | EmptyString => true
  | String c rest => negb (Ascii.eqb c ".") && dotFree rest
  end.

(** The identifier byte and the content of an element. *)
Definition tagOf (n : node) : byte :=
  match n with
  | ObjectIdentifier _ => x06
  | Primitive tagByte _ => tagByte
  | Constructed tagByte _ => tagByte
  end.

Definition contentOf (n : node) : list byte :=
  match n with
  | ObjectIdentifier arcs => encodeOID arcs
  | Primitive _ content => content
  | Constructed _ children => encodeAll children
  end.

Definition headerOf (n : node) : list byte :=
  tagOf n :: encodeLength (len (contentOf n)).

(** The attributes as [findFieldsInASN1] hands them to
    [setValidationField]: the dotted form of the arcs, and the value. *)
Definition rendered (found : list (list Z * string)) : list (string * string) :=
  map (fun p => (dotted (fst p), snd p)) found.


(** * Properties *)

(** ** Safety of the core calls (C1) *)

Lemma findFieldsInASN1_zeroAdvance_step :
  forall fuel validation,
    findFieldsInASN1_from (S fuel) zeroAdvance 0 validation =
    findFieldsInASN1_from fuel zeroAdvance 0 validation.
Proof. intros. reflexivity. Qed.

Lemma findFieldsInASN1_zeroAdvance :
  forall fuel validation,
    findFieldsInASN1_from fuel zeroAdvance 0 validation = OutOfFuel.
Proof.
  induction fuel as [|fuel IH]; intro validation.
  - reflexivity.
  - rewrite findFieldsInASN1_zeroAdvance_step. apply IH.
Qed.

Lemma findLastOctetString_zeroAdvance_step :
  forall fuel depth last keySize,
    exists last',
      findLastOctetString_from (S fuel) zeroAdvance depth 0 last keySize =
      findLastOctetString_from fuel zeroAdvance depth 0 last' keySize.
Proof. intros. eexists. reflexivity. Qed.

Lemma findLastOctetString_zeroAdvance :
  forall fuel depth last keySize,
    findLastOctetString_from fuel zeroAdvance depth 0 last keySize = OutOfFuel.
Proof.
  induction fuel as [|fuel IH]; intros depth last keySize.
  - reflexivity.
  - destruct (findLastOctetString_zeroAdvance_step fuel depth last keySize)
      as [last' Hstep].
    rewrite Hstep. apply IH.
Qed.

(** C1, refuted on the code.  The specification promises that no core call
    panics, loops forever or reads out of bounds, whatever the input.
    [parseASN1Element] accumulates up to 127 length octets into a 64-bit
    [int] with no overflow check, so:
    - on [hugePrimitive] it panics (slice bounds out of range);
    - on [zeroAdvance] it succeeds with [bytesRead = 0], and the loops of
      [findFieldsInASN1] and [findLastOctetString] never advance: they run
      out of every amount of fuel;
    - on [negativeAdvance] it succeeds with [bytesRead = -1], and the next
      [data[offset:]] of either walk panics. *)
Theorem core_calls_can_panic_or_loop :
  parseASN1Element hugePrimitive 0 0 = Panic /\
  (forall fuel validation,
      findFieldsInASN1 fuel zeroAdvance validation = OutOfFuel) /\
  (forall fuel, calculateKeySize fuel zeroAdvance = OutOfFuel) /\
  (forall fuel validation,
      findFieldsInASN1 (S (S fuel)) negativeAdvance validation = Panic) /\
  (forall fuel, calculateKeySize (S (S fuel)) negativeAdvance = Panic).
Proof.
  split; [reflexivity|].
  split; [intros; apply findFieldsInASN1_zeroAdvance|].
  split; [intros; apply findLastOctetString_zeroAdvance|].
  split; intros; reflexivity.
Qed.

(** ** The recursion ceiling (C2) *)

(** C2, refuted on the code.  The specification, the test
    "Maximum recursion depth" of [TestParseASN1Element] and TESTING.md
    describe a ceiling [MaxRecursionDepth = 50].  [parseASN1Element] only
    stores [depth]: the input of that test decodes without error at depth
    [MaxRecursionDepth + 1].  [findLastOctetString] passes [depth + 1] down
    and never compares it: under 52 nested SEQUENCEs the OCTET STRING is
    decoded at depth 52 and gives the key size; [findFieldsInASN1] has no
    depth at all and records a common name found under 52 SEQUENCEs. *)
Theorem recursion_depth_not_limited :
  parseASN1Element [x30; x02; x01; x01] (MaxRecursionDepth + 1) 0 =
    Done (mkElement (MaxRecursionDepth + 1) 0 2 2 TagSequence 0 true, 4, None) /\
  omap lastVisited (walkTrace 60 (nested 52 [x04; x01; xaa]) 0) =
    Done (Some (mkElement 52 0 2 1 TagOctetString 0 false)) /\
  calculateKeySize 60 (nested 52 [x04; x01; xaa]) = Done 8 /\
  omap CommonName (findFieldsInASN1 60 (nested 52 commonNameA) zeroValidation) =
    Done "A"%string.
Proof. repeat split; vm_compute; reflexivity. Qed.

(** ** Length decoding (C6) *)

(** C6, refuted on the code.  The long form is accumulated with
    [(Length << 8) | byte] in a 64-bit [int] and nothing checks for
    overflow: [zeroAdvance] decodes without error to a negative length, and
    [hugeConstructed] decodes without error to the length 2^63 - 1 inside a
    window of 10 bytes (header + length wraps to a negative number, which
    passes the test against [len(data)]). *)
Theorem length_overflow_not_detected :
  parseASN1Element zeroAdvance 0 0 =
    Done (mkElement 0 0 10 (-10) TagSequence 0 true, 0, None) /\
  parseASN1Element hugeConstructed 0 0 =
    Done (mkElement 0 0 10 (2 ^ 63 - 1) TagSequence 0 true, 9 - 2 ^ 63, None) /\
  len hugeConstructed = 10.
Proof. repeat split; vm_compute; reflexivity. Qed.

(** ** Arithmetic and slice facts *)

Lemma wrap_small : forall z, GoInt.in_range z -> GoInt.wrap z = z.
Proof.
  intros z [Hlo Hhi]. unfold GoInt.wrap.
  rewrite Z.mod_small; lia.
Qed.

Lemma add_small : forall a b, GoInt.in_range (a + b) -> GoInt.add a b = a + b.
Proof. intros. unfold GoInt.add. now apply wrap_small. Qed.

Lemma sub_small : forall a b, GoInt.in_range (a - b) -> GoInt.sub a b = a - b.
Proof. intros. unfold GoInt.sub. now apply wrap_small. Qed.

Lemma b2z_range : forall b, 0 <= b2z b < 256.
Proof.
  intro b. unfold b2z.
  pose proof (Byte.to_N_bounded b) as H. lia.
Qed.

Lemma len_nonneg : forall data, 0 <= len data.
Proof. intro. unfold len. lia. Qed.

Lemma len_cons : forall b data, len (b :: data) = 1 + len data.
Proof. intros. unfold len. simpl List.length. lia. Qed.

Lemma len_app : forall l1 l2, len (l1 ++ l2) = len l1 + len l2.
Proof. intros. unfold len. rewrite length_app. lia. Qed.

Lemma land_high_bit_small : forall z, 0 <= z < 128 -> Z.land z 0x80 = 0.
Proof.
  intros z Hz. apply Z.bits_inj'. intros n Hn.
  rewrite Z.land_spec, Z.bits_0.
  destruct (Z.eq_dec n 7) as [->|Hne].
  - destruct (Z.eq_dec z 0) as [->|Hz0]; [reflexivity|].
    rewrite (Z.bits_above_log2 z 7); [reflexivity|lia|].
    apply Z.log2_lt_pow2; lia.
  - change 0x80 with (2 ^ 7).
    rewrite (Z.pow2_bits_false 7 n) by lia.
    apply andb_false_r.
Qed.

Lemma slice_from_app : forall pre rest,
    slice_from (pre ++ rest) (len pre) = Done rest.
Proof.
  intros. unfold slice_from.
  rewrite len_app. pose proof (len_nonneg pre). pose proof (len_nonneg rest).
  replace ((0 <=? len pre) && (len pre <=? len pre + len rest)) with true
    by (symmetry; apply andb_true_intro; split; lia).
  unfold len. rewrite Nat2Z.id, skipn_app, skipn_all, Nat.sub_diag. reflexivity.
Qed.

Lemma slice_app : forall pre rest lo hi,
    0 <= lo ->
    slice (pre ++ rest) (len pre + lo) (len pre + hi) = slice rest lo hi.
Proof.
  intros pre rest lo hi Hlo. unfold slice.
  rewrite len_app. pose proof (len_nonneg pre).
  replace (0 <=? len pre + lo) with (0 <=? lo)
    by (destruct (Z.leb_spec 0 lo), (Z.leb_spec 0 (len pre + lo)); lia).
  replace (len pre + lo <=? len pre + hi) with (lo <=? hi)
    by (destruct (Z.leb_spec lo hi), (Z.leb_spec (len pre + lo) (len pre + hi)); lia).
  replace (len pre + hi <=? len pre + len rest) with (hi <=? len rest)
    by (destruct (Z.leb_spec hi (len rest)),
                 (Z.leb_spec (len pre + hi) (len pre + len rest)); lia).
  replace (len pre + hi - (len pre + lo)) with (hi - lo) by lia.
  replace (Z.to_nat (len pre + lo)) with (List.length pre + Z.to_nat lo)%nat
    by (unfold len; lia).
  rewrite skipn_app.
  replace (List.length pre + Z.to_nat lo - List.length pre)%nat with (Z.to_nat lo) by lia.
  rewrite (skipn_all2 pre) by lia.
  reflexivity.
Qed.

(** ** One header, short form *)

Lemma parseASN1Element_short_form :
  forall t l rest depth offset,
    b2z l < 128 ->
    b2z l <= len rest ->
    len rest < 2 ^ 62 ->
    parseASN1Element (t :: l :: rest) depth offset =
    Done (elementOf t depth offset 2 (b2z l), 2 + b2z l, None).
Proof.
  intros t l rest depth offset Hshort Hfits Hbig.
  pose proof (b2z_range l) as Hl. pose proof (len_nonneg rest) as Hr.
  assert (Hlen : len (t :: l :: rest) = 2 + len rest)
    by (rewrite !len_cons; lia).
  unfold parseASN1Element. rewrite Hlen.
  destruct (Z.ltb_spec (2 + len rest) 2) as [?|_]; [lia|].
  unfold index at 1. rewrite Hlen.
  destruct (Z.ltb_spec 0 (2 + len rest)) as [_|?]; [|lia].
  cbn [Z.leb Z.compare andb Z.to_nat nth_error bind].
  unfold index at 1. rewrite Hlen.
  destruct (Z.ltb_spec 1 (2 + len rest)) as [_|?]; [|lia].
  change (Z.to_nat 1) with 1%nat.
  cbn [Z.leb Z.compare andb nth_error bind].
  rewrite land_high_bit_small by lia.
  cbn [Z.eqb].
  change (GoInt.add 1 1) with 2.
  unfold finishElement, withLength, elementOf.
  cbn [IsCompound Length HeaderLen Depth Offset Tag Class].
  rewrite add_small by (unfold GoInt.in_range; lia).
  rewrite Hlen.
  destruct (Z.gtb_spec (2 + b2z l) (2 + len rest)) as [?|_]; [lia|].
  destruct (negb (negb (Z.land (b2z t) 32 =? 0)) && (b2z l >? 0)
            && (2 + len rest >=? 2 + b2z l)) eqn:Hcond.
  - unfold slice. rewrite Hlen.
    destruct (Z.leb_spec 2 (2 + b2z l)) as [_|?]; [|lia].
    destruct (Z.leb_spec (2 + b2z l) (2 + len rest)) as [_|?]; [|lia].
    reflexivity.
  - reflexivity.
Qed.

(** ** Tag numbers (C5) *)

Lemma finishElement_element :
  forall data element e n err,
    finishElement data element = Done (e, n, err) -> e = element.
Proof.
  intros data element e n err. unfold finishElement.
  match goal with |- context [bind ?m _] => destruct m end;
    cbn [bind]; try discriminate.
  destruct (_ >? _); intro H; inversion H; reflexivity.
Qed.

Lemma index_range : forall data i z, index data i = Done z -> 0 <= z < 256.
Proof.
  intros data i z. unfold index.
  destruct (_ && _); [|discriminate].
  destruct (nth_error _ _); [|discriminate].
  intro H. inversion H. apply b2z_range.
Qed.

Lemma land_0x1F_range : forall z, 0 <= z -> 0 <= Z.land z 0x1F <= 31.
Proof.
  intros z Hz. change (Z.land z 0x1F) with (Z.land z (Z.ones 5)).
  rewrite Z.land_ones by lia.
  change (2 ^ 5) with 32.
  pose proof (Z.mod_pos_bound z 32). lia.
Qed.

Lemma parseASN1Element_tag_range :
  forall data depth offset e n,
    parseASN1Element data depth offset = Done (e, n, None) ->
    0 <= Tag e <= 31.
Proof.
  intros data depth offset e n. unfold parseASN1Element.
  destruct (len data <? 2); [discriminate|].
  destruct (index data 0) as [tagByte| |] eqn:Ht; cbn [bind]; try discriminate.
  apply index_range in Ht.
  destruct (index data 1) as [lengthByte| |]; cbn [bind]; try discriminate.
  destruct (Z.land lengthByte 128 =? 0).
  - intro H. apply finishElement_element in H. subst e.
    cbn [withLength Tag]. apply land_0x1F_range. lia.
  - destruct (_ =? 0); [discriminate|].
    destruct (_ <? _); [discriminate|].
    destruct (readLength _ _ _ _) as [[length bytesRead]| |]; cbn [bind];
      try discriminate.
    intro H. apply finishElement_element in H. subst e.
    cbn [withLength Tag]. apply land_0x1F_range. lia.
Qed.

(** C5, the claim as stated fails: the window [1F 00], whose first byte has
    its low five bits equal to 31, decodes without error as a primitive
    element with tag number 31 and no content. *)
Lemma long_form_marker_is_decoded :
  parseASN1Element [x1f; x00] 0 0 = Done (mkElement 0 0 2 0 31 0 false, 2, None).
Proof. reflexivity. Qed.

(** C5, amended.  [parseASN1Element] has no long-form tag handling and no
    failure for it: the low five bits of the first byte are the tag number,
    31 included.  A window whose first byte has its low five bits equal to
    31, followed by a short-form length that fits the window, decodes
    successfully to an element with tag number 31, consuming the 2 header
    bytes and the content; and every element that decodes successfully has
    a tag number between 0 and 31. *)
Theorem tag_number_31_is_accepted :
  forall t l rest depth offset,
    Z.land (b2z t) 0x1F = 31 ->
    b2z l < 128 ->
    b2z l <= len rest ->
    len rest < 2 ^ 62 ->
    parseASN1Element (t :: l :: rest) depth offset =
      Done (mkElement depth offset 2 (b2z l) 31
                      (Z.shiftr (Z.land (b2z t) 0xC0) 6)
                      (negb (Z.land (b2z t) 0x20 =? 0)),
            2 + b2z l, None) /\
    (forall data depth' offset' e n,
        parseASN1Element data depth' offset' = Done (e, n, None) ->
        0 <= Tag e <= 31).
Proof.
  intros t l rest depth offset Htag Hshort Hfits Hbig. split.
  - rewrite parseASN1Element_short_form by assumption.
    unfold elementOf. rewrite Htag. reflexivity.
  - apply parseASN1Element_tag_range.
Qed.

Lemma tag_number_31_is_accepted_witness :
  parseASN1Element [xff; x02; x41; x42; x43] 7 9 =
    Done (mkElement 7 9 2 2 31 3 true, 4, None) /\
  (forall data depth' offset' e n,
      parseASN1Element data depth' offset' = Done (e, n, None) ->
      0 <= Tag e <= 31).
Proof.
  apply (tag_number_31_is_accepted xff x02 [x41; x42; x43] 7 9);
    vm_compute; congruence.
Defined.

(** ** Object identifiers (C7) *)

Lemma oidChunk_length :
  forall content value,
    (List.length (snd (oidChunk value content)) <= List.length content)%nat.
Proof.
  induction content as [|b rest IH]; intro value; cbn [oidChunk].
  - cbn. lia.
  - destruct (_ =? 0); cbn [snd List.length].
    + lia.
    + specialize (IH (Z.lor (u64 (Z.shiftl value 7)) (Z.land (b2z b) 127))). lia.
Qed.

Lemma oidChunk_shorter :
  forall b rest value,
    (List.length (snd (oidChunk value (b :: rest))) < List.length (b :: rest))%nat.
Proof.
  intros b rest value. cbn [oidChunk].
  destruct (_ =? 0); cbn [snd List.length].
  - lia.
  - pose proof (oidChunk_length rest
                  (Z.lor (u64 (Z.shiftl value 7)) (Z.land (b2z b) 127))). lia.
Qed.

Lemma oidSubidentifiers_step :
  forall n b rest,
    oidSubidentifiers (S n) (b :: rest) =
    fst (oidChunk 0 (b :: rest)) :: oidSubidentifiers n (snd (oidChunk 0 (b :: rest))).
Proof.
  intros. cbn [oidSubidentifiers].
  destruct (oidChunk 0 (b :: rest)). reflexivity.
Qed.

Lemma oidSubidentifiers_nil : forall n, oidSubidentifiers n [] = [].
Proof. destruct n; reflexivity. Qed.

Lemma oidSubidentifiers_fuel :
  forall n m content,
    (List.length content <= n)%nat ->
    (List.length content <= m)%nat ->
    oidSubidentifiers n content = oidSubidentifiers m content.
Proof.
  induction n as [|n IH]; intros m content Hn Hm.
  - destruct content; [|cbn in Hn; lia].
    now rewrite !oidSubidentifiers_nil.
  - destruct content as [|b rest]; [now rewrite !oidSubidentifiers_nil|].
    destruct m as [|m]; [cbn in Hm; lia|].
    rewrite !oidSubidentifiers_step. f_equal.
    pose proof (oidChunk_shorter b rest 0).
    apply IH; cbn [List.length] in *; lia.
Qed.

Lemma oidChunk_dangling :
  forall chunk value,
    forallb continues chunk = true ->
    snd (oidChunk value chunk) = [].
Proof.
  induction chunk as [|b rest IH]; intros value Hall; [reflexivity|].
  cbn [forallb] in Hall. apply andb_prop in Hall as [Hb Hrest].
  cbn [oidChunk]. unfold continues in Hb.
  destruct (Z.land (b2z b) 128 =? 0); [discriminate|].
  now apply IH.
Qed.

Lemma oidChunk_app :
  forall body value chunk,
    body <> [] ->
    endsChunk body = true ->
    oidChunk value (body ++ chunk) =
      (fst (oidChunk value body), snd (oidChunk value body) ++ chunk) /\
    endsChunk (snd (oidChunk value body)) = true.
Proof.
  induction body as [|b rest IH]; intros value chunk Hne Hend; [congruence|].
  cbn [app oidChunk].
  destruct (Z.land (b2z b) 128 =? 0) eqn:Hb.
  - cbn [fst snd]. split; [reflexivity|].
    destruct rest; [reflexivity|exact Hend].
  - destruct rest as [|b' rest'].
    + cbn [endsChunk] in Hend. unfold continues in Hend.
      rewrite Hb in Hend. discriminate.
    + apply IH; [discriminate|exact Hend].
Qed.

Lemma oidSubidentifiers_dangling :
  forall n body chunk,
    (List.length body <= n)%nat ->
    endsChunk body = true ->
    chunk <> [] ->
    forallb continues chunk = true ->
    oidSubidentifiers (List.length (body ++ chunk)) (body ++ chunk) =
    oidSubidentifiers (List.length body) body ++ [accumulated chunk].
Proof.
  induction n as [|n IH]; intros body chunk Hn Hend Hne Hall.
  - destruct body; [|cbn in Hn; lia].
    destruct chunk as [|c chunk']; [congruence|].
    cbn [app List.length].
    rewrite oidSubidentifiers_step.
    rewrite (oidChunk_dangling (c :: chunk') 0 Hall), !oidSubidentifiers_nil.
    reflexivity.
  - destruct body as [|b rest].
    + apply (IH [] chunk); [cbn; lia|reflexivity|assumption|assumption].
    + destruct (oidChunk_app (b :: rest) 0 chunk) as [Happ Hend'];
        [discriminate|assumption|].
      pose proof (oidChunk_shorter b rest 0) as Hshort.
      set (after := snd (oidChunk 0 (b :: rest))) in *.
      assert (Hstep : oidSubidentifiers (List.length ((b :: rest) ++ chunk))
                                        ((b :: rest) ++ chunk) =
                      fst (oidChunk 0 (b :: rest)) ::
                      oidSubidentifiers (List.length (rest ++ chunk)) (after ++ chunk)).
      { cbn [app List.length]. rewrite oidSubidentifiers_step.
        change (b :: rest ++ chunk) with ((b :: rest) ++ chunk).
        rewrite Happ. reflexivity. }
      rewrite Hstep. cbn [List.length]. rewrite oidSubidentifiers_step.
      fold after. cbn [app]. f_equal.
      rewrite (oidSubidentifiers_fuel (List.length (rest ++ chunk))
                                      (List.length (after ++ chunk)))
        by (rewrite !length_app; cbn [List.length] in *; lia).
      rewrite (oidSubidentifiers_fuel (List.length rest) (List.length after))
        by (cbn [List.length] in *; lia).
      apply IH; [cbn [List.length] in *; lia|assumption|assumption|assumption].
Qed.

(** C7, the claim as stated fails: in [55 04 83] the last chunk has its
    continuation bit set on the last byte of the content, and [parseOID]
    returns the same text as for [55 04 03]: the partial arc 3 is part of
    the output and nothing reports a malformed OID. *)
Lemma dangling_arc_is_emitted :
  parseOID [x55; x04; x83] = "2.5.4.3"%string /\
  parseOID [x55; x04; x83] = parseOID [x55; x04; x03].
Proof. split; reflexivity. Qed.

(** C7, amended.  [parseOID] returns a string and has no failure: when the
    content ends inside a base-128 chunk (every byte of the final chunk has
    its continuation bit set), the accumulation stops at the end of the
    content and the value accumulated so far is emitted as the last arc of
    the dotted-decimal output, after the arcs of the bytes before it. *)
Theorem dangling_chunk_becomes_last_arc :
  forall first body chunk,
    endsChunk body = true ->
    chunk <> [] ->
    forallb continues chunk = true ->
    oidArcs (first :: body ++ chunk) =
      oidArcs (first :: body) ++ [accumulated chunk] /\
    parseOID (first :: body ++ chunk) =
      String.concat "." (map fmt_d (oidArcs (first :: body) ++ [accumulated chunk])).
Proof.
  intros first body chunk Hend Hne Hall.
  assert (Harcs : oidArcs (first :: body ++ chunk) =
                  oidArcs (first :: body) ++ [accumulated chunk]).
  { unfold oidArcs.
    rewrite (oidSubidentifiers_dangling (List.length body) body chunk)
      by (try assumption; lia).
    rewrite <- app_assoc. reflexivity. }
  split; [exact Harcs|].
  unfold parseOID. rewrite Harcs. reflexivity.
Qed.

Lemma dangling_chunk_becomes_last_arc_witness :
  oidArcs (x2a :: [x86; x48] ++ [x86; xf7]) =
    oidArcs (x2a :: [x86; x48]) ++ [accumulated [x86; xf7]] /\
  parseOID (x2a :: [x86; x48] ++ [x86; xf7]) =
    String.concat "." (map fmt_d (oidArcs (x2a :: [x86; x48]) ++ [accumulated [x86; xf7]])).
Proof.
  apply (dangling_chunk_becomes_last_arc x2a [x86; x48] [x86; xf7]).
  - reflexivity.
  - discriminate.
  - reflexivity.
Defined.

(** ** The walks and their traces *)

Lemma findFieldsInASN1_from_unfold :
  forall fuel data offset validation,
    findFieldsInASN1_from (S fuel) data offset validation =
    if offset <? len data
    then
      rest <- slice_from data offset ;;
      '(element, bytesRead, err) <- parseASN1Element rest 0 offset ;;
      match err with
      | Some _ => Done validation
      | None =>
          found <- valueAfterOID data offset element bytesRead ;;
          let validation :=
            match found with
            | Some (oid, valueContent) => setValidationField validation oid valueContent
            | None => validation
            end in
          inner <- compoundContent data offset element bytesRead ;;
          validation <-
            match inner with
            | Some content => findFieldsInASN1_from fuel content 0 validation
            | None => Done validation
            end ;;
          findFieldsInASN1_from fuel data (GoInt.add offset bytesRead) validation
      end
    else Done validation.
Proof. reflexivity. Qed.

Lemma findLastOctetString_from_unfold :
  forall fuel data depth offset lastElement keySize,
    findLastOctetString_from (S fuel) data depth offset lastElement keySize =
    if offset <? len data
    then
      rest <- slice_from data offset ;;
      '(element, bytesRead, err) <- parseASN1Element rest depth offset ;;
      match err with
      | Some _ => Done (noteOctetString lastElement keySize)
      | None =>
          inner <- compoundContent data offset element bytesRead ;;
          keySize <-
            match inner with
            | Some content =>
                findLastOctetString_from fuel content (GoInt.add depth 1) 0
                                         zeroElement keySize
            | None => Done keySize
            end ;;
          findLastOctetString_from fuel data depth (GoInt.add offset bytesRead)
                                   element keySize
      end
    else Done (noteOctetString lastElement keySize).
Proof. reflexivity. Qed.

Lemma recordAll_app :
  forall occ1 occ2 validation,
    recordAll (occ1 ++ occ2) validation = recordAll occ2 (recordAll occ1 validation).
Proof. intros. unfold recordAll. apply fold_left_app. Qed.

Lemma recordAll_occurrence :
  forall found validation,
    recordAll (occurrence found) validation =
    match found with
    | Some (oid, valueContent) => setValidationField validation oid valueContent
    | None => validation
    end.
Proof. intros [[oid value]|] validation; reflexivity. Qed.

Lemma findFieldsInASN1_replays_occurrences :
  forall fuel data offset validation,
    findFieldsInASN1_from fuel data offset validation =
    omap (fun occ => recordAll occ validation) (fieldOccurrences_from fuel data offset).
Proof.
  induction fuel as [|fuel IH]; intros data offset validation; [reflexivity|].
  rewrite findFieldsInASN1_from_unfold. cbn [fieldOccurrences_from].
  destruct (offset <? len data); [|reflexivity].
  destruct (slice_from data offset) as [rest| |]; try reflexivity.
  cbn [bind omap].
  destruct (parseASN1Element rest 0 offset) as [[[element bytesRead] err]| |];
    try reflexivity.
  cbn [bind]. destruct err; [reflexivity|].
  destruct (valueAfterOID data offset element bytesRead) as [found| |];
    try reflexivity.
  cbn [bind].
  destruct (compoundContent data offset element bytesRead) as [inner| |];
    try reflexivity.
  cbn [bind]. rewrite <- recordAll_occurrence.
  destruct inner as [content|].
  - rewrite IH.
    destruct (fieldOccurrences_from fuel content 0) as [below| |]; try reflexivity.
    cbn [bind omap]. rewrite IH.
    destruct (fieldOccurrences_from fuel data (GoInt.add offset bytesRead))
      as [later| |]; try reflexivity.
    cbn [bind omap]. now rewrite !recordAll_app.
  - cbn [bind]. rewrite IH.
    destruct (fieldOccurrences_from fuel data (GoInt.add offset bytesRead))
      as [later| |]; try reflexivity.
    cbn [bind omap app]. now rewrite !recordAll_app.
Qed.

Lemma fieldOf_set_same :
  forall oid value validation,
    recognized oid ->
    fieldOf oid (setValidationField validation oid value) = (true, value).
Proof.
  intros oid value validation H. destruct validation.
  destruct H as [-> | [-> | [-> | [-> | ->]]]]; reflexivity.
Qed.

Lemma fieldOf_set_other :
  forall oid other value validation,
    recognized oid ->
    String.eqb other oid = false ->
    fieldOf oid (setValidationField validation other value) = fieldOf oid validation.
Proof.
  intros oid other value validation H Hne. destruct validation.
  unfold setValidationField.
  destruct (String.eqb_spec other OIDCommonName) as [->|_];
    [|destruct (String.eqb_spec other OIDCountryName) as [->|_];
      [|destruct (String.eqb_spec other OIDLocalityName) as [->|_];
        [|destruct (String.eqb_spec other OIDOrganizationName) as [->|_];
          [|destruct (String.eqb_spec other OIDEmailAddress) as [->|_]]]]];
    try reflexivity;
    destruct H as [-> | [-> | [-> | [-> | ->]]]];
    solve [reflexivity | vm_compute in Hne; discriminate].
Qed.

Lemma recordAll_keeps_field :
  forall occ oid validation,
    recognized oid ->
    lastValueOf oid occ = None ->
    fieldOf oid (recordAll occ validation) = fieldOf oid validation.
Proof.
  induction occ as [|[o value] rest IH]; intros oid validation Hrec Hnone;
    [reflexivity|].
  cbn [lastValueOf] in Hnone.
  destruct (lastValueOf oid rest) eqn:Hrest; [discriminate|].
  destruct (String.eqb o oid) eqn:Ho; [discriminate|].
  change (recordAll ((o, value) :: rest) validation)
    with (recordAll rest (setValidationField validation o value)).
  rewrite IH by assumption.
  now apply fieldOf_set_other.
Qed.

Lemma recordAll_last_value :
  forall occ oid value validation,
    recognized oid ->
    lastValueOf oid occ = Some value ->
    fieldOf oid (recordAll occ validation) = (true, value).
Proof.
  induction occ as [|[o v] rest IH]; intros oid value validation Hrec Hlast;
    [discriminate|].
  change (recordAll ((o, v) :: rest) validation)
    with (recordAll rest (setValidationField validation o v)).
  cbn [lastValueOf] in Hlast.
  destruct (lastValueOf oid rest) as [later|] eqn:Hrest.
  - inversion Hlast; subst later. now apply IH.
  - destruct (String.eqb_spec o oid) as [->|_]; [|discriminate].
    inversion Hlast; subst v.
    rewrite recordAll_keeps_field by assumption.
    now apply fieldOf_set_same.
Qed.

(** ** Repeated attributes

    [findFieldsInASN1] calls [setValidationField] once for every element
    with tag number 6 that is followed, in its region, by a primitive
    non-empty element, in the order of the depth-first walk
    ([fieldOccurrences]), and each call overwrites the attribute it names.
    So whenever the walk returns, its result is the replay of these
    occurrences, and each of the five recognized OIDs holds the value that
    follows its last occurrence in the walk. *)
Lemma returned_walk_records_last_occurrence :
  forall fuel data validation occ oid value,
    fieldOccurrences fuel data = Done occ ->
    recognized oid ->
    lastValueOf oid occ = Some value ->
    findFieldsInASN1 fuel data validation = Done (recordAll occ validation) /\
    fieldOf oid (recordAll occ validation) = (true, value).
Proof.
  intros fuel data validation occ oid value Hocc Hrec Hlast. split.
  - unfold findFieldsInASN1. rewrite findFieldsInASN1_replays_occurrences.
    unfold fieldOccurrences in Hocc. rewrite Hocc. reflexivity.
  - now apply recordAll_last_value.
Qed.

Example twoCommonNames_records_the_second :
  omap (fieldOf OIDCommonName) (findFieldsInASN1 30 twoCommonNames zeroValidation) =
  Done (true, "B"%string).
Proof. vm_compute. reflexivity. Qed.

(** ** The key size (C4) *)

Lemma lastOctetRegion_app :
  forall t1 t2,
    lastOctetRegion (t1 ++ t2) =
    match lastOctetRegion t2 with
    | Some e => Some e
    | None => lastOctetRegion t1
    end.
Proof.
  induction t1 as [|ev t1 IH]; intro t2; cbn [app lastOctetRegion].
  - destruct (lastOctetRegion t2); reflexivity.
  - rewrite IH. destruct (lastOctetRegion t2); reflexivity.
Qed.

Lemma keySizeAfter_app :
  forall t1 t2 keySize,
    keySizeAfter (t1 ++ t2) keySize = keySizeAfter t2 (keySizeAfter t1 keySize).
Proof.
  intros. unfold keySizeAfter. rewrite lastOctetRegion_app.
  destruct (lastOctetRegion t2); reflexivity.
Qed.

Lemma keySizeAfter_visited :
  forall e trace keySize,
    keySizeAfter (Visited e :: trace) keySize = keySizeAfter trace keySize.
Proof.
  intros. unfold keySizeAfter. cbn [lastOctetRegion].
  destruct (lastOctetRegion trace); reflexivity.
Qed.

Lemma keySizeAfter_regionEnd :
  forall e keySize,
    keySizeAfter [RegionEnd e] keySize = noteOctetString e keySize.
Proof.
  intros. unfold keySizeAfter, noteOctetString. cbn [lastOctetRegion].
  destruct (Tag e =? TagOctetString); reflexivity.
Qed.

Lemma findLastOctetString_follows_trace :
  forall fuel data depth offset lastElement keySize,
    findLastOctetString_from fuel data depth offset lastElement keySize =
    omap (fun trace => keySizeAfter trace keySize)
         (walkTrace_from fuel data depth offset lastElement).
Proof.
  induction fuel as [|fuel IH]; intros data depth offset lastElement keySize;
    [reflexivity|].
  rewrite findLastOctetString_from_unfold. cbn [walkTrace_from].
  destruct (offset <? len data);
    [|cbn [omap bind]; now rewrite keySizeAfter_regionEnd].
  destruct (slice_from data offset) as [rest| |]; try reflexivity.
  cbn [bind omap].
  destruct (parseASN1Element rest depth offset) as [[[element bytesRead] err]| |];
    try reflexivity.
  cbn [bind].
  destruct err; [cbn [omap bind]; now rewrite keySizeAfter_regionEnd|].
  destruct (compoundContent data offset element bytesRead) as [inner| |];
    try reflexivity.
  cbn [bind].
  destruct inner as [content|].
  - rewrite IH.
    destruct (walkTrace_from fuel content (GoInt.add depth 1) 0 zeroElement)
      as [below| |]; try reflexivity.
    cbn [bind omap]. rewrite IH.
    destruct (walkTrace_from fuel data depth (GoInt.add offset bytesRead) element)
      as [later| |]; try reflexivity.
    cbn [bind omap]. now rewrite keySizeAfter_visited, keySizeAfter_app.
  - cbn [bind]. rewrite IH.
    destruct (walkTrace_from fuel data depth (GoInt.add offset bytesRead) element)
      as [later| |]; try reflexivity.
    cbn [bind omap app]. now rewrite keySizeAfter_visited.
Qed.



(** ** Many siblings (C8) *)

Lemma slice_from_app_plus : forall pre rest lo,
    0 <= lo ->
    slice_from (pre ++ rest) (len pre + lo) = slice_from rest lo.
Proof.
  intros pre rest lo Hlo. unfold slice_from.
  rewrite len_app. pose proof (len_nonneg pre).
  replace (0 <=? len pre + lo) with (0 <=? lo)
    by (destruct (Z.leb_spec 0 lo), (Z.leb_spec 0 (len pre + lo)); lia).
  replace (len pre + lo <=? len pre + len rest) with (lo <=? len rest)
    by (destruct (Z.leb_spec lo (len rest)),
                 (Z.leb_spec (len pre + lo) (len pre + len rest)); lia).
  replace (Z.to_nat (len pre + lo)) with (List.length pre + Z.to_nat lo)%nat
    by (unfold len; lia).
  rewrite skipn_app.
  replace (List.length pre + Z.to_nat lo - List.length pre)%nat with (Z.to_nat lo) by lia.
  rewrite (skipn_all2 pre) by lia.
  reflexivity.
Qed.

Lemma len_nulls : forall n, len (nulls n) = 2 * Z.of_nat n.
Proof.
  induction n as [|n IH]; [reflexivity|].
  cbn [nulls]. rewrite !len_cons, IH. lia.
Qed.

Lemma nulls_shift : forall k rest,
    nulls k ++ x05 :: x00 :: rest = nulls (S k) ++ rest.
Proof.
  induction k as [|k IH]; intro rest; [reflexivity|].
  cbn [nulls app] in *. now rewrite IH.
Qed.

Lemma findFieldsInASN1_skips_nulls :
  forall m k fuel tail validation,
    2 * Z.of_nat (k + m) + len tail < 2 ^ 62 ->
    findFieldsInASN1_from (m + fuel) (nulls k ++ nulls m ++ tail)
                          (2 * Z.of_nat k) validation =
    findFieldsInASN1_from fuel (nulls k ++ nulls m ++ tail)
                          (2 * Z.of_nat (k + m)) validation.
Proof.
  induction m as [|m IH]; intros k fuel tail validation Hbig.
  - now rewrite Nat.add_0_r.
  - change (S m + fuel)%nat with (S (m + fuel)).
    rewrite findFieldsInASN1_from_unfold.
    pose proof (len_nonneg tail) as Htail.
    assert (Hlen : len (nulls k ++ nulls (S m) ++ tail) =
                   2 * Z.of_nat k + 2 * Z.of_nat (S m) + len tail)
      by (rewrite !len_app, !len_nulls; lia).
    rewrite Hlen.
    destruct (Z.ltb_spec (2 * Z.of_nat k)
                         (2 * Z.of_nat k + 2 * Z.of_nat (S m) + len tail))
      as [_|?]; [|lia].
    rewrite <- (len_nulls k) at 1. rewrite slice_from_app.
    cbn [bind nulls app].
    rewrite parseASN1Element_short_form;
      [|reflexivity|change (b2z x00) with 0; apply len_nonneg|
       rewrite len_app, len_nulls; lia].
    cbn [bind].
    change (valueAfterOID ?d ?o (elementOf x05 0 ?o' 2 (b2z x00)) (2 + b2z x00))
      with (@Done (option (string * string)) None).
    cbn [bind].
    change (compoundContent ?d ?o (elementOf x05 0 ?o' 2 (b2z x00)) (2 + b2z x00))
      with (@Done (option (list byte)) None).
    cbn [bind].
    change (2 + b2z x00) with 2.
    rewrite add_small by (unfold GoInt.in_range; lia).
    rewrite nulls_shift.
    replace (2 * Z.of_nat k + 2) with (2 * Z.of_nat (S k)) by lia.
    rewrite IH by lia.
    now replace (S k + m)%nat with (k + S m)%nat by lia.
Qed.

Lemma findFieldsInASN1_commonNameA_at_end :
  forall pre fuel validation,
    len pre < 2 ^ 61 ->
    findFieldsInASN1_from (S (S (S fuel))) (pre ++ commonNameA) (len pre) validation =
    Done (setValidationField validation OIDCommonName "A"%string).
Proof.
  intros pre fuel validation Hbig.
  pose proof (len_nonneg pre) as Hpre.
  assert (Hlen : len (pre ++ commonNameA) = len pre + 8)
    by (rewrite len_app; reflexivity).
  assert (Hfound :
            valueAfterOID (pre ++ commonNameA) (len pre)
                          (mkElement 0 (len pre) 2 3 6 0 false) 5 =
            Done (Some (OIDCommonName, "A"%string))).
  { unfold valueAfterOID.
    cbn [Tag Length HeaderLen IsCompound andb Z.eqb Z.gtb Z.compare TagObjectID].
    rewrite !add_small by (unfold GoInt.in_range; lia).
    replace (len pre + 2 + 3) with (len pre + 5) by lia.
    rewrite slice_app by lia.
    change (slice commonNameA 2 5) with (Done [x55; x04; x03]).
    cbn [bind]. rewrite Hlen.
    destruct (Z.ltb_spec (len pre + 5) (len pre + 8)) as [_|?]; [|lia].
    rewrite slice_from_app_plus by lia.
    change (slice_from commonNameA 5) with (Done [x0c; x01; x41]).
    cbn [bind].
    change (parseASN1Element [x0c; x01; x41] 0 (len pre + 5))
      with (Done (mkElement 0 (len pre + 5) 2 1 12 0 false, 3, @None error)).
    cbn [bind IsCompound Length HeaderLen negb andb Z.gtb Z.compare].
    rewrite !add_small by (unfold GoInt.in_range; lia).
    replace (len pre + 5 + 2) with (len pre + 7) by lia.
    replace (len pre + 7 + 1) with (len pre + 8) by lia.
    rewrite slice_app by lia.
    reflexivity. }
  rewrite findFieldsInASN1_from_unfold, Hlen.
  destruct (Z.ltb_spec (len pre) (len pre + 8)) as [_|?]; [|lia].
  rewrite slice_from_app. cbn [bind].
  change (parseASN1Element commonNameA 0 (len pre))
    with (Done (mkElement 0 (len pre) 2 3 6 0 false, 5, @None error)).
  cbn [bind]. rewrite Hfound. cbn [bind].
  change (compoundContent ?d ?o (mkElement 0 ?o' 2 3 6 0 false) 5)
    with (@Done (option (list byte)) None).
  cbn [bind].
  rewrite add_small by (unfold GoInt.in_range; lia).
  rewrite findFieldsInASN1_from_unfold, Hlen.
  destruct (Z.ltb_spec (len pre + 5) (len pre + 8)) as [_|?]; [|lia].
  rewrite slice_from_app_plus by lia.
  change (slice_from commonNameA 5) with (Done [x0c; x01; x41]).
  cbn [bind].
  change (parseASN1Element [x0c; x01; x41] 0 (len pre + 5))
    with (Done (mkElement 0 (len pre + 5) 2 1 12 0 false, 3, @None error)).
  cbn [bind].
  change (valueAfterOID ?d ?o (mkElement 0 ?o' 2 1 12 0 false) 3)
    with (@Done (option (string * string)) None).
  cbn [bind].
  change (compoundContent ?d ?o (mkElement 0 ?o' 2 1 12 0 false) 3)
    with (@Done (option (list byte)) None).
  cbn [bind].
  rewrite add_small by (unfold GoInt.in_range; lia).
  rewrite findFieldsInASN1_from_unfold, Hlen.
  destruct (Z.ltb_spec (len pre + 5 + 3) (len pre + 8)) as [?|_]; [lia|].
  reflexivity.
Qed.

(** C8, refuted on the code.  The specification and TESTING.md describe a
    limit of [MaxElementsPerLevel = 10000] elements per region.  The loop of
    [findFieldsInASN1] counts nothing: in a region of 10001 NULL elements
    followed by a common name, it decodes all 10003 elements and records the
    common name found after the 10001st sibling. *)
Theorem sibling_count_not_limited :
  findFieldsInASN1 (manySiblings + 3) (nulls manySiblings ++ commonNameA)
                   zeroValidation =
    Done (setValidationField zeroValidation OIDCommonName "A"%string) /\
  Z.of_nat manySiblings = MaxElementsPerLevel + 1.
Proof.
  assert (Hn : Z.of_nat manySiblings = 10001)
    by (unfold manySiblings; rewrite Z2Nat.id; [reflexivity|discriminate]).
  split; [|exact Hn].
  unfold findFieldsInASN1.
  pose proof (findFieldsInASN1_skips_nulls manySiblings 0 3 commonNameA zeroValidation)
    as Hskip.
  cbn [nulls app Nat.add] in Hskip.
  change (2 * Z.of_nat 0) with 0 in Hskip.
  rewrite Hskip by (rewrite Hn; reflexivity).
  rewrite <- len_nulls.
  apply findFieldsInASN1_commonNameA_at_end.
  rewrite len_nulls, Hn. reflexivity.
Qed.

(** ** The backward search *)

Lemma unmarshalSequence2_readsPrefix : readsPrefix unmarshalSequence2.
Proof.
  intros buffer raw rest trailing.
  destruct buffer as [|t [|l [|hi [|lo content]]]]; try discriminate.
  cbn [unmarshalSequence2 app].
  destruct (_ && _); [|discriminate].
  cbv zeta.
  destruct (Z.leb_spec (b2z hi * 256 + b2z lo) (len content)) as [Hfit|]; [|discriminate].
  intro H. inversion H; subst; clear H.
  rewrite len_app. pose proof (len_nonneg trailing).
  destruct (Z.leb_spec (b2z hi * 256 + b2z lo) (len content + len trailing))
    as [_|?]; [|lia].
  pose proof (b2z_range hi). pose proof (b2z_range lo).
  assert (Hn : (Z.to_nat (b2z hi * 256 + b2z lo) <= List.length content)%nat)
    by (unfold len in Hfit; lia).
  rewrite firstn_app, skipn_app.
  replace (Z.to_nat (b2z hi * 256 + b2z lo) - List.length content)%nat with 0%nat by lia.
  cbn [firstn skipn]. rewrite app_nil_r. reflexivity.
Qed.

Section LocatorFacts.

Variable Unmarshal : list byte -> option (asn1.RawValue * list byte).

Lemma scan_skips_rejected :
  forall fuel data n i,
    (i <= n)%nat ->
    (forall j, (i <= j < n)%nat ->
               tryCandidate Unmarshal fuel data (Z.of_nat j) = Done None) ->
    FindValidSignature_scan Unmarshal fuel data n =
    FindValidSignature_scan Unmarshal fuel data i.
Proof.
  induction n as [|n IH]; intros i Hi Hrej.
  - now replace i with 0%nat by lia.
  - destruct (Nat.eq_dec i (S n)) as [->|Hne]; [reflexivity|].
    cbn [FindValidSignature_scan].
    rewrite Hrej by lia. cbn [bind].
    apply IH; [lia|]. intros j Hj. apply Hrej. lia.
Qed.

Lemma index_nth : forall data i b,
    nth_error data i = Some b ->
    index data (Z.of_nat i) = Done (b2z b).
Proof.
  intros data i b Hnth. unfold index.
  assert (i < List.length data)%nat by (apply nth_error_Some; congruence).
  destruct (Z.leb_spec 0 (Z.of_nat i)) as [_|?]; [|lia].
  destruct (Z.ltb_spec (Z.of_nat i) (len data)) as [_|?]; [|unfold len in *; lia].
  cbn [andb]. now rewrite Nat2Z.id, Hnth.
Qed.

Lemma tryCandidate_without_marker :
  forall fuel data j,
    (S j < List.length data)%nat ->
    len data < 2 ^ 62 ->
    markerAt data j = false ->
    tryCandidate Unmarshal fuel data (Z.of_nat j) = Done None.
Proof.
  intros fuel data j Hj Hbig Hno. unfold markerAt in Hno.
  destruct (nth_error data j) as [b0|] eqn:H0;
    [|apply nth_error_None in H0; lia].
  destruct (nth_error data (S j)) as [b1|] eqn:H1;
    [|apply nth_error_None in H1; lia].
  unfold tryCandidate.
  rewrite (index_nth _ _ _ H0). cbn [bind].
  destruct (b2z b0 =? 48); [|reflexivity].
  rewrite add_small by (unfold GoInt.in_range, len in *; lia).
  replace (Z.of_nat j + 1) with (Z.of_nat (S j)) by lia.
  rewrite (index_nth _ _ _ H1). cbn [bind].
  cbn [andb] in Hno. now rewrite Hno.
Qed.

Lemma FindValidSignature_returns_accepted :
  forall fuel data i raw,
    0 <= i <= len data - 2 ->
    len data < 2 ^ 62 ->
    tryCandidate Unmarshal fuel data i = Done (Some raw) ->
    (forall j, i < j <= len data - 2 ->
               tryCandidate Unmarshal fuel data j = Done None) ->
    FindValidSignature Unmarshal fuel data = Done (Some raw, i, None).
Proof.
  intros fuel data i raw Hi Hbig Hacc Hrej.
  unfold FindValidSignature.
  rewrite sub_small by (unfold GoInt.in_range; lia).
  rewrite (scan_skips_rejected fuel data _ (S (Z.to_nat i))).
  - cbn [FindValidSignature_scan].
    rewrite Z2Nat.id by lia. rewrite Hacc. reflexivity.
  - lia.
  - intros j Hj. apply Hrej. lia.
Qed.

Lemma FindValidSignature_exhausted :
  forall fuel data,
    len data < 2 ^ 62 ->
    (forall j, 0 <= j <= len data - 2 ->
               tryCandidate Unmarshal fuel data j = Done None) ->
    FindValidSignature Unmarshal fuel data = Done (None, 0, Some noSignature).
Proof.
  intros fuel data Hbig Hrej.
  unfold FindValidSignature.
  pose proof (len_nonneg data).
  rewrite sub_small by (unfold GoInt.in_range; lia).
  rewrite (scan_skips_rejected fuel data _ 0); [reflexivity|lia|].
  intros j Hj. apply Hrej. lia.
Qed.

Lemma index_app_plus : forall pre rest k,
    0 <= k ->
    index (pre ++ rest) (len pre + k) = index rest k.
Proof.
  intros pre rest k Hk. unfold index.
  rewrite len_app. pose proof (len_nonneg pre).
  replace (0 <=? len pre + k) with (0 <=? k)
    by (destruct (Z.leb_spec 0 k), (Z.leb_spec 0 (len pre + k)); lia).
  replace (len pre + k <? len pre + len rest) with (k <? len rest)
    by (destruct (Z.ltb_spec k (len rest)),
                 (Z.ltb_spec (len pre + k) (len pre + len rest)); lia).
  replace (Z.to_nat (len pre + k)) with (List.length pre + Z.to_nat k)%nat
    by (unfold len; lia).
  rewrite nth_error_app2 by lia.
  now replace (List.length pre + Z.to_nat k - List.length pre)%nat
    with (Z.to_nat k) by lia.
Qed.

End LocatorFacts.

(** ** Acceptance of a candidate (C3) *)

Lemma findFieldsInASN1_hangContent :
  forall fuel validation,
    findFieldsInASN1_from fuel hangContent 0 validation = OutOfFuel.
Proof.
  induction fuel as [|fuel IH]; intro validation; [reflexivity|].
  change (findFieldsInASN1_from (S fuel) hangContent 0 validation)
    with (findFieldsInASN1_from fuel hangContent 0 validation).
  apply IH.
Qed.

Lemma validateSignatureFields_hangBuffer :
  forall fuel, validateSignatureFields fuel hangBuffer = OutOfFuel.
Proof.
  intros [|fuel]; [reflexivity|].
  unfold validateSignatureFields, findFieldsInASN1.
  change (findFieldsInASN1_from (S fuel) hangBuffer 0 zeroValidation)
    with (validation <- findFieldsInASN1_from fuel hangContent 0 zeroValidation ;;
          findFieldsInASN1_from fuel hangBuffer 260 validation).
  now rewrite findFieldsInASN1_hangContent.
Qed.

(** C3, refuted on the code.  The acceptance test and the order of the
    search are as the specification says, but the call does not always end
    in an accepted candidate or in the error: [hangBuffer] has one marker,
    at offset 0, and a decoder that takes the whole buffer as one
    structure (as [encoding/asn1] does: SEQUENCE, length 256); the field
    extraction on that structure then meets [zeroAdvance] and never
    returns, so [FindValidSignature] neither accepts a candidate nor
    reports that no valid signature was found. *)
Theorem search_can_fail_to_return :
  forall Unmarshal raw rest,
    Unmarshal hangBuffer = Some (raw, rest) ->
    asn1.FullBytes raw = hangBuffer ->
    (forall fuel, validateSignatureFields fuel (asn1.FullBytes raw) = OutOfFuel) /\
    (forall fuel, FindValidSignature Unmarshal fuel hangBuffer = OutOfFuel).
Proof.
  intros Unmarshal raw rest HU Hfull.
  split; intro fuel; [rewrite Hfull; apply validateSignatureFields_hangBuffer|].
  unfold FindValidSignature.
  change (Z.to_nat (GoInt.sub (len hangBuffer) 2 + 1)) with 259%nat.
  rewrite (scan_skips_rejected Unmarshal fuel hangBuffer 259 1).
  - cbn [FindValidSignature_scan]. unfold tryCandidate.
    change (index hangBuffer (Z.of_nat 0)) with (Done 0x30).
    cbn [bind Z.eqb Pos.eqb].
    change (index hangBuffer (GoInt.add (Z.of_nat 0) 1)) with (Done 0x82).
    cbn [bind Z.eqb Pos.eqb].
    change (slice_from hangBuffer (Z.of_nat 0)) with (Done hangBuffer).
    cbn [bind]. rewrite HU, Hfull, validateSignatureFields_hangBuffer.
    reflexivity.
  - lia.
  - intros j Hj. apply tryCandidate_without_marker.
    + change (List.length hangBuffer) with 260%nat. lia.
    + reflexivity.
    + assert (Hall : forallb (fun j => negb (markerAt hangBuffer j)) (seq 1 258) = true)
        by (vm_compute; reflexivity).
      rewrite forallb_forall in Hall.
      apply negb_true_iff, Hall, in_seq. lia.
Qed.

Lemma search_can_fail_to_return_witness :
  (forall fuel,
      validateSignatureFields fuel
        (asn1.FullBytes (asn1.mkRawValue 0 16 true hangContent hangBuffer)) = OutOfFuel) /\
  (forall fuel, FindValidSignature unmarshalSequence2 fuel hangBuffer = OutOfFuel).
Proof.
  apply (search_can_fail_to_return unmarshalSequence2
           (asn1.mkRawValue 0 16 true hangContent hangBuffer) []);
    reflexivity.
Defined.

(** ** Bytes after the structure (C10) *)

(** C10, the claim as stated fails: [completeSignature] alone is accepted
    at offset 0; with a second copy appended the loop body still accepts at
    offset 0, but the search runs backward and returns the appended copy, at
    offset 260. *)
Lemma appended_candidate_is_returned :
  FindValidSignature unmarshalSequence2 20 completeSignature =
    Done (Some (asn1.mkRawValue 0 16 true (skipn 4 completeSignature) completeSignature),
          0, None) /\
  tryCandidate unmarshalSequence2 20 (completeSignature ++ completeSignature) 0 =
    Done (Some (asn1.mkRawValue 0 16 true (skipn 4 completeSignature) completeSignature)) /\
  FindValidSignature unmarshalSequence2 20 (completeSignature ++ completeSignature) =
    Done (Some (asn1.mkRawValue 0 16 true (skipn 4 completeSignature) completeSignature),
          260, None).
Proof. repeat split; vm_compute; reflexivity. Qed.

(** Appended bytes are candidates like any others: with [hangBuffer]
    appended, the search reaches the appended marker first and the field
    walk on it never returns. *)
Lemma appended_hang_is_reached :
  tryCandidate unmarshalSequence2 20 (completeSignature ++ hangBuffer) 0 =
    Done (Some (asn1.mkRawValue 0 16 true (skipn 4 completeSignature) completeSignature)) /\
  forall fuel,
    FindValidSignature unmarshalSequence2 fuel (completeSignature ++ hangBuffer) = OutOfFuel.
Proof.
  split; [vm_compute; reflexivity|].
  intro fuel. unfold FindValidSignature.
  change (Z.to_nat (GoInt.sub (len (completeSignature ++ hangBuffer)) 2 + 1)) with 519%nat.
  rewrite (scan_skips_rejected unmarshalSequence2 fuel _ 519 261).
  - cbn [FindValidSignature_scan]. unfold tryCandidate.
    change (index (completeSignature ++ hangBuffer) (Z.of_nat 260)) with (Done 0x30).
    cbn [bind Z.eqb Pos.eqb].
    change (index (completeSignature ++ hangBuffer) (GoInt.add (Z.of_nat 260) 1))
      with (Done 0x82).
    cbn [bind Z.eqb Pos.eqb].
    change (slice_from (completeSignature ++ hangBuffer) (Z.of_nat 260))
      with (Done hangBuffer).
    cbn [bind].
    change (unmarshalSequence2 hangBuffer)
      with (Some (asn1.mkRawValue 0 16 true hangContent hangBuffer, @nil byte)).
    cbn [asn1.FullBytes].
    rewrite validateSignatureFields_hangBuffer. reflexivity.
  - lia.
  - intros j Hj. apply tryCandidate_without_marker.
    + change (List.length (completeSignature ++ hangBuffer)) with 520%nat. lia.
    + reflexivity.
    + assert (Hall : forallb (fun j => negb (markerAt (completeSignature ++ hangBuffer) j))
                             (seq 261 258) = true)
        by (vm_compute; reflexivity).
      rewrite forallb_forall in Hall.
      apply negb_true_iff, Hall, in_seq. lia.
Qed.

(** C10, amended.  [FindValidSignature] drops the bytes that
    [asn1.Unmarshal] leaves over and never looks at them.  If a structure
    that starts with the marker decodes ([Unmarshal] returns [raw], with or
    without bytes left over) and its field extraction returns all five
    attributes, then in every buffer that holds this structure at an offset
    [i], followed by any bytes whatever, the loop body accepts the candidate
    [i]; and the call returns [raw] and [i] provided the candidates to the
    right of [i], those in the appended bytes included, are rejected. *)
Theorem trailing_bytes_are_not_checked :
  forall Unmarshal fuel pre body trailing raw rest validation,
    readsPrefix Unmarshal ->
    Unmarshal (x30 :: x82 :: body) = Some (raw, rest) ->
    validateSignatureFields fuel (asn1.FullBytes raw) = Done validation ->
    IsValid validation = true ->
    len (pre ++ (x30 :: x82 :: body) ++ trailing) < 2 ^ 62 ->
    tryCandidate Unmarshal fuel (pre ++ (x30 :: x82 :: body) ++ trailing) (len pre) =
      Done (Some raw) /\
    ((forall j, len pre < j <= len (pre ++ (x30 :: x82 :: body) ++ trailing) - 2 ->
                tryCandidate Unmarshal fuel
                             (pre ++ (x30 :: x82 :: body) ++ trailing) j = Done None) ->
     FindValidSignature Unmarshal fuel (pre ++ (x30 :: x82 :: body) ++ trailing) =
       Done (Some raw, len pre, None)).
Proof.
  intros Unmarshal fuel pre body trailing raw rest validation
         Hprefix HU Hval Hvalid Hbig.
  set (data := pre ++ (x30 :: x82 :: body) ++ trailing) in *.
  pose proof (len_nonneg pre) as Hpre.
  assert (Hlen : len data = len pre + (2 + len (body ++ trailing))).
  { unfold data. cbn [app]. rewrite len_app, !len_cons. lia. }
  pose proof (len_nonneg (body ++ trailing)) as Hrest.
  assert (Hacc : tryCandidate Unmarshal fuel data (len pre) = Done (Some raw)).
  { unfold tryCandidate.
    replace (len pre) with (len pre + 0) at 1 by lia.
    unfold data at 1. rewrite index_app_plus by lia.
    change (index ((x30 :: x82 :: body) ++ trailing) 0) with (Done 0x30).
    cbn [bind Z.eqb Pos.eqb].
    rewrite add_small by (unfold GoInt.in_range; lia).
    unfold data at 1. rewrite index_app_plus by lia.
    unfold index. cbn [app]. rewrite !len_cons.
    destruct (Z.ltb_spec 1 (1 + (1 + len (body ++ trailing)))) as [_|?]; [|lia].
    cbn [Z.leb Z.compare andb Z.to_nat Pos.to_nat Pos.iter_op Nat.add nth_error bind].
    change (b2z x82 =? 130) with true. cbv iota.
    unfold data. rewrite slice_from_app. cbn [bind].
    rewrite (Hprefix _ _ _ trailing HU).
    rewrite Hval. cbn [bind]. now rewrite Hvalid. }
  split; [exact Hacc|].
  intro Hrej.
  apply FindValidSignature_returns_accepted; try assumption. lia.
Qed.

Lemma trailing_bytes_are_not_checked_witness :
  tryCandidate unmarshalSequence2 20
               ([x4d; x5a] ++ completeSignature ++ [xde; xad; xbe; xef])
               (len [x4d; x5a]) =
    Done (Some (asn1.mkRawValue 0 16 true (skipn 4 completeSignature) completeSignature)) /\
  ((forall j, len [x4d; x5a] < j <=
              len ([x4d; x5a] ++ completeSignature ++ [xde; xad; xbe; xef]) - 2 ->
              tryCandidate unmarshalSequence2 20
                ([x4d; x5a] ++ completeSignature ++ [xde; xad; xbe; xef]) j = Done None) ->
   FindValidSignature unmarshalSequence2 20
                      ([x4d; x5a] ++ completeSignature ++ [xde; xad; xbe; xef]) =
     Done (Some (asn1.mkRawValue 0 16 true (skipn 4 completeSignature) completeSignature),
           len [x4d; x5a], None)).
Proof.
  apply (trailing_bytes_are_not_checked unmarshalSequence2 20 [x4d; x5a]
           (skipn 2 completeSignature) [xde; xad; xbe; xef]
           (asn1.mkRawValue 0 16 true (skipn 4 completeSignature) completeSignature)
           []
           (mkValidation true true true true true "A" "B" "C" "D" "E")).
  - exact unmarshalSequence2_readsPrefix.
  - vm_compute. reflexivity.
  - vm_compute. reflexivity.
  - reflexivity.
  - vm_compute. reflexivity.
Defined.

(** The same run, end to end. *)
Example trailing_bytes_run :
  FindValidSignature unmarshalSequence2 20
                     ([x4d; x5a] ++ completeSignature ++ [xde; xad; xbe; xef]) =
    Done (Some (asn1.mkRawValue 0 16 true (skipn 4 completeSignature) completeSignature),
          2, None) /\
  FindValidSignature unmarshalSequence2 20 ([x4d; x5a] ++ completeSignature) =
    Done (Some (asn1.mkRawValue 0 16 true (skipn 4 completeSignature) completeSignature),
          2, None).
Proof. split; vm_compute; reflexivity. Qed.

(** * Further properties of the decoding core *)

Lemma lor_shift_byte : forall v b,
    0 <= v -> 0 <= b < 256 -> Z.lor (Z.shiftl v 8) b = v * 256 + b.
Proof.
  intros v b Hv Hb.
  rewrite Z.shiftl_mul_pow2 by lia.
  assert (Hland : Z.land (v * 2 ^ 8) b = 0).
  { apply Z.bits_inj'. intros n Hn. rewrite Z.land_spec, Z.bits_0.
    destruct (Z.ltb_spec n 8).
    - rewrite Z.mul_pow2_bits_low by lia. reflexivity.
    - destruct (Z.eq_dec b 0) as [->|].
      + rewrite Z.bits_0. apply andb_false_r.
      + rewrite (Z.bits_above_log2 b n); [apply andb_false_r|lia|].
        apply Z.lt_le_trans with 8; [apply Z.log2_lt_pow2; lia|lia]. }
  rewrite <- Z.lxor_lor, <- Z.add_nocarry_lxor by exact Hland.
  reflexivity.
Qed.

Lemma index_ok : forall data i,
    0 <= i < len data ->
    exists b, nth_error data (Z.to_nat i) = Some b /\ index data i = Done (b2z b).
Proof.
  intros data i Hi. unfold index.
  destruct (Z.leb_spec 0 i); [|lia].
  destruct (Z.ltb_spec i (len data)); [|lia].
  cbn [andb].
  destruct (nth_error data (Z.to_nat i)) as [b|] eqn:Hn.
  - now exists b.
  - apply nth_error_None in Hn. unfold len in *. lia.
Qed.

Lemma firstn_S_skipn : forall (data : list byte) i b,
    nth_error data i = Some b ->
    forall n, firstn (S n) (skipn i data) = b :: firstn n (skipn (S i) data).
Proof.
  induction data as [|x data IH]; intros i b Hn n.
  - destruct i; discriminate.
  - destruct i as [|i].
    + cbn in Hn. inversion Hn. reflexivity.
    + cbn [skipn]. cbn [nth_error] in Hn. now apply IH.
Qed.

Lemma readLength_value :
  forall n data v br m,
    0 <= v < 2 ^ (8 * Z.of_nat m) ->
    (m + n <= 7)%nat ->
    0 <= br ->
    br + Z.of_nat n <= len data ->
    len data < 2 ^ 62 ->
    readLength n data v br =
      Done (bigEndian (firstn n (skipn (Z.to_nat br) data)) v, br + Z.of_nat n) /\
    0 <= bigEndian (firstn n (skipn (Z.to_nat br) data)) v < 2 ^ (8 * Z.of_nat (m + n)).
Proof.
  induction n as [|n IH]; intros data v br m Hv Hm Hbr Hfit Hbig.
  - cbn [readLength firstn bigEndian fold_left]. rewrite Nat.add_0_r, Z.add_0_r. auto.
  - cbn [readLength].
    destruct (index_ok data br) as [b [Hnth Hidx]]; [lia|].
    rewrite Hidx. cbn [bind].
    pose proof (b2z_range b) as Hb.
    assert (Hpow : 2 ^ (8 * Z.of_nat m) <= 2 ^ 48)
      by (apply Z.pow_le_mono_r; lia).
    assert (Hshl : GoInt.shl v 8 = Z.shiftl v 8).
    { unfold GoInt.shl. apply wrap_small. unfold GoInt.in_range.
      rewrite Z.shiftl_mul_pow2 by lia. change (2 ^ 8) with 256.
      change (2 ^ 48) with 281474976710656 in Hpow.
      change (2 ^ 63) with 9223372036854775808. lia. }
    rewrite Hshl, lor_shift_byte by lia.
    rewrite add_small by (unfold GoInt.in_range; lia).
    rewrite (firstn_S_skipn _ _ _ Hnth).
    assert (Hv' : 0 <= v * 256 + b2z b < 2 ^ (8 * Z.of_nat (S m))).
    { replace (8 * Z.of_nat (S m)) with (8 * Z.of_nat m + 8) by lia.
      rewrite Z.pow_add_r by lia. change (2 ^ 8) with 256. nia. }
    destruct (IH data (v * 256 + b2z b) (br + 1) (S m) Hv') as [Heq Hrange];
      try lia.
    replace (Z.to_nat (br + 1)) with (S (Z.to_nat br)) in * by lia.
    rewrite Heq. cbn [bigEndian fold_left]. unfold bigEndian in Hrange.
    replace (S m + n)%nat with (m + S n)%nat in Hrange by lia.
    split; [f_equal; f_equal; lia|exact Hrange].
Qed.

Lemma land_0x7F_mod : forall z, 0 <= z -> Z.land z 0x7F = z mod 128.
Proof.
  intros z Hz. change 0x7F with (Z.ones 7). now rewrite Z.land_ones by lia.
Qed.

Lemma land_high_bit_large : forall z, 128 <= z < 256 -> Z.land z 0x80 <> 0.
Proof.
  intros z Hz Heq.
  assert (Hbit : Z.testbit (Z.land z 0x80) 7 = true).
  { rewrite Z.land_spec. change 0x80 with (2 ^ 7).
    rewrite Z.pow2_bits_true by lia. rewrite andb_true_r.
    apply Z.testbit_true; [lia|]. change (2 ^ 7) with 128.
    replace (z / 128) with 1; [reflexivity|].
    apply Z.div_unique with (z - 128); lia. }
  rewrite Heq, Z.bits_0 in Hbit. discriminate.
Qed.

Lemma high_bit_test : forall z, 0 <= z < 256 -> (Z.land z 0x80 =? 0) = (z <? 128).
Proof.
  intros z Hz. destruct (Z.ltb_spec z 128).
  - rewrite land_high_bit_small by lia. reflexivity.
  - apply Z.eqb_neq. apply land_high_bit_large. lia.
Qed.

Lemma finishElement_fits :
  forall data e,
    0 <= Length e -> 0 <= HeaderLen e ->
    HeaderLen e + Length e <= len data ->
    len data < 2 ^ 62 ->
    finishElement data e = Done (e, HeaderLen e + Length e, None).
Proof.
  intros data e HL HH Hfit Hbig. unfold finishElement.
  rewrite add_small by (unfold GoInt.in_range; lia).
  destruct (Z.gtb_spec (HeaderLen e + Length e) (len data)); [lia|].
  destruct (negb (IsCompound e) && (Length e >? 0) &&
            (len data >=? HeaderLen e + Length e)).
  - unfold slice.
    destruct (Z.leb_spec 0 (HeaderLen e)); [|lia].
    destruct (Z.leb_spec (HeaderLen e) (HeaderLen e + Length e)); [|lia].
    destruct (Z.leb_spec (HeaderLen e + Length e) (len data)); [|lia].
    reflexivity.
  - reflexivity.
Qed.

Lemma finishElement_beyond :
  forall data e,
    0 <= Length e < 2 ^ 62 -> 0 <= HeaderLen e < 2 ^ 62 ->
    len data < HeaderLen e + Length e ->
    finishElement data e =
      Done (e, 0, Some "element extends beyond available data"%string).
Proof.
  intros data e HL HH Hfit. unfold finishElement.
  rewrite add_small by (unfold GoInt.in_range; lia).
  destruct (Z.gtb_spec (HeaderLen e + Length e) (len data)); [|lia].
  destruct (Z.geb_spec (len data) (HeaderLen e + Length e)); [lia|].
  rewrite andb_false_r. reflexivity.
Qed.

Lemma parseASN1Element_header :
  forall t lb rest depth offset,
    parseASN1Element (t :: lb :: rest) depth offset =
    let element := elementOf t depth offset 0 0 in
    if Z.land (b2z lb) 0x80 =? 0
    then finishElement (t :: lb :: rest) (withLength element (b2z lb) 2)
    else
      let lengthOctets := Z.land (b2z lb) 0x7F in
      if lengthOctets =? 0
      then Done (element, 0, Some "indefinite length not supported"%string)
      else if len (t :: lb :: rest) <? GoInt.add 2 lengthOctets
      then Done (element, 0, Some "insufficient data for length octets"%string)
      else
        '(length, bytesRead) <-
          readLength (Z.to_nat lengthOctets) (t :: lb :: rest) 0 2 ;;
        finishElement (t :: lb :: rest) (withLength element length bytesRead).
Proof.
  intros. unfold parseASN1Element.
  pose proof (len_nonneg rest).
  assert (Hlen : len (t :: lb :: rest) = 2 + len rest) by (rewrite !len_cons; lia).
  rewrite Hlen.
  destruct (Z.ltb_spec (2 + len rest) 2); [lia|].
  unfold index at 1. rewrite Hlen.
  destruct (Z.ltb_spec 0 (2 + len rest)); [|lia].
  cbn [Z.leb Z.compare andb Z.to_nat nth_error bind].
  unfold index at 1. rewrite Hlen.
  destruct (Z.ltb_spec 1 (2 + len rest)); [|lia].
  change (Z.to_nat 1) with 1%nat.
  cbn [Z.leb Z.compare andb nth_error bind].
  reflexivity.
Qed.

(** A header with a short-form length byte [l] (high bit clear) has a
    2-byte header and content length [l]: the decode succeeds and consumes
    [2 + l] bytes exactly when [l] bytes follow in the window, and otherwise
    fails with "element extends beyond available data". *)
Theorem decode_short_form :
  forall t l rest depth offset,
    b2z l < 128 ->
    len rest < 2 ^ 61 ->
    parseASN1Element (t :: l :: rest) depth offset =
    if b2z l <=? len rest
    then Done (elementOf t depth offset 2 (b2z l), 2 + b2z l, None)
    else Done (elementOf t depth offset 2 (b2z l), 0,
               Some "element extends beyond available data"%string).
Proof.
  intros t l rest depth offset Hshort Hbig.
  pose proof (b2z_range l) as Hl. pose proof (len_nonneg rest) as Hr.
  assert (Hlen : len (t :: l :: rest) = 2 + len rest) by (rewrite !len_cons; lia).
  rewrite parseASN1Element_header. cbv zeta.
  rewrite land_high_bit_small by lia. cbn [Z.eqb].
  unfold elementOf, withLength. cbn [Depth Offset Tag Class IsCompound].
  destruct (Z.leb_spec (b2z l) (len rest)).
  - rewrite finishElement_fits by (cbn [Length HeaderLen]; rewrite ?Hlen; lia).
    reflexivity.
  - rewrite finishElement_beyond by (cbn [Length HeaderLen]; rewrite ?Hlen; lia).
    reflexivity.
Qed.

(** With at most seven length octets (second byte below 0x88) the decoder
    never panics, and a successful decode is within bounds: the content
    length is between 0 and 2^56, the header has 2 to 9 bytes, the bytes
    consumed are header plus content and do not exceed the window; a failed
    decode consumes nothing. *)
Theorem decode_with_bounded_length :
  forall data depth offset,
    len data < 2 ^ 62 ->
    (forall lb, nth_error data 1 = Some lb -> b2z lb < 0x88) ->
    exists e n err,
      parseASN1Element data depth offset = Done (e, n, err) /\
      (err = None ->
       0 <= Length e < 2 ^ 56 /\ 2 <= HeaderLen e <= 9 /\
       n = HeaderLen e + Length e /\ n <= len data) /\
      (err <> None -> n = 0).
Proof.
  intros data depth offset Hbig Hlb.
  destruct data as [|t [|lb rest]].
  - eexists _, _, _. split; [reflexivity|]. split; [discriminate|reflexivity].
  - eexists _, _, _. split; [reflexivity|]. split; [discriminate|reflexivity].
  - specialize (Hlb lb eq_refl).
    pose proof (b2z_range lb) as Hb. pose proof (len_nonneg rest) as Hr.
    assert (Hlen : len (t :: lb :: rest) = 2 + len rest) by (rewrite !len_cons; lia).
    rewrite parseASN1Element_header. cbv zeta.
    rewrite high_bit_test by lia.
    destruct (Z.ltb_spec (b2z lb) 128) as [Hshort|Hlong].
    + destruct (Z.le_gt_cases (2 + b2z lb) (2 + len rest)).
      * rewrite finishElement_fits by (cbn [withLength Length HeaderLen]; lia).
        eexists _, _, _. split; [reflexivity|].
        cbn [withLength Length HeaderLen]. split; [|congruence].
        intros _. change (2 ^ 56) with 72057594037927936. lia.
      * rewrite finishElement_beyond by (cbn [withLength Length HeaderLen]; lia).
        eexists _, _, _. split; [reflexivity|]. split; [discriminate|reflexivity].
    + rewrite land_0x7F_mod by lia.
      assert (Hk : b2z lb mod 128 = b2z lb - 128).
      { symmetry. apply Z.mod_unique with 1; lia. }
      rewrite Hk.
      destruct (Z.eqb_spec (b2z lb - 128) 0).
      { eexists _, _, _. split; [reflexivity|]. split; [discriminate|reflexivity]. }
      rewrite add_small by (unfold GoInt.in_range; lia).
      rewrite Hlen.
      destruct (Z.ltb_spec (2 + len rest) (2 + (b2z lb - 128))).
      { eexists _, _, _. split; [reflexivity|]. split; [discriminate|reflexivity]. }
      destruct (readLength_value (Z.to_nat (b2z lb - 128)) (t :: lb :: rest) 0 2 0)
        as [Hread Hrange];
        [change (2 ^ (8 * Z.of_nat 0)) with 1; lia|lia|lia|rewrite Hlen; lia|
         rewrite Hlen; lia|].
      rewrite Hread. cbn [bind].
      set (L := bigEndian _ 0) in *.
      assert (HL : 0 <= L < 2 ^ 56).
      { destruct Hrange as [H0 H1]. split; [exact H0|].
        eapply Z.lt_le_trans; [exact H1|].
        apply Z.pow_le_mono_r; lia. }
      change (2 ^ 56) with 72057594037927936 in HL.
      rewrite Z2Nat.id by lia.
      destruct (Z.le_gt_cases (2 + (b2z lb - 128) + L) (2 + len rest)).
      * rewrite finishElement_fits by (cbn [withLength Length HeaderLen]; lia).
        eexists _, _, _. split; [reflexivity|].
        cbn [withLength Length HeaderLen]. split; [|congruence].
        intros _. change (2 ^ 56) with 72057594037927936. lia.
      * rewrite finishElement_beyond by (cbn [withLength Length HeaderLen]; lia).
        eexists _, _, _. split; [reflexivity|]. split; [discriminate|reflexivity].
Qed.

Lemma len_firstn_skipn_app : forall (octets rest : list byte) pre,
    firstn (List.length octets) (skipn (List.length pre) (pre ++ octets ++ rest)) = octets.
Proof.
  intros. rewrite skipn_app, skipn_all, Nat.sub_diag. cbn [app skipn].
  rewrite firstn_app, firstn_all, Nat.sub_diag. cbn [firstn]. apply app_nil_r.
Qed.

(** The long form with one to seven length octets: the content length is
    the big-endian value of the octets, the header is the two leading bytes
    and the octets; the decode succeeds when that many bytes follow the
    header and otherwise fails with "element extends beyond available
    data". *)
Theorem decode_long_form :
  forall t lb octets rest depth offset,
    octets <> [] ->
    (List.length octets <= 7)%nat ->
    b2z lb = 0x80 + len octets ->
    len rest < 2 ^ 61 ->
    parseASN1Element (t :: lb :: octets ++ rest) depth offset =
    if bigEndian octets 0 <=? len rest
    then Done (elementOf t depth offset (2 + len octets) (bigEndian octets 0),
               2 + len octets + bigEndian octets 0, None)
    else Done (elementOf t depth offset (2 + len octets) (bigEndian octets 0),
               0, Some "element extends beyond available data"%string).
Proof.
  intros t lb octets rest depth offset Hne Hk Hlb Hbig.
  pose proof (len_nonneg rest) as Hr.
  assert (Hlo : 1 <= len octets <= 7).
  { unfold len. destruct octets; [congruence|]. cbn [List.length] in *. lia. }
  assert (Hlen : len (t :: lb :: octets ++ rest) = 2 + len octets + len rest)
    by (rewrite !len_cons, len_app; lia).
  rewrite parseASN1Element_header. cbv zeta.
  rewrite high_bit_test by (pose proof (b2z_range lb); lia).
  destruct (Z.ltb_spec (b2z lb) 128); [lia|].
  rewrite land_0x7F_mod by lia.
  replace (b2z lb mod 128) with (len octets)
    by (apply Z.mod_unique with 1; lia).
  destruct (Z.eqb_spec (len octets) 0); [lia|].
  rewrite add_small by (unfold GoInt.in_range; lia).
  rewrite Hlen.
  destruct (Z.ltb_spec (2 + len octets + len rest) (2 + len octets)); [lia|].
  destruct (readLength_value (Z.to_nat (len octets)) (t :: lb :: octets ++ rest) 0 2 0)
    as [Hread Hrange];
    [change (2 ^ (8 * Z.of_nat 0)) with 1; lia|unfold len; lia|lia|
     rewrite Hlen; lia|rewrite Hlen; lia|].
  rewrite Hread. cbn [bind].
  replace (Z.to_nat (len octets)) with (List.length octets) in * by (unfold len; lia).
  change (Z.to_nat 2) with (List.length [t; lb]) in *.
  change (t :: lb :: octets ++ rest) with ([t; lb] ++ octets ++ rest) in *.
  rewrite len_firstn_skipn_app in *.
  assert (HL : 0 <= bigEndian octets 0 < 2 ^ 56).
  { destruct Hrange as [Hge Hlt]. split; [exact Hge|].
    eapply Z.lt_le_trans; [exact Hlt|]. apply Z.pow_le_mono_r; lia. }
  change (2 ^ 56) with 72057594037927936 in HL.
  replace (2 + Z.of_nat (List.length octets)) with (2 + len octets) by (unfold len; lia).
  unfold elementOf, withLength. cbn [Depth Offset Tag Class IsCompound].
  destruct (Z.leb_spec (bigEndian octets 0) (len rest)).
  - rewrite finishElement_fits
      by (cbn [Length HeaderLen]; rewrite ?Hlen; lia).
    reflexivity.
  - rewrite finishElement_beyond
      by (cbn [Length HeaderLen]; rewrite ?Hlen; lia).
    reflexivity.
Qed.

Lemma finishElement_error :
  forall data el e n msg,
    finishElement data el = Done (e, n, Some msg) ->
    n = 0 /\ msg = "element extends beyond available data"%string.
Proof.
  intros data el e n msg. unfold finishElement.
  match goal with |- context [bind ?m _] => destruct m end;
    cbn [bind]; try discriminate.
  destruct (_ >? _); intro H; inversion H; auto.
Qed.

(** Every failed decode reports 0 bytes consumed and carries one of the
    four messages of [parseASN1Element]. *)
Theorem decode_error_consumes_nothing :
  forall data depth offset e n msg,
    parseASN1Element data depth offset = Done (e, n, Some msg) ->
    n = 0 /\
    (msg = "insufficient data for ASN.1 element"%string \/
     msg = "indefinite length not supported"%string \/
     msg = "insufficient data for length octets"%string \/
     msg = "element extends beyond available data"%string).
Proof.
  intros data depth offset e n msg. unfold parseASN1Element.
  destruct (len data <? 2); [intro H; inversion H; auto|].
  destruct (index data 0) as [tagByte| |]; cbn [bind]; try discriminate.
  destruct (index data 1) as [lengthByte| |]; cbn [bind]; try discriminate.
  destruct (Z.land lengthByte 128 =? 0).
  - intro H. apply finishElement_error in H as [-> ->]. auto.
  - destruct (_ =? 0); [intro H; inversion H; auto|].
    destruct (_ <? _); [intro H; inversion H; auto|].
    destruct (readLength _ _ _ _) as [[length bytesRead]| |]; cbn [bind];
      try discriminate.
    intro H. apply finishElement_error in H as [-> ->]. auto.
Qed.

Lemma finishElement_decoded :
  forall data el el',
    HeaderLen el = HeaderLen el' -> Length el = Length el' ->
    Tag el = Tag el' -> Class el = Class el' -> IsCompound el = IsCompound el' ->
    omap decoded (finishElement data el) = omap decoded (finishElement data el').
Proof.
  intros data el el' HH HL HT HC HI. unfold finishElement.
  rewrite <- HH, <- HL, <- HI.
  match goal with |- context [bind ?m _] => destruct m end;
    cbn [bind omap]; try reflexivity.
  destruct (_ >? _); cbn [omap bind decoded]; congruence.
Qed.

(** [depth] and [offset] are only stored: the header length, content
    length, tag, class, constructed flag, bytes consumed and error of a decode
    do not depend on them, nor does a panic. *)
Theorem decode_ignores_position :
  forall data depth offset depth' offset',
    omap decoded (parseASN1Element data depth offset) =
    omap decoded (parseASN1Element data depth' offset').
Proof.
  intros. unfold parseASN1Element.
  destruct (len data <? 2); [reflexivity|].
  destruct (index data 0) as [tagByte| |]; cbn [bind]; try reflexivity.
  destruct (index data 1) as [lengthByte| |]; cbn [bind]; try reflexivity.
  destruct (Z.land lengthByte 128 =? 0).
  - apply finishElement_decoded; reflexivity.
  - destruct (_ =? 0); [reflexivity|].
    destruct (_ <? _); [reflexivity|].
    destruct (readLength _ _ _ _) as [[length bytesRead]| |]; cbn [bind];
      try reflexivity.
    apply finishElement_decoded; reflexivity.
Qed.

Lemma index_app_l : forall data extra i z,
    index data i = Done z -> index (data ++ extra) i = Done z.
Proof.
  intros data extra i z. unfold index. rewrite len_app.
  pose proof (len_nonneg extra).
  destruct (Z.leb_spec 0 i); cbn [andb]; [|discriminate].
  destruct (Z.ltb_spec i (len data)); [|discriminate].
  destruct (Z.ltb_spec i (len data + len extra)); [|lia].
  rewrite nth_error_app1 by (unfold len in *; lia).
  auto.
Qed.

Lemma readLength_app_l : forall n data extra v br r,
    readLength n data v br = Done r ->
    readLength n (data ++ extra) v br = Done r.
Proof.
  induction n as [|n IH]; intros data extra v br r; cbn [readLength]; [auto|].
  destruct (index data br) as [b| |] eqn:Hb; cbn [bind]; try discriminate.
  rewrite (index_app_l _ extra _ _ Hb). cbn [bind]. apply IH.
Qed.

Lemma slice_app_l : forall data extra lo hi l,
    slice data lo hi = Done l -> slice (data ++ extra) lo hi = Done l.
Proof.
  intros data extra lo hi l. unfold slice. rewrite len_app.
  pose proof (len_nonneg extra).
  destruct (Z.leb_spec 0 lo); cbn [andb]; [|discriminate].
  destruct (Z.leb_spec lo hi); cbn [andb]; [|discriminate].
  destruct (Z.leb_spec hi (len data)); [|discriminate].
  destruct (Z.leb_spec hi (len data + len extra)); [|lia].
  intro Heq. inversion Heq. f_equal.
  rewrite skipn_app, firstn_app.
  rewrite length_skipn.
  replace (Z.to_nat (hi - lo) - (List.length data - Z.to_nat lo))%nat with 0%nat
    by (unfold len in *; lia).
  cbn [firstn]. now rewrite app_nil_r.
Qed.

Lemma finishElement_app_l : forall data extra el e n,
    finishElement data el = Done (e, n, None) ->
    finishElement (data ++ extra) el = Done (e, n, None).
Proof.
  intros data extra el e n. unfold finishElement. rewrite len_app.
  pose proof (len_nonneg extra) as Hx.
  set (total := GoInt.add (HeaderLen el) (Length el)).
  destruct (Z.gtb_spec total (len data)) as [Hgt|Hle].
  { match goal with |- context [bind ?m _] => destruct m end;
      cbn [bind]; discriminate. }
  destruct (Z.gtb_spec total (len data + len extra)); [lia|].
  replace (len data + len extra >=? total) with true
    by (symmetry; apply Z.geb_le; lia).
  replace (len data >=? total) with true by (symmetry; apply Z.geb_le; lia).
  destruct (negb (IsCompound el) && (Length el >? 0) && true).
  - destruct (slice data (HeaderLen el) total) as [l| |] eqn:Hs;
      cbn [bind]; try discriminate.
    rewrite (slice_app_l _ extra _ _ _ Hs). cbn [bind]. auto.
  - cbn [bind]. auto.
Qed.

(** A successful decode reads only its window's front: with any bytes
    appended to the window it returns the same element and the same count. *)
Theorem decode_unchanged_by_appended_bytes :
  forall data extra depth offset e n,
    parseASN1Element data depth offset = Done (e, n, None) ->
    parseASN1Element (data ++ extra) depth offset = Done (e, n, None).
Proof.
  intros data extra depth offset e n. unfold parseASN1Element.
  rewrite len_app. pose proof (len_nonneg extra) as Hx.
  destruct (Z.ltb_spec (len data) 2); [discriminate|].
  destruct (Z.ltb_spec (len data + len extra) 2); [lia|].
  destruct (index data 0) as [tagByte| |] eqn:Htag; cbn [bind]; try discriminate.
  rewrite (index_app_l _ extra _ _ Htag). cbn [bind].
  destruct (index data 1) as [lengthByte| |] eqn:Hlb; cbn [bind]; try discriminate.
  rewrite (index_app_l _ extra _ _ Hlb). cbn [bind].
  destruct (Z.land lengthByte 128 =? 0).
  - apply finishElement_app_l.
  - destruct (_ =? 0); [discriminate|].
    destruct (Z.ltb_spec (len data) (GoInt.add (GoInt.add 1 1) (Z.land lengthByte 127)));
      [discriminate|].
    destruct (Z.ltb_spec (len data + len extra)
                         (GoInt.add (GoInt.add 1 1) (Z.land lengthByte 127))); [lia|].
    destruct (readLength _ data _ _) as [[length bytesRead]| |] eqn:Hr; cbn [bind];
      try discriminate.
    rewrite (readLength_app_l _ _ extra _ _ _ Hr). cbn [bind].
    apply finishElement_app_l.
Qed.

Lemma shortLengths_skipn : forall n data,
    shortLengths data = true -> shortLengths (skipn n data) = true.
Proof.
  induction n as [|n IH]; intros data H; [exact H|].
  destruct data as [|b data]; [exact H|].
  cbn [skipn]. apply IH. cbn [shortLengths forallb] in H.
  now apply andb_prop in H.
Qed.

Lemma shortLengths_firstn : forall n data,
    shortLengths data = true -> shortLengths (firstn n data) = true.
Proof.
  induction n as [|n IH]; intros data H; [reflexivity|].
  destruct data as [|b data]; [reflexivity|].
  cbn [shortLengths forallb] in H. apply andb_prop in H as [Hb Hd].
  cbn [firstn shortLengths forallb]. rewrite Hb. now apply IH.
Qed.

Lemma shortLengths_second : forall data lb,
    shortLengths data = true -> nth_error data 1 = Some lb -> b2z lb < 0x88.
Proof.
  intros data lb H Hn. apply nth_error_In in Hn.
  unfold shortLengths in H. rewrite forallb_forall in H.
  apply Z.ltb_lt. now apply H.
Qed.

Lemma slice_from_ok : forall data lo,
    0 <= lo <= len data ->
    slice_from data lo = Done (skipn (Z.to_nat lo) data) /\
    len (skipn (Z.to_nat lo) data) = len data - lo.
Proof.
  intros data lo H. unfold slice_from.
  destruct (Z.leb_spec 0 lo); [|lia].
  destruct (Z.leb_spec lo (len data)); [|lia].
  split; [reflexivity|]. unfold len in *. rewrite length_skipn. lia.
Qed.

Lemma slice_ok : forall data lo hi,
    0 <= lo <= hi -> hi <= len data ->
    slice data lo hi = Done (firstn (Z.to_nat (hi - lo)) (skipn (Z.to_nat lo) data)) /\
    len (firstn (Z.to_nat (hi - lo)) (skipn (Z.to_nat lo) data)) = hi - lo.
Proof.
  intros data lo hi H Hhi. unfold slice.
  destruct (Z.leb_spec 0 lo); [|lia].
  destruct (Z.leb_spec lo hi); [|lia].
  destruct (Z.leb_spec hi (len data)); [|lia].
  split; [reflexivity|]. unfold len in *.
  rewrite length_firstn, length_skipn. lia.
Qed.

Lemma decode_at :
  forall data offset depth o,
    shortLengths data = true -> len data < 2 ^ 62 ->
    0 <= offset <= len data ->
    exists e n err,
      parseASN1Element (skipn (Z.to_nat offset) data) depth o = Done (e, n, err) /\
      (err = None -> fitsAt data offset e n).
Proof.
  intros data offset depth o Hs Hbig Hoff.
  destruct (slice_from_ok data offset Hoff) as [_ Hlen].
  destruct (decode_with_bounded_length (skipn (Z.to_nat offset) data) depth o)
    as (e & n & err & Hp & Hok & _).
  - lia.
  - intros lb. apply shortLengths_second. now apply shortLengths_skipn.
  - exists e, n, err. split; [exact Hp|].
    intro Herr. destruct (Hok Herr) as (HL & HH & Hn & Hfit).
    unfold fitsAt. lia.
Qed.

Lemma valueAfterOID_returns :
  forall data offset e n,
    shortLengths data = true -> len data < 2 ^ 62 ->
    0 <= offset -> fitsAt data offset e n ->
    exists r, valueAfterOID data offset e n = Done r.
Proof.
  intros data offset e n Hs Hbig Hoff (HL & HH & Hn & Hfit).
  unfold valueAfterOID.
  destruct ((Tag e =? TagObjectID) && (Length e >? 0)); [|eauto].
  rewrite !add_small by (unfold GoInt.in_range; lia).
  destruct (slice_ok data (offset + HeaderLen e) (offset + HeaderLen e + Length e))
    as [-> _]; try lia.
  cbn [bind].
  destruct (Z.ltb_spec (offset + n) (len data)); [|eauto].
  destruct (slice_from_ok data (offset + n)) as [-> _]; [lia|].
  cbn [bind].
  destruct (decode_at data (offset + n) 0 (offset + n))
    as (ve & vn & verr & -> & Hv); try assumption; [lia|].
  cbn [bind].
  destruct verr; [eauto|].
  destruct (Hv eq_refl) as (HL' & HH' & Hn' & Hfit').
  destruct (negb (IsCompound ve) && (Length ve >? 0)); [|eauto].
  rewrite !add_small by (unfold GoInt.in_range; lia).
  destruct (slice_ok data (offset + n + HeaderLen ve)
                     (offset + n + HeaderLen ve + Length ve)) as [-> _]; try lia.
  cbn [bind]. eauto.
Qed.

Lemma compoundContent_returns :
  forall data offset e n,
    shortLengths data = true -> len data < 2 ^ 62 ->
    0 <= offset -> fitsAt data offset e n ->
    compoundContent data offset e n = Done None \/
    exists content,
      compoundContent data offset e n = Done (Some content) /\
      shortLengths content = true /\ len content + 2 <= n.
Proof.
  intros data offset e n Hs Hbig Hoff (HL & HH & Hn & Hfit).
  unfold compoundContent.
  destruct (IsCompound e && (Length e >? 0)); [|auto].
  destruct (HeaderLen e <? n); [|auto].
  destruct (slice_from_ok data offset) as [-> Hlen]; [lia|].
  cbn [bind].
  destruct (_ <=? _); [|auto].
  rewrite (add_small offset (HeaderLen e)) by (unfold GoInt.in_range; lia).
  rewrite !add_small by (unfold GoInt.in_range; lia).
  destruct (slice_ok data (offset + HeaderLen e) (offset + HeaderLen e + Length e))
    as [-> Hl]; try lia.
  cbn [bind]. right. eexists. split; [reflexivity|]. split.
  - now apply shortLengths_firstn, shortLengths_skipn.
  - rewrite Hl. lia.
Qed.

Lemma findFieldsInASN1_from_returns :
  forall fuel data offset validation,
    shortLengths data = true -> len data < 2 ^ 62 ->
    0 <= offset <= len data ->
    len data - offset < Z.of_nat fuel ->
    exists result, findFieldsInASN1_from fuel data offset validation = Done result.
Proof.
  induction fuel as [|fuel IH]; intros data offset validation Hs Hbig Hoff Hfuel.
  - exfalso. cbn in Hfuel. lia.
  - rewrite findFieldsInASN1_from_unfold.
    destruct (Z.ltb_spec offset (len data)); [|eauto].
    destruct (slice_from_ok data offset) as [-> _]; [lia|].
    cbn [bind].
    destruct (decode_at data offset 0 offset) as (e & n & err & -> & Hok);
      try assumption.
    cbn [bind]. destruct err; [eauto|].
    pose proof (Hok eq_refl) as Hfit.
    destruct (valueAfterOID_returns data offset e n) as [found ->];
      try assumption; [lia|].
    cbn [bind].
    destruct Hfit as (HL & HH & Hn & Hfit').
    assert (Hfit : fitsAt data offset e n) by (unfold fitsAt; auto).
    rewrite add_small by (unfold GoInt.in_range; lia).
    destruct (compoundContent_returns data offset e n) as [->|(content & -> & Hc & Hlen)];
      try assumption; try lia; cbn [bind].
    + apply IH; try assumption; lia.
    + pose proof (len_nonneg content).
      destruct (IH content 0 (match found with
                              | Some (oid, valueContent) =>
                                  setValidationField validation oid valueContent
                              | None => validation
                              end)) as [v' ->]; try assumption; try lia.
      cbn [bind]. apply IH; try assumption; lia.
Qed.

Lemma field_walk_returns_on_short_lengths :
  forall data validation,
    shortLengths data = true ->
    len data < 2 ^ 62 ->
    exists result,
      findFieldsInASN1 (S (List.length data)) data validation = Done result.
Proof.
  intros data validation Hs Hbig. unfold findFieldsInASN1.
  pose proof (len_nonneg data).
  apply findFieldsInASN1_from_returns; try assumption; unfold len in *; lia.
Qed.

Lemma decode_same_at_any_depth :
  forall data depth offset depth' offset' e n err,
    parseASN1Element data depth offset = Done (e, n, err) ->
    exists e',
      parseASN1Element data depth' offset' = Done (e', n, err) /\
      HeaderLen e' = HeaderLen e /\ Length e' = Length e /\
      Tag e' = Tag e /\ IsCompound e' = IsCompound e.
Proof.
  intros data depth offset depth' offset' e n err H.
  pose proof (decode_ignores_position data depth offset depth' offset') as Heq.
  rewrite H in Heq. cbn [omap bind decoded] in Heq.
  destruct (parseASN1Element data depth' offset') as [[[e' n'] err']| |];
    cbn [omap bind decoded] in Heq; try discriminate.
  inversion Heq; subst. exists e'. auto.
Qed.

Lemma compoundContent_fields :
  forall data offset e e' n,
    HeaderLen e' = HeaderLen e -> Length e' = Length e ->
    IsCompound e' = IsCompound e ->
    compoundContent data offset e' n = compoundContent data offset e n.
Proof.
  intros data offset e e' n HH HL HI. unfold compoundContent.
  now rewrite HH, HL, HI.
Qed.

Lemma findLastOctetString_returns_when_fields_do :
  forall fuel data offset validation result,
    findFieldsInASN1_from fuel data offset validation = Done result ->
    forall depth lastElement keySize,
    exists k,
      findLastOctetString_from fuel data depth offset lastElement keySize = Done k.
Proof.
  induction fuel as [|fuel IH]; intros data offset validation result Hf;
    [discriminate|].
  intros depth lastElement keySize.
  rewrite findFieldsInASN1_from_unfold in Hf.
  rewrite findLastOctetString_from_unfold.
  destruct (offset <? len data); [|eauto].
  destruct (slice_from data offset) as [rest| |]; try discriminate.
  cbn [bind] in *.
  destruct (parseASN1Element rest 0 offset) as [[[e n] err]| |] eqn:Hp;
    try discriminate.
  destruct (decode_same_at_any_depth _ _ _ depth offset _ _ _ Hp)
    as (e' & -> & HH & HL & HT & HI).
  cbn [bind] in *.
  destruct err; [eauto|].
  destruct (valueAfterOID data offset e n) as [found| |]; try discriminate.
  cbn [bind] in Hf.
  rewrite (compoundContent_fields data offset e e' n HH HL HI).
  destruct (compoundContent data offset e n) as [inner| |]; try discriminate.
  cbn [bind] in *.
  destruct inner as [content|].
  - match type of Hf with
    | bind ?m _ = _ => destruct m as [v1| |] eqn:Hin; try discriminate
    end.
    cbn [bind] in Hf.
    destruct (IH _ _ _ _ Hin (GoInt.add depth 1) zeroElement keySize) as [k1 ->].
    cbn [bind]. eapply IH. exact Hf.
  - cbn [bind] in *. eapply IH. exact Hf.
Qed.

Section AcceptanceFacts.

Variable Unmarshal : list byte -> option (asn1.RawValue * list byte).

Lemma tryCandidate_accepts :
  forall fuel data i raw,
    tryCandidate Unmarshal fuel data i = Done (Some raw) ->
    index data i = Done 0x30 /\
    index data (GoInt.add i 1) = Done 0x82 /\
    (exists buffer rest,
        slice_from data i = Done buffer /\ Unmarshal buffer = Some (raw, rest)) /\
    exists validation,
      validateSignatureFields fuel (asn1.FullBytes raw) = Done validation /\
      IsValid validation = true.
Proof.
  intros fuel data i raw. unfold tryCandidate.
  destruct (index data i) as [b0| |]; cbn [bind]; try discriminate.
  destruct (Z.eqb_spec b0 48) as [->|]; [|discriminate].
  destruct (index data (GoInt.add i 1)) as [b1| |]; cbn [bind]; try discriminate.
  destruct (Z.eqb_spec b1 130) as [->|]; [|discriminate].
  destruct (slice_from data i) as [buffer| |]; cbn [bind]; try discriminate.
  destruct (Unmarshal buffer) as [[raw' rest]|] eqn:HU; [|discriminate].
  destruct (validateSignatureFields fuel (asn1.FullBytes raw')) as [v| |] eqn:Hv;
    cbn [bind]; try discriminate.
  destruct (IsValid v) eqn:Hvalid; cbn [negb]; [|discriminate].
  intro H. inversion H; subst raw'.
  repeat split; eauto.
Qed.

Lemma scan_result :
  forall fuel data n raw i,
    FindValidSignature_scan Unmarshal fuel data n = Done (Some raw, i, None) ->
    0 <= i < Z.of_nat n /\
    tryCandidate Unmarshal fuel data i = Done (Some raw) /\
    forall j, i < j < Z.of_nat n -> tryCandidate Unmarshal fuel data j = Done None.
Proof.
  induction n as [|n IH]; intros raw i; cbn [FindValidSignature_scan];
    [discriminate|].
  destruct (tryCandidate Unmarshal fuel data (Z.of_nat n)) as [[raw'|]| |] eqn:Ht;
    cbn [bind]; try discriminate.
  - intro H. inversion H; subst. repeat split; try lia. exact Ht.
  - intro H. destruct (IH _ _ H) as (Hi & Hacc & Hrej).
    repeat split; try lia; [exact Hacc|].
    intros j Hj. destruct (Z.eq_dec j (Z.of_nat n)) as [->|]; [exact Ht|].
    apply Hrej. lia.
Qed.

End AcceptanceFacts.

(** ** The search, characterised *)

Section SearchFacts.

Variable Unmarshal : list byte -> option (asn1.RawValue * list byte).

(** [FindValidSignature] returns [raw] at offset [i] exactly when the
    loop body accepts [raw] at [i] and rejects every offset to the right of
    [i], up to [len(data) - 2]. *)
Theorem search_returns_rightmost_accepted :
  forall fuel data raw i,
    len data < 2 ^ 62 ->
    (FindValidSignature Unmarshal fuel data = Done (Some raw, i, None) <->
     0 <= i <= len data - 2 /\
     tryCandidate Unmarshal fuel data i = Done (Some raw) /\
     forall j, i < j <= len data - 2 ->
               tryCandidate Unmarshal fuel data j = Done None).
Proof.
  intros fuel data raw i Hbig. pose proof (len_nonneg data) as Hlen. split.
  - unfold FindValidSignature.
    rewrite sub_small by (unfold GoInt.in_range; lia).
    intro H. apply scan_result in H as (Hi & Hacc & Hrej).
    repeat split; try lia; [exact Hacc|].
    intros j Hj. apply Hrej. lia.
  - intros (Hi & Hacc & Hrej).
    now apply FindValidSignature_returns_accepted.
Qed.

(** A buffer with no pair 30 82 (empty and one-byte buffers included)
    yields the error "no valid signature found", and [asn1.Unmarshal] is
    never consulted. *)
Theorem search_without_marker_fails :
  forall fuel data,
    len data < 2 ^ 62 ->
    hasMarker data = false ->
    FindValidSignature Unmarshal fuel data = Done (None, 0, Some noSignature).
Proof.
  intros fuel data Hbig Hno.
  apply FindValidSignature_exhausted; [exact Hbig|].
  intros j Hj.
  replace j with (Z.of_nat (Z.to_nat j)) by lia.
  apply tryCandidate_without_marker; [unfold len in *; lia|exact Hbig|].
  unfold hasMarker in Hno.
  destruct (markerAt data (Z.to_nat j)) eqn:Hm; [|reflexivity].
  assert (Hex : existsb (markerAt data) (seq 0 (List.length data)) = true).
  { apply existsb_exists. exists (Z.to_nat j). split; [|exact Hm].
    apply in_seq. unfold len in *. lia. }
  congruence.
Qed.

End SearchFacts.


Lemma fieldOf_recordAll_flag :
  forall occ oid validation,
    recognized oid ->
    fst (fieldOf oid (recordAll occ validation)) =
    match lastValueOf oid occ with
    | Some _ => true
    | None => fst (fieldOf oid validation)
    end.
Proof.
  intros occ oid validation Hrec.
  destruct (lastValueOf oid occ) as [value|] eqn:Hlast.
  - now rewrite (recordAll_last_value occ oid value).
  - now rewrite recordAll_keeps_field.
Qed.



(** [findFieldsInASN1] only sets flags: an attribute flag that is true
    in the validation handed in is true in the result. *)
Theorem flags_are_never_cleared :
  forall fuel data validation result oid,
    findFieldsInASN1 fuel data validation = Done result ->
    recognized oid ->
    fst (fieldOf oid validation) = true ->
    fst (fieldOf oid result) = true.
Proof.
  intros fuel data validation result oid Hf Hrec Hflag.
  unfold findFieldsInASN1 in Hf.
  rewrite findFieldsInASN1_replays_occurrences in Hf.
  destruct (fieldOccurrences_from fuel data 0) as [occ| |];
    cbn [omap bind] in Hf; try discriminate.
  inversion Hf; subst result.
  rewrite fieldOf_recordAll_flag by assumption.
  destruct (lastValueOf oid occ); auto.
Qed.

(** ** Recorded values are not empty *)

Lemma wrap_in_range : forall z, GoInt.in_range (GoInt.wrap z).
Proof.
  intro z. unfold GoInt.in_range, GoInt.wrap.
  pose proof (Z.mod_pos_bound (z + 2 ^ 63) (2 ^ 64)). lia.
Qed.

Lemma wrap_mod_256 : forall z, GoInt.wrap z mod 256 = z mod 256.
Proof.
  intro z. unfold GoInt.wrap.
  rewrite (Z.mod_eq (z + 2 ^ 63) (2 ^ 64)) by lia.
  replace (z + 2 ^ 63 - 2 ^ 64 * ((z + 2 ^ 63) / 2 ^ 64) - 2 ^ 63)
    with (z + (- (2 ^ 56 * ((z + 2 ^ 63) / 2 ^ 64))) * 256) by lia.
  apply Z_mod_plus_full.
Qed.

Lemma lor_low_byte : forall s b,
    s mod 256 = 0 -> 0 <= b < 256 -> Z.lor s b = s + b.
Proof.
  intros s b Hs Hb.
  assert (Hland : Z.land s b = 0).
  { apply Z.bits_inj'. intros n Hn. rewrite Z.land_spec, Z.bits_0.
    destruct (Z.ltb_spec n 8).
    - rewrite (Z.div_mod s 256), Hs, Z.add_0_r by lia.
      rewrite Z.mul_comm. change 256 with (2 ^ 8).
      rewrite Z.mul_pow2_bits_low by lia. reflexivity.
    - destruct (Z.eq_dec b 0) as [->|].
      + rewrite Z.bits_0. apply andb_false_r.
      + rewrite (Z.bits_above_log2 b n); [apply andb_false_r|lia|].
        apply Z.lt_le_trans with 8; [apply Z.log2_lt_pow2; lia|lia]. }
  rewrite <- Z.lxor_lor, <- Z.add_nocarry_lxor by exact Hland.
  reflexivity.
Qed.

Lemma length_step_in_range : forall v b,
    0 <= b < 256 -> GoInt.in_range (Z.lor (GoInt.shl v 8) b).
Proof.
  intros v b Hb. unfold GoInt.shl.
  pose proof (wrap_in_range (Z.shiftl v 8)) as Hr.
  assert (Hm : GoInt.wrap (Z.shiftl v 8) mod 256 = 0).
  { rewrite wrap_mod_256, Z.shiftl_mul_pow2 by lia.
    change (2 ^ 8) with 256. apply Z_mod_mult. }
  rewrite lor_low_byte by assumption.
  unfold GoInt.in_range in *.
  pose proof (Z.div_mod (GoInt.wrap (Z.shiftl v 8)) 256).
  rewrite Hm in *. lia.
Qed.

Lemma readLength_in_range : forall n data v br v' br',
    readLength n data v br = Done (v', br') ->
    GoInt.in_range v -> GoInt.in_range v'.
Proof.
  induction n as [|n IH]; intros data v br v' br'; cbn [readLength].
  - intro H. inversion H. auto.
  - destruct (index data br) as [b| |] eqn:Hb; cbn [bind]; try discriminate.
    intros H _. apply IH in H; [exact H|].
    apply length_step_in_range. eapply index_range. exact Hb.
Qed.

Lemma decoded_length_in_range :
  forall data depth offset e n err,
    parseASN1Element data depth offset = Done (e, n, err) ->
    GoInt.in_range (Length e).
Proof.
  intros data depth offset e n err. unfold parseASN1Element.
  assert (Hz : GoInt.in_range 0) by (unfold GoInt.in_range; lia).
  destruct (len data <? 2); [intro H; inversion H; exact Hz|].
  destruct (index data 0) as [tagByte| |]; cbn [bind]; try discriminate.
  destruct (index data 1) as [lengthByte| |] eqn:Hlb; cbn [bind]; try discriminate.
  apply index_range in Hlb.
  destruct (Z.land lengthByte 128 =? 0).
  - intro H. apply finishElement_element in H. subst e.
    cbn [withLength Length]. unfold GoInt.in_range. lia.
  - destruct (_ =? 0); [intro H; inversion H; exact Hz|].
    destruct (_ <? _); [intro H; inversion H; exact Hz|].
    destruct (readLength _ _ _ _) as [[length bytesRead]| |] eqn:Hr; cbn [bind];
      try discriminate.
    intro H. apply finishElement_element in H. subst e.
    cbn [withLength Length]. eapply readLength_in_range; eauto.
Qed.

Lemma wrap_sum_not_negative : forall a b,
    0 <= a < 2 ^ 63 -> 0 < b < 2 ^ 63 ->
    0 <= GoInt.add a b -> GoInt.add a b = a + b.
Proof.
  intros a b Ha Hb. unfold GoInt.add.
  destruct (Z.lt_ge_cases (a + b) (2 ^ 63)) as [Hs|Hl].
  - intros _. apply wrap_small. unfold GoInt.in_range. lia.
  - unfold GoInt.wrap.
    replace ((a + b + 2 ^ 63) mod 2 ^ 64) with (a + b + 2 ^ 63 - 2 ^ 64);
      [lia|].
    apply Z.mod_unique with 1; lia.
Qed.

Lemma slice_not_empty : forall data lo length bytes,
    GoInt.in_range lo -> 0 < length -> GoInt.in_range length ->
    slice data lo (GoInt.add lo length) = Done bytes ->
    bytes <> [].
Proof.
  intros data lo length bytes Hlo Hpos Hlen. unfold slice.
  destruct (Z.leb_spec 0 lo); cbn [andb]; [|discriminate].
  destruct (Z.leb_spec lo (GoInt.add lo length)); cbn [andb]; [|discriminate].
  destruct (Z.leb_spec (GoInt.add lo length) (len data)); [|discriminate].
  unfold GoInt.in_range in *.
  rewrite wrap_sum_not_negative in * by lia.
  intro Heq. inversion Heq; subst bytes. clear Heq.
  intro Hnil. apply (f_equal (@List.length byte)) in Hnil.
  rewrite length_firstn, length_skipn in Hnil. cbn [List.length] in Hnil.
  unfold len in *. lia.
Qed.

Lemma add_in_range : forall a b, GoInt.in_range (GoInt.add a b).
Proof. intros. apply wrap_in_range. Qed.

Lemma valueAfterOID_not_empty :
  forall data offset e n oid value,
    valueAfterOID data offset e n = Done (Some (oid, value)) ->
    value <> ""%string.
Proof.
  intros data offset e n oid value. unfold valueAfterOID.
  destruct (_ && _); [|discriminate].
  destruct (slice data _ _) as [content| |]; cbn [bind]; try discriminate.
  destruct (_ <? _); [|discriminate].
  destruct (slice_from data _) as [rest| |]; cbn [bind]; try discriminate.
  destruct (parseASN1Element rest 0 _) as [[[ve vn] verr]| |] eqn:Hp;
    cbn [bind]; try discriminate.
  destruct verr; [discriminate|].
  destruct (negb (IsCompound ve)); cbn [andb]; [|discriminate].
  destruct (Z.gtb_spec (Length ve) 0); [|discriminate].
  destruct (slice data _ _) as [valueBytes| |] eqn:Hs; cbn [bind]; try discriminate.
  apply slice_not_empty in Hs;
    [|apply add_in_range|lia|eapply decoded_length_in_range; exact Hp].
  intro Heq. inversion Heq; subst.
  destruct valueBytes; [congruence|]. discriminate.
Qed.

Lemma fieldOccurrences_not_empty :
  forall fuel data offset occ,
    fieldOccurrences_from fuel data offset = Done occ ->
    Forall (fun p => snd p <> ""%string) occ.
Proof.
  induction fuel as [|fuel IH]; intros data offset occ; [discriminate|].
  cbn [fieldOccurrences_from].
  destruct (offset <? len data); [|intro H; inversion H; constructor].
  destruct (slice_from data offset) as [rest| |]; cbn [bind]; try discriminate.
  destruct (parseASN1Element rest 0 offset) as [[[e n] err]| |];
    cbn [bind]; try discriminate.
  destruct err; [intro H; inversion H; constructor|].
  destruct (valueAfterOID data offset e n) as [found| |] eqn:Hv;
    cbn [bind]; try discriminate.
  destruct (compoundContent data offset e n) as [inner| |];
    cbn [bind]; try discriminate.
  assert (Hfound : Forall (fun p => snd p <> ""%string) (occurrence found)).
  { destruct found as [[oid value]|]; cbn [occurrence]; constructor; [|constructor].
    cbn [snd]. eapply valueAfterOID_not_empty. exact Hv. }
  destruct inner as [content|].
  - destruct (fieldOccurrences_from fuel content 0) as [below| |] eqn:Hb;
      cbn [bind]; try discriminate.
    destruct (fieldOccurrences_from fuel data (GoInt.add offset n)) as [later| |] eqn:Hl;
      cbn [bind]; try discriminate.
    intro H. inversion H. rewrite !Forall_app. eauto.
  - cbn [bind].
    destruct (fieldOccurrences_from fuel data (GoInt.add offset n)) as [later| |] eqn:Hl;
      cbn [bind]; try discriminate.
    intro H. inversion H. rewrite !Forall_app. repeat split; eauto.
Qed.

Lemma lastValueOf_Some_In : forall oid occ value,
    lastValueOf oid occ = Some value -> In (oid, value) occ.
Proof.
  intros oid occ. induction occ as [|[o v] rest IH]; intro value;
    cbn [lastValueOf In]; [discriminate|].
  destruct (lastValueOf oid rest) as [later|].
  - intro H. inversion H; subst. right. now apply IH.
  - destruct (String.eqb_spec o oid) as [->|]; [|discriminate].
    intro H. inversion H. now left.
Qed.

(** In the result of [validateSignatureFields], an attribute whose flag
    is set has a non-empty value. *)
Theorem recorded_values_are_not_empty :
  forall fuel data validation oid,
    validateSignatureFields fuel data = Done validation ->
    recognized oid ->
    fst (fieldOf oid validation) = true ->
    snd (fieldOf oid validation) <> ""%string.
Proof.
  intros fuel data validation oid Hv Hrec Hflag.
  unfold validateSignatureFields, findFieldsInASN1 in Hv.
  rewrite findFieldsInASN1_replays_occurrences in Hv.
  destruct (fieldOccurrences_from fuel data 0) as [occ| |] eqn:Hocc;
    cbn [omap bind] in Hv; try discriminate.
  inversion Hv; subst validation. clear Hv.
  destruct (lastValueOf oid occ) as [value|] eqn:Hlast.
  - rewrite (recordAll_last_value occ oid value) by assumption. cbn [snd].
    apply lastValueOf_Some_In in Hlast.
    apply fieldOccurrences_not_empty in Hocc.
    rewrite Forall_forall in Hocc. apply (Hocc _ Hlast).
  - rewrite recordAll_keeps_field in Hflag by assumption.
    destruct Hrec as [-> | [-> | [-> | [-> | ->]]]]; discriminate.
Qed.

(** ** Where the key size comes from *)

Lemma walkTrace_region_ends :
  forall fuel data depth offset lastElement trace,
    walkTrace_from fuel data depth offset lastElement = Done trace ->
    forall e, In (RegionEnd e) trace ->
              e = lastElement \/ e = zeroElement \/ In (Visited e) trace.
Proof.
  induction fuel as [|fuel IH]; intros data depth offset lastElement trace;
    [discriminate|].
  cbn [walkTrace_from].
  assert (Hend : forall e, In (RegionEnd e) [RegionEnd lastElement] ->
                           e = lastElement \/ e = zeroElement \/
                           In (Visited e) [RegionEnd lastElement]).
  { intros e [Heq|[]]. inversion Heq. auto. }
  destruct (offset <? len data); [|intro H; inversion H; exact Hend].
  destruct (slice_from data offset) as [rest| |]; cbn [bind]; try discriminate.
  destruct (parseASN1Element rest depth offset) as [[[element n] err]| |];
    cbn [bind]; try discriminate.
  destruct err; [intro H; inversion H; exact Hend|].
  destruct (compoundContent data offset element n) as [inner| |];
    cbn [bind]; try discriminate.
  destruct inner as [content|]; cbn [bind].
  - destruct (walkTrace_from fuel content _ 0 zeroElement) as [below| |] eqn:Hb;
      cbn [bind]; try discriminate.
    destruct (walkTrace_from fuel data depth _ element) as [later| |] eqn:Hl;
      cbn [bind]; try discriminate.
    intro H. inversion H; subst trace. clear H.
    intros e [Heq|Hin]; [discriminate|].
    apply in_app_or in Hin as [Hin|Hin].
    + destruct (IH _ _ _ _ _ Hb e Hin) as [->|[->|Hv]]; auto.
      right. right. right. apply in_or_app. auto.
    + destruct (IH _ _ _ _ _ Hl e Hin) as [->|[->|Hv]]; auto.
      * right. right. now left.
      * right. right. right. apply in_or_app. auto.
  - destruct (walkTrace_from fuel data depth _ element) as [later| |] eqn:Hl;
      cbn [bind]; try discriminate.
    intro H. inversion H; subst trace. clear H.
    intros e [Heq|Hin]; [discriminate|]. cbn [app] in Hin.
    destruct (IH _ _ _ _ _ Hl e Hin) as [->|[->|Hv]]; auto.
    + right. right. now left.
    + right. right. now right.
Qed.

Lemma lastOctetRegion_In : forall trace e,
    lastOctetRegion trace = Some e ->
    In (RegionEnd e) trace /\ Tag e = TagOctetString.
Proof.
  induction trace as [|ev rest IH]; intro e; cbn [lastOctetRegion]; [discriminate|].
  destruct (lastOctetRegion rest) as [later|].
  - intro H. inversion H; subst. destruct (IH e eq_refl). split; [now right|assumption].
  - destruct ev as [v|r]; [discriminate|].
    destruct (Z.eqb_spec (Tag r) TagOctetString); [|discriminate].
    intro H. inversion H; subst. split; [now left|assumption].
Qed.

Lemma visited_In : forall trace e,
    In (Visited e) trace -> In e (visitedElements trace).
Proof.
  induction trace as [|ev rest IH]; intros e; [intros []|].
  intros [Heq|Hin].
  - subst ev. now left.
  - destruct ev; cbn [visitedElements]; [right|]; now apply IH.
Qed.

(** The key size is 0 or eight times the content length of an element
    with tag number 4 that the walk decoded. *)
Theorem key_size_comes_from_a_decoded_element :
  forall fuel data keySize,
    calculateKeySize fuel data = Done keySize ->
    keySize = 0 \/
    exists trace e,
      walkTrace fuel data 0 = Done trace /\
      In e (visitedElements trace) /\
      Tag e = TagOctetString /\
      keySize = GoInt.mul (Length e) 8.
Proof.
  intros fuel data keySize H.
  unfold calculateKeySize, findLastOctetString in H.
  rewrite findLastOctetString_follows_trace in H.
  fold (walkTrace fuel data 0) in H.
  destruct (walkTrace fuel data 0) as [trace| |] eqn:Ht;
    cbn [omap bind] in H; try discriminate.
  unfold keySizeAfter in H.
  destruct (lastOctetRegion trace) as [e|] eqn:Hl; inversion H; [|now left].
  right. exists trace, e.
  destruct (lastOctetRegion_In _ _ Hl) as [Hin Htag].
  repeat split; try assumption.
  unfold walkTrace in Ht.
  destruct (walkTrace_region_ends _ _ _ _ _ _ Ht e Hin) as [->|[->|Hv]];
    try discriminate.
  now apply visited_In.
Qed.

(** ** Object identifiers, decoded *)

Lemma lor_low_bits : forall k s c,
    0 <= k -> s mod 2 ^ k = 0 -> 0 <= c < 2 ^ k -> Z.lor s c = s + c.
Proof.
  intros k s c Hk Hs Hc.
  assert (Hland : Z.land s c = 0).
  { apply Z.bits_inj'. intros n Hn. rewrite Z.land_spec, Z.bits_0.
    destruct (Z.ltb_spec n k).
    - rewrite (Z.div_mod s (2 ^ k)), Hs, Z.add_0_r by lia.
      rewrite Z.mul_comm, Z.mul_pow2_bits_low by lia. reflexivity.
    - destruct (Z.eq_dec c 0) as [->|].
      + rewrite Z.bits_0. apply andb_false_r.
      + rewrite (Z.bits_above_log2 c n); [apply andb_false_r|lia|].
        apply Z.lt_le_trans with k; [apply Z.log2_lt_pow2; lia|lia]. }
  rewrite <- Z.lxor_lor, <- Z.add_nocarry_lxor by exact Hland.
  reflexivity.
Qed.

Lemma oid_step_value : forall value b,
    0 <= value ->
    Z.lor (u64 (Z.shiftl value 7)) (Z.land (b2z b) 0x7F) =
    (value * 128 + b2z b mod 128) mod 2 ^ 64.
Proof.
  intros value b Hv. pose proof (b2z_range b) as Hb.
  rewrite land_0x7F_mod by lia. unfold u64.
  rewrite Z.shiftl_mul_pow2 by lia. change (2 ^ 7) with 128.
  pose proof (Z.mod_pos_bound (b2z b) 128) as Hc.
  pose proof (Z.mod_pos_bound (value * 128) (2 ^ 64)) as Hs.
  assert (Hm : ((value * 128) mod 2 ^ 64) mod 128 = 0).
  { rewrite (Z.mod_eq (value * 128) (2 ^ 64)) by lia.
    replace (value * 128 - 2 ^ 64 * (value * 128 / 2 ^ 64))
      with ((value - 2 ^ 57 * (value * 128 / 2 ^ 64)) * 128) by lia.
    apply Z_mod_mult. }
  rewrite (lor_low_bits 7) by (try exact Hm; lia).
  rewrite <- (Z.add_mod_idemp_l (value * 128)) by lia.
  symmetry. apply Z.mod_small.
  pose proof (Z.div_mod ((value * 128) mod 2 ^ 64) 128). rewrite Hm in *.
  lia.
Qed.

Lemma oidChunk_complete :
  forall init final rest value,
    forallb continues init = true ->
    continues final = false ->
    oidChunk value (init ++ final :: rest) =
    (fold_left oidStep (init ++ [final]) value, rest).
Proof.
  induction init as [|b init IH]; intros final rest value Hall Hfin.
  - cbn [app oidChunk fold_left]. unfold continues in Hfin.
    apply negb_false_iff in Hfin. rewrite Hfin. reflexivity.
  - cbn [forallb] in Hall. apply andb_prop in Hall as [Hb Hall].
    cbn [app oidChunk fold_left]. unfold continues in Hb.
    apply negb_true_iff in Hb. rewrite Hb.
    now apply IH.
Qed.

Lemma oidStep_nonneg : forall value b, 0 <= value -> 0 <= oidStep value b < 2 ^ 64.
Proof.
  intros value b Hv. unfold oidStep. rewrite oid_step_value by assumption.
  apply Z.mod_pos_bound. lia.
Qed.

Lemma fold_oidStep_value :
  forall chunk v w,
    chunk <> [] -> 0 <= v -> 0 <= w ->
    v mod 2 ^ 64 = w mod 2 ^ 64 ->
    fold_left oidStep chunk v =
    fold_left (fun value b => value * 128 + b2z b mod 128) chunk w mod 2 ^ 64.
Proof.
  induction chunk as [|b rest IH]; intros v w Hne Hv Hw Heq; [congruence|].
  cbn [fold_left].
  pose proof (Z.mod_pos_bound (b2z b) 128) as Hc.
  assert (Hstep : oidStep v b = (w * 128 + b2z b mod 128) mod 2 ^ 64).
  { unfold oidStep. rewrite oid_step_value by assumption.
    rewrite <- (Z.add_mod_idemp_l (v * 128)), <- (Z.add_mod_idemp_l (w * 128)) by lia.
    rewrite <- (Z.mul_mod_idemp_l v), <- (Z.mul_mod_idemp_l w) by lia.
    now rewrite Heq. }
  destruct rest as [|b' rest'].
  - cbn [fold_left]. exact Hstep.
  - apply IH; try discriminate.
    + apply oidStep_nonneg. assumption.
    + nia.
    + rewrite Hstep. apply Z.mod_mod. lia.
Qed.

Lemma forallb_rev : forall (f : byte -> bool) l,
    forallb f (rev l) = forallb f l.
Proof.
  intros f l. destruct (forallb f l) eqn:H.
  - apply forallb_forall. intros x Hx. apply in_rev in Hx.
    rewrite forallb_forall in H. now apply H.
  - destruct (forallb f (rev l)) eqn:H'; [|reflexivity].
    rewrite forallb_forall in H'.
    assert (forallb f l = true); [|congruence].
    apply forallb_forall. intros x Hx. apply H'. now apply in_rev in Hx.
Qed.

Lemma oidChunk_wellFormed :
  forall chunk rest,
    wellFormedChunk chunk = true ->
    chunk <> [] /\
    oidChunk 0 (chunk ++ rest) = (base128 chunk mod 2 ^ 64, rest).
Proof.
  intros chunk rest Hwf. unfold wellFormedChunk in Hwf.
  destruct (rev chunk) as [|final rinit] eqn:Hrev; [discriminate|].
  apply andb_prop in Hwf as [Hfin Hall].
  assert (Hc : chunk = rev rinit ++ [final]).
  { rewrite <- (rev_involutive chunk), Hrev. reflexivity. }
  assert (Hne : chunk <> []) by (rewrite Hc; destruct (rev rinit); discriminate).
  split; [exact Hne|].
  rewrite Hc at 1. rewrite <- app_assoc. cbn [app].
  rewrite oidChunk_complete;
    [|now rewrite forallb_rev|now apply negb_true_iff in Hfin].
  rewrite <- Hc. f_equal.
  apply fold_oidStep_value; try assumption; lia.
Qed.

Lemma oidSubidentifiers_wellFormed :
  forall chunks,
    forallb wellFormedChunk chunks = true ->
    oidSubidentifiers (List.length (List.concat chunks)) (List.concat chunks) =
    map (fun chunk => base128 chunk mod 2 ^ 64) chunks.
Proof.
  induction chunks as [|chunk chunks IH]; intro Hall; [reflexivity|].
  cbn [forallb] in Hall. apply andb_prop in Hall as [Hwf Hall].
  destruct (oidChunk_wellFormed chunk (List.concat chunks) Hwf) as [Hne Hchunk].
  cbn [List.concat map].
  destruct chunk as [|b chunk']; [congruence|].
  cbn [app List.length] in *.
  rewrite oidSubidentifiers_step, Hchunk. cbn [fst snd]. f_equal.
  rewrite <- IH by assumption.
  apply oidSubidentifiers_fuel; rewrite ?length_app; lia.
Qed.

(** An OID content made of a first byte and arcs written in base 128
    (continuation bit on every byte of an arc but the last) decodes to
    [first / 40], [first mod 40] and the value of each arc modulo 2^64, joined
    with dots. *)
Theorem well_formed_oid_decodes_to_its_arcs :
  forall first chunks,
    forallb wellFormedChunk chunks = true ->
    oidArcs (first :: List.concat chunks) =
      [b2z first / 40; b2z first mod 40] ++
      map (fun chunk => base128 chunk mod 2 ^ 64) chunks /\
    parseOID (first :: List.concat chunks) =
      String.concat "." (map fmt_d ([b2z first / 40; b2z first mod 40] ++
                                    map (fun chunk => base128 chunk mod 2 ^ 64) chunks)).
Proof.
  intros first chunks Hall.
  assert (Harcs : oidArcs (first :: List.concat chunks) =
                  [b2z first / 40; b2z first mod 40] ++
                  map (fun chunk => base128 chunk mod 2 ^ 64) chunks).
  { unfold oidArcs. now rewrite oidSubidentifiers_wellFormed. }
  split; [exact Harcs|]. unfold parseOID. now rewrite Harcs.
Qed.

Section SearchReturns.

Variable Unmarshal : list byte -> option (asn1.RawValue * list byte).
Hypothesis Hcuts : cutsFromBuffer Unmarshal.

Lemma tryCandidate_returns :
  forall fuel data i,
    shortLengths data = true -> len data < 2 ^ 62 ->
    (List.length data < fuel)%nat ->
    0 <= i <= len data - 2 ->
    exists r, tryCandidate Unmarshal fuel data i = Done r.
Proof.
  intros fuel data i Hs Hbig Hfuel Hi. unfold tryCandidate.
  destruct (index_ok data i) as (b0 & _ & ->); [lia|]. cbn [bind].
  destruct (b2z b0 =? 48); [|eauto].
  rewrite add_small by (unfold GoInt.in_range; lia).
  destruct (index_ok data (i + 1)) as (b1 & _ & ->); [lia|]. cbn [bind].
  destruct (b2z b1 =? 130); [|eauto].
  destruct (slice_from_ok data i) as [-> Hlen]; [lia|]. cbn [bind].
  destruct (Unmarshal (skipn (Z.to_nat i) data)) as [[raw rest]|] eqn:HU; [|eauto].
  destruct (Hcuts _ _ _ HU) as [n Hfull].
  assert (Hsf : shortLengths (asn1.FullBytes raw) = true).
  { rewrite Hfull. now apply shortLengths_firstn, shortLengths_skipn. }
  assert (Hlf : len (asn1.FullBytes raw) <= len data).
  { rewrite Hfull. unfold len. rewrite length_firstn, length_skipn. lia. }
  pose proof (len_nonneg (asn1.FullBytes raw)).
  destruct (findFieldsInASN1_from_returns fuel (asn1.FullBytes raw) 0 zeroValidation)
    as [v Hv]; try assumption; try lia.
  { unfold len in *. lia. }
  unfold validateSignatureFields, findFieldsInASN1. rewrite Hv. cbn [bind].
  destruct (negb (IsValid v)); eauto.
Qed.

End SearchReturns.

Lemma unmarshalSequence2_cutsFromBuffer : cutsFromBuffer unmarshalSequence2.
Proof.
  intros buffer raw rest.
  destruct buffer as [|t [|l [|hi [|lo content]]]]; try discriminate.
  cbn [unmarshalSequence2].
  destruct (_ && _); [|discriminate]. cbv zeta.
  destruct (_ <=? _); [|discriminate].
  intro H. inversion H; subst; clear H.
  exists (4 + Z.to_nat (b2z hi * 256 + b2z lo))%nat. reflexivity.
Qed.

(** ** The display *)

Section DisplayFacts.

Variable quote : string -> string.

Lemma parseAndDisplayASN1_from_unfold :
  forall fuel data depth baseOffset offset,
    parseAndDisplayASN1_from quote (S fuel) data depth baseOffset offset =
    if offset <? len data
    then
      rest <- slice_from data offset ;;
      '(element, bytesRead, err) <-
        parseASN1Element rest depth (GoInt.add baseOffset offset) ;;
      match err with
      | Some e => Done ([], Some e)
      | None =>
          let line := displayElement element (elementTagName element)
                                     (elementContent quote rest element) in
          inner <- compoundContent data offset element bytesRead ;;
          below <-
            match inner with
            | Some content =>
                '(lines, err) <-
                  parseAndDisplayASN1_from quote fuel content (GoInt.add depth 1)
                    (GoInt.add (GoInt.add baseOffset offset) (HeaderLen element)) 0 ;;
                match err with
                | Some _ =>
                    dump <- hexDumpLine depth content ;;
                    Done (lines ++ [dump])
                | None => Done lines
                end
            | None => Done []
            end ;;
          '(later, err) <-
            parseAndDisplayASN1_from quote fuel data depth baseOffset
                                     (GoInt.add offset bytesRead) ;;
          Done (line :: below ++ later, err)
      end
    else Done ([], None).
Proof. reflexivity. Qed.

Lemma display_returns_when_fields_do :
  forall fuel data offset validation result,
    findFieldsInASN1_from fuel data offset validation = Done result ->
    forall depth baseOffset,
      0 <= depth -> depth + Z.of_nat fuel < 2 ^ 62 ->
      exists lines err,
        parseAndDisplayASN1_from quote fuel data depth baseOffset offset =
        Done (lines, err).
Proof.
  induction fuel as [|fuel IH]; intros data offset validation result Hf;
    [discriminate|].
  intros depth baseOffset Hd Hbound.
  rewrite findFieldsInASN1_from_unfold in Hf.
  rewrite parseAndDisplayASN1_from_unfold.
  destruct (offset <? len data); [|eauto].
  destruct (slice_from data offset) as [rest| |]; try discriminate.
  cbn [bind] in *.
  destruct (parseASN1Element rest 0 offset) as [[[e n] err]| |] eqn:Hp;
    try discriminate.
  destruct (decode_same_at_any_depth _ _ _ depth (GoInt.add baseOffset offset) _ _ _ Hp)
    as (e' & -> & HH & HL & HT & HI).
  cbn [bind] in *.
  destruct err; [eauto|]. cbv zeta.
  destruct (valueAfterOID data offset e n) as [found| |]; try discriminate.
  cbn [bind] in Hf.
  rewrite (compoundContent_fields data offset e e' n HH HL HI).
  destruct (compoundContent data offset e n) as [inner| |]; try discriminate.
  cbn [bind] in *.
  destruct inner as [content|].
  - match type of Hf with
    | bind ?m _ = _ => destruct m as [v1| |] eqn:Hin; try discriminate
    end.
    cbn [bind] in Hf.
    assert (Hd1 : GoInt.add depth 1 = depth + 1)
      by (apply add_small; unfold GoInt.in_range; lia).
    destruct (IH _ _ _ _ Hin (GoInt.add depth 1)
                 (GoInt.add (GoInt.add baseOffset offset) (HeaderLen e')))
      as (lines & err1 & ->); [lia|lia|].
    cbn [bind].
    destruct (IH _ _ _ _ Hf depth baseOffset) as (later & err2 & Hl); [lia|lia|].
    destruct err1.
    + unfold hexDumpLine. rewrite Hd1.
      destruct (Z.ltb_spec (depth + 1) 0); [lia|].
      cbn [bind]. rewrite Hl. cbn [bind]. eauto.
    + cbn [bind]. rewrite Hl. cbn [bind]. eauto.
  - cbn [bind] in *.
    destruct (IH _ _ _ _ Hf depth baseOffset) as (later & err2 & ->); [lia|lia|].
    cbn [bind]. eauto.
Qed.

Lemma display_returns_when_field_walk_returns :
  forall fuel data validation result baseOffset,
    findFieldsInASN1 fuel data validation = Done result ->
    Z.of_nat fuel < 2 ^ 62 ->
    exists lines err, Display quote fuel data baseOffset = Done (lines, err).
Proof.
  intros fuel data validation result baseOffset Hf Hfuel.
  unfold Display, parseAndDisplayASN1.
  eapply display_returns_when_fields_do; [exact Hf|lia|lia].
Qed.

End DisplayFacts.

(** For the tag numbers a decode can produce (0 to 31), the name given
    by [getTagName] determines the tag number and the constructed flag. *)
Theorem tag_name_identifies_tag :
  forall t1 c1 t2 c2,
    0 <= t1 <= 31 -> 0 <= t2 <= 31 ->
    getTagName t1 c1 = getTagName t2 c2 ->
    t1 = t2 /\ c1 = c2.
Proof.
  intros t1 c1 t2 c2 H1 H2 Hname.
  assert (Hall :
    forallb (fun p =>
      forallb (fun q =>
        implb (String.eqb (getTagName (fst p) (snd p)) (getTagName (fst q) (snd q)))
              ((fst p =? fst q) && Bool.eqb (snd p) (snd q)))
        decodedTags) decodedTags = true) by (vm_compute; reflexivity).
  assert (Hin : forall t c, 0 <= t <= 31 -> In (t, c) decodedTags).
  { intros t c Ht. apply in_prod.
    - replace t with (Z.of_nat (Z.to_nat t)) by lia.
      apply in_map, in_seq. lia.
    - destruct c; cbn; auto. }
  rewrite forallb_forall in Hall.
  specialize (Hall _ (Hin t1 c1 H1)). rewrite forallb_forall in Hall.
  specialize (Hall _ (Hin t2 c2 H2)). cbn [fst snd] in Hall.
  rewrite Hname, String.eqb_refl in Hall. cbn [implb] in Hall.
  apply andb_prop in Hall as [Ht Hc].
  split; [now apply Z.eqb_eq|now apply Bool.eqb_prop].
Qed.

Lemma integerValue_no_overflow :
  forall rest v,
    0 <= v ->
    (v + 1) * 256 ^ len rest <= 2 ^ 63 ->
    fold_left (fun value b => Z.lor (GoInt.shl value 8) (b2z b)) rest v =
      bigEndian rest v /\
    0 <= bigEndian rest v /\
    bigEndian rest v + 1 <= (v + 1) * 256 ^ len rest.
Proof.
  induction rest as [|b rest IH]; intros v Hv Hbound.
  - cbn [fold_left bigEndian]. change (len []) with 0. rewrite Z.pow_0_r. lia.
  - pose proof (b2z_range b) as Hb. pose proof (len_nonneg rest) as Hr.
    rewrite len_cons in *.
    replace (1 + len rest) with (Z.succ (len rest)) in * by lia.
    rewrite Z.pow_succ_r in * by lia.
    assert (Hp' : 0 < 256 ^ len rest) by (apply Z.pow_pos_nonneg; lia).
    cbn [fold_left]. unfold bigEndian. cbn [fold_left]. fold (bigEndian rest (v * 256 + b2z b)).
    assert (Hshl : GoInt.shl v 8 = Z.shiftl v 8).
    { unfold GoInt.shl. apply wrap_small. unfold GoInt.in_range.
      rewrite Z.shiftl_mul_pow2 by lia. change (2 ^ 8) with 256. nia. }
    rewrite Hshl, lor_shift_byte by lia.
    destruct (IH (v * 256 + b2z b)) as (Heq & Hge & Hle); [lia|nia|].
    rewrite Heq. repeat split; try assumption. nia.
Qed.

Lemma fmt_int_nonneg : forall z, 0 <= z -> fmt_int z = fmt_d z.
Proof.
  intros z Hz. unfold fmt_int. destruct (Z.ltb_spec z 0); [lia|reflexivity].
Qed.

Section IntegerFormat.

Variable quote : string -> string.

(** An INTEGER of at most 8 bytes whose first byte has its top bit clear
    is shown as the decimal big-endian value of its bytes, followed by the
    bytes in upper-case hexadecimal. *)
Theorem integer_without_sign_bit_is_shown_unsigned :
  forall content,
    (List.length content <= 8)%nat ->
    match content with
    | first :: _ => b2z first < 128
    | [] => True
    end ->
    formatPrimitiveContent quote TagInteger content =
    (fmt_d (bigEndian content 0) ++ " (0x" ++ hexUpper content ++ ")")%string.
Proof.
  intros content Hlen Hfirst. unfold formatPrimitiveContent.
  change (TagInteger =? 1) with false. change (TagInteger =? TagInteger) with true.
  cbv iota.
  destruct (Z.leb_spec (len content) 8); [|unfold len in *; lia].
  cbv zeta.
  destruct content as [|first rest].
  - reflexivity.
  - pose proof (b2z_range first) as Hb.
    rewrite land_high_bit_small by lia. cbn [Z.eqb negb].
    unfold integerValue. cbn [fold_left].
    change (GoInt.shl 0 8) with 0. rewrite Z.lor_0_l.
    cbn [List.length] in Hlen.
    assert (Hpow : 256 ^ len rest <= 256 ^ 7)
      by (apply Z.pow_le_mono_r; unfold len; lia).
    change (256 ^ 7) with 72057594037927936 in Hpow.
    assert (Hp' : 0 < 256 ^ len rest)
      by (apply Z.pow_pos_nonneg; [lia|apply len_nonneg]).
    destruct (integerValue_no_overflow rest (b2z first)) as (Heq & Hge & _);
      [lia|change (2 ^ 63) with 9223372036854775808; nia|].
    rewrite Heq. unfold bigEndian at 2. cbn [fold_left].
    change (0 * 256 + b2z first) with (b2z first).
    fold (bigEndian rest (b2z first)).
    now rewrite fmt_int_nonneg.
Qed.

Lemma signExtend_mask :
  forall n value,
    (1 <= n <= 7)%nat ->
    signExtend n value = Z.lor value (2 ^ (8 * (8 - Z.of_nat n)) - 1).
Proof.
  intros n value Hn. unfold signExtend.
  assert (Hcases : (n = 1 \/ n = 2 \/ n = 3 \/ n = 4 \/ n = 5 \/ n = 6 \/ n = 7)%nat)
    by lia.
  destruct Hcases as [-> | [-> | [-> | [-> | [-> | [-> | ->]]]]]];
    cbn [seq fold_left Nat.sub]; rewrite <- ?Z.lor_assoc; f_equal.
Qed.

(** An INTEGER of 1 to 7 bytes whose first byte has its top bit set is
    not shown as a negative number: the extension loop sets the low
    [8 - n] bytes of the value, so the number shown is the big-endian value of
    the bytes with its low [8 * (8 - n)] bits set. *)
Theorem short_integer_with_sign_bit_is_shown_non_negative :
  forall first rest,
    128 <= b2z first ->
    (List.length rest <= 6)%nat ->
    formatPrimitiveContent quote TagInteger (first :: rest) =
      (fmt_d (Z.lor (bigEndian (first :: rest) 0)
                    (2 ^ (8 * (8 - len (first :: rest))) - 1)) ++
       " (0x" ++ hexUpper (first :: rest) ++ ")")%string /\
    0 <= Z.lor (bigEndian (first :: rest) 0) (2 ^ (8 * (8 - len (first :: rest))) - 1).
Proof.
  intros first rest Hfirst Hlen.
  pose proof (b2z_range first) as Hb. pose proof (len_nonneg rest) as Hr.
  assert (Hpow : 256 ^ len rest <= 256 ^ 6)
    by (apply Z.pow_le_mono_r; unfold len; lia).
  change (256 ^ 6) with 281474976710656 in Hpow.
  assert (Hp' : 0 < 256 ^ len rest) by (apply Z.pow_pos_nonneg; lia).
  destruct (integerValue_no_overflow rest (b2z first)) as (Heq & Hge & _);
    [lia|change (2 ^ 63) with 9223372036854775808; nia|].
  assert (Hbe : bigEndian (first :: rest) 0 = bigEndian rest (b2z first)).
  { unfold bigEndian. cbn [fold_left]. reflexivity. }
  assert (Hmask : 0 <= 2 ^ (8 * (8 - len (first :: rest))) - 1).
  { assert (0 < 2 ^ (8 * (8 - len (first :: rest)))); [|lia].
    apply Z.pow_pos_nonneg; [lia|]. rewrite len_cons. unfold len. lia. }
  assert (Hnn : 0 <= Z.lor (bigEndian (first :: rest) 0)
                          (2 ^ (8 * (8 - len (first :: rest))) - 1)).
  { apply Z.lor_nonneg. split; [rewrite Hbe; exact Hge|exact Hmask]. }
  split; [|exact Hnn].
  unfold formatPrimitiveContent.
  change (TagInteger =? 1) with false. change (TagInteger =? TagInteger) with true.
  cbv iota.
  destruct (Z.leb_spec (len (first :: rest)) 8);
    [|rewrite len_cons in *; unfold len in *; lia].
  cbv zeta.
  replace (Z.land (b2z first) 128 =? 0) with false
    by (symmetry; apply Z.eqb_neq, land_high_bit_large; lia).
  cbn [negb].
  rewrite signExtend_mask by (cbn [List.length]; lia).
  unfold integerValue. cbn [fold_left].
  change (GoInt.shl 0 8) with 0. rewrite Z.lor_0_l.
  rewrite Heq, <- Hbe.
  replace (Z.of_nat (List.length (first :: rest))) with (len (first :: rest))
    by reflexivity.
  now rewrite fmt_int_nonneg.
Qed.

End IntegerFormat.

(** ** The walks on bounded lengths, and after acceptance *)

(** On data in which no byte is 0x88 or more (no length field of more
    than seven octets can be read), the three walks return, without panic,
    within [len(data) + 1] units of fuel. *)
Theorem walks_return_on_short_lengths :
  forall quote data validation baseOffset,
    shortLengths data = true ->
    len data < 2 ^ 61 ->
    (exists result,
        findFieldsInASN1 (S (List.length data)) data validation = Done result) /\
    (exists keySize,
        calculateKeySize (S (List.length data)) data = Done keySize) /\
    (exists lines err,
        Display quote (S (List.length data)) data baseOffset = Done (lines, err)).
Proof.
  intros quote data validation baseOffset Hs Hbig.
  destruct (field_walk_returns_on_short_lengths data validation Hs)
    as [result Hf]; [lia|].
  split; [eauto|]. split.
  - unfold findFieldsInASN1 in Hf.
    apply (findLastOctetString_returns_when_fields_do _ _ _ _ _ Hf 0 zeroElement 0).
  - eapply display_returns_when_field_walk_returns; [exact Hf|].
    unfold len in Hbig. lia.
Qed.

(** What [main] does after a successful search cannot fail to return:
    on the structure that [FindValidSignature] accepted, the field
    extraction returns a valid result, and [calculateKeySize] and [Display]
    return as well. *)
Theorem accepted_structure_can_be_analysed :
  forall Unmarshal quote fuel data raw i,
    FindValidSignature Unmarshal fuel data = Done (Some raw, i, None) ->
    Z.of_nat fuel < 2 ^ 62 ->
    exists validation keySize lines err,
      validateSignatureFields fuel (asn1.FullBytes raw) = Done validation /\
      IsValid validation = true /\
      calculateKeySize fuel (asn1.FullBytes raw) = Done keySize /\
      Display quote fuel (asn1.FullBytes raw) i = Done (lines, err).
Proof.
  intros Unmarshal quote fuel data raw i H Hfuel. unfold FindValidSignature in H.
  apply scan_result in H as (_ & Hacc & _).
  apply tryCandidate_accepts in Hacc as (_ & _ & _ & v & Hv & Hvalid).
  destruct (findLastOctetString_returns_when_fields_do
              _ _ _ _ _ Hv 0 zeroElement 0) as [k Hk].
  destruct (display_returns_when_field_walk_returns quote _ _ _ _ i Hv Hfuel)
    as (lines & err & Hd).
  exists v, k, lines, err. repeat split; assumption.
Qed.

(** ** Instances *)

Lemma decode_short_form_witness :
  parseASN1Element [x04; x02; xaa; xbb; xcc] 1 7 =
  Done (mkElement 1 7 2 2 TagOctetString 0 false, 4, None).
Proof.
  apply (decode_short_form x04 x02 [xaa; xbb; xcc] 1 7); reflexivity.
Defined.

Lemma decode_with_bounded_length_witness :
  exists e n err,
    parseASN1Element [x30; x82; x01; x00; x05] 0 0 = Done (e, n, err) /\
    (err = None ->
     0 <= Length e < 2 ^ 56 /\ 2 <= HeaderLen e <= 9 /\
     n = HeaderLen e + Length e /\ n <= len [x30; x82; x01; x00; x05]) /\
    (err <> None -> n = 0).
Proof.
  apply (decode_with_bounded_length [x30; x82; x01; x00; x05] 0 0).
  - reflexivity.
  - intros lb Hlb. inversion Hlb. reflexivity.
Defined.

Lemma decode_long_form_witness :
  parseASN1Element (x30 :: x82 :: [x01; x02] ++ [x05; x00]) 0 0 =
  Done (elementOf x30 0 0 4 258, 0,
        Some "element extends beyond available data"%string).
Proof.
  apply (decode_long_form x30 x82 [x01; x02] [x05; x00] 0 0).
  - discriminate.
  - cbn. lia.
  - reflexivity.
  - reflexivity.
Defined.

Lemma decode_error_consumes_nothing_witness :
  0 = 0 /\
  ("indefinite length not supported"%string =
     "insufficient data for ASN.1 element"%string \/
   "indefinite length not supported"%string =
     "indefinite length not supported"%string \/
   "indefinite length not supported"%string =
     "insufficient data for length octets"%string \/
   "indefinite length not supported"%string =
     "element extends beyond available data"%string).
Proof.
  apply (decode_error_consumes_nothing [x30; x80; x00; x00] 0 0
           (mkElement 0 0 0 0 TagSequence 0 true) 0
           "indefinite length not supported"%string).
  reflexivity.
Defined.

Lemma decode_unchanged_by_appended_bytes_witness :
  parseASN1Element ([x02; x01; x05] ++ [xff; xff]) 3 9 =
  Done (mkElement 3 9 2 1 TagInteger 0 false, 3, None).
Proof.
  apply (decode_unchanged_by_appended_bytes [x02; x01; x05] [xff; xff] 3 9).
  reflexivity.
Defined.

Lemma search_returns_rightmost_accepted_witness :
  FindValidSignature unmarshalSequence2 20
    ([x4d; x5a] ++ completeSignature ++ [xde; xad; xbe; xef]) =
    Done (Some (asn1.mkRawValue 0 16 true (skipn 4 completeSignature) completeSignature),
          2, None) <->
  0 <= 2 <= len ([x4d; x5a] ++ completeSignature ++ [xde; xad; xbe; xef]) - 2 /\
  tryCandidate unmarshalSequence2 20
    ([x4d; x5a] ++ completeSignature ++ [xde; xad; xbe; xef]) 2 =
    Done (Some (asn1.mkRawValue 0 16 true (skipn 4 completeSignature) completeSignature)) /\
  forall j,
    2 < j <= len ([x4d; x5a] ++ completeSignature ++ [xde; xad; xbe; xef]) - 2 ->
    tryCandidate unmarshalSequence2 20
      ([x4d; x5a] ++ completeSignature ++ [xde; xad; xbe; xef]) j = Done None.
Proof.
  apply (search_returns_rightmost_accepted unmarshalSequence2 20
           ([x4d; x5a] ++ completeSignature ++ [xde; xad; xbe; xef])
           (asn1.mkRawValue 0 16 true (skipn 4 completeSignature) completeSignature) 2).
  reflexivity.
Defined.

Lemma search_without_marker_fails_witness :
  FindValidSignature unmarshalSequence2 5 [x30; x81; x02; x30; x30] =
  Done (None, 0, Some noSignature).
Proof.
  apply (search_without_marker_fails unmarshalSequence2 5 [x30; x81; x02; x30; x30]);
    reflexivity.
Defined.


Lemma flags_are_never_cleared_witness :
  fst (fieldOf OIDCountryName
         (mkValidation true true false false false "B" "XX" "" "" "")) = true.
Proof.
  apply (flags_are_never_cleared 30 twoCommonNames
           (mkValidation false true false false false "" "XX" "" "" "")
           (mkValidation true true false false false "B" "XX" "" "" "")
           OIDCountryName).
  - vm_compute. reflexivity.
  - right. left. reflexivity.
  - reflexivity.
Defined.

Lemma recorded_values_are_not_empty_witness :
  snd (fieldOf OIDCommonName
         (mkValidation true false false false false "B" "" "" "" "")) <> ""%string.
Proof.
  apply (recorded_values_are_not_empty 30 twoCommonNames
           (mkValidation true false false false false "B" "" "" "" "")
           OIDCommonName).
  - vm_compute. reflexivity.
  - left. reflexivity.
  - reflexivity.
Defined.

Lemma key_size_comes_from_a_decoded_element_witness :
  8 = 0 \/
  exists trace e,
    walkTrace 10 octetThenInteger 0 = Done trace /\
    In e (visitedElements trace) /\
    Tag e = TagOctetString /\
    8 = GoInt.mul (Length e) 8.
Proof.
  apply (key_size_comes_from_a_decoded_element 10 octetThenInteger 8).
  vm_compute. reflexivity.
Defined.

Lemma well_formed_oid_decodes_to_its_arcs_witness :
  oidArcs (x2a :: List.concat [[x86; x48]; [x86; xf7; x0d]; [x01]]) =
    [b2z x2a / 40; b2z x2a mod 40] ++
    map (fun chunk => base128 chunk mod 2 ^ 64) [[x86; x48]; [x86; xf7; x0d]; [x01]] /\
  parseOID (x2a :: List.concat [[x86; x48]; [x86; xf7; x0d]; [x01]]) =
    String.concat "."
      (map fmt_d ([b2z x2a / 40; b2z x2a mod 40] ++
                  map (fun chunk => base128 chunk mod 2 ^ 64)
                      [[x86; x48]; [x86; xf7; x0d]; [x01]])).
Proof.
  apply (well_formed_oid_decodes_to_its_arcs x2a
           [[x86; x48]; [x86; xf7; x0d]; [x01]]).
  reflexivity.
Defined.

Lemma tag_name_identifies_tag_witness :
  16 = 16 /\ true = true.
Proof.
  apply (tag_name_identifies_tag 16 true 16 true); try lia. reflexivity.
Defined.

Lemma integer_without_sign_bit_is_shown_unsigned_witness :
  formatPrimitiveContent (fun s => s) TagInteger [x01; x23] =
  (fmt_d (bigEndian [x01; x23] 0) ++ " (0x" ++ hexUpper [x01; x23] ++ ")")%string.
Proof.
  apply (integer_without_sign_bit_is_shown_unsigned (fun s => s) [x01; x23]).
  - cbn. lia.
  - reflexivity.
Defined.

Lemma short_integer_with_sign_bit_is_shown_non_negative_witness :
  formatPrimitiveContent (fun s => s) TagInteger [xff] =
    (fmt_d (Z.lor (bigEndian [xff] 0) (2 ^ (8 * (8 - len [xff])) - 1)) ++
     " (0x" ++ hexUpper [xff] ++ ")")%string /\
  0 <= Z.lor (bigEndian [xff] 0) (2 ^ (8 * (8 - len [xff])) - 1).
Proof.
  apply (short_integer_with_sign_bit_is_shown_non_negative (fun s => s) xff []).
  - vm_compute. discriminate.
  - cbn. lia.
Defined.

Lemma walks_return_on_short_lengths_witness :
  (exists result,
      findFieldsInASN1 (S (List.length twoCommonNames)) twoCommonNames zeroValidation =
      Done result) /\
  (exists keySize,
      calculateKeySize (S (List.length twoCommonNames)) twoCommonNames = Done keySize) /\
  (exists lines err,
      Display (fun s => s) (S (List.length twoCommonNames)) twoCommonNames 0 =
      Done (lines, err)).
Proof.
  apply (walks_return_on_short_lengths (fun s => s) twoCommonNames zeroValidation 0);
    reflexivity.
Defined.

Lemma accepted_structure_can_be_analysed_witness :
  exists validation keySize lines err,
    validateSignatureFields 20 completeSignature = Done validation /\
    IsValid validation = true /\
    calculateKeySize 20 completeSignature = Done keySize /\
    Display (fun s => s) 20 completeSignature 2 = Done (lines, err).
Proof.
  apply (accepted_structure_can_be_analysed unmarshalSequence2 (fun s => s) 20
           ([x4d; x5a] ++ completeSignature ++ [xde; xad; xbe; xef])
           (asn1.mkRawValue 0 16 true (skipn 4 completeSignature) completeSignature) 2).
  - vm_compute. reflexivity.
  - reflexivity.
Defined.

(** * Encoded structures *)

(** ** One element *)

Lemma b2z_z2b : forall z, b2z (z2b z) = z mod 256.
Proof.
  intro z. unfold z2b, b2z.
  pose proof (Z.mod_pos_bound z 256) as Hm.
  destruct (Byte.of_N (Z.to_N (z mod 256))) as [b|] eqn:Hb.
  - apply Byte.to_of_N in Hb. rewrite Hb. lia.
  - apply Byte.of_N_None_iff in Hb. lia.
Qed.

Lemma b2z_z2b_small : forall z, 0 <= z < 256 -> b2z (z2b z) = z.
Proof. intros z Hz. rewrite b2z_z2b. now apply Z.mod_small. Qed.

Lemma bigEndian_app : forall l1 l2 acc,
    bigEndian (l1 ++ l2) acc = bigEndian l2 (bigEndian l1 acc).
Proof. intros. unfold bigEndian. apply fold_left_app. Qed.

Lemma bigEndian_shift : forall octets acc,
    bigEndian octets acc = acc * 256 ^ len octets + bigEndian octets 0.
Proof.
  induction octets as [|b octets IH]; intro acc.
  - cbn. lia.
  - change (bigEndian (b :: octets) acc) with (bigEndian octets (acc * 256 + b2z b)).
    change (bigEndian (b :: octets) 0) with (bigEndian octets (0 * 256 + b2z b)).
    rewrite IH, (IH (0 * 256 + b2z b)), len_cons.
    pose proof (len_nonneg octets).
    rewrite Z.pow_add_r by lia. lia.
Qed.

Lemma len_octetsOf : forall k n, len (octetsOf k n) = Z.of_nat k.
Proof.
  induction k as [|k IH]; intro n; [reflexivity|].
  cbn [octetsOf]. rewrite len_app, IH. unfold len. cbn [List.length]. lia.
Qed.

Lemma bigEndian_octetsOf : forall k n,
    0 <= n < 256 ^ Z.of_nat k -> bigEndian (octetsOf k n) 0 = n.
Proof.
  induction k as [|k IH]; intros n Hn.
  - cbn in *. lia.
  - cbn [octetsOf]. rewrite bigEndian_app.
    replace (Z.of_nat (S k)) with (Z.of_nat k + 1) in Hn by lia.
    rewrite Z.pow_add_r in Hn by lia. change (256 ^ 1) with 256 in Hn.
    rewrite IH by (split; [apply Z.div_pos; lia|apply Z.div_lt_upper_bound; lia]).
    cbn [bigEndian fold_left]. rewrite b2z_z2b.
    pose proof (Z.div_mod n 256). lia.
Qed.

Lemma octetCount_range : forall n,
    128 <= n < 2 ^ 56 ->
    (1 <= octetCount n <= 7)%nat /\ n < 256 ^ Z.of_nat (octetCount n).
Proof.
  intros n Hn. unfold octetCount.
  repeat match goal with
         | |- context [?a <? ?b] => destruct (Z.ltb_spec a b)
         end;
    (split; [lia|]); cbn [Z.of_nat Pos.of_succ_nat Pos.succ];
    try assumption.
  change (256 ^ 7) with (2 ^ 56). lia.
Qed.

Lemma len_encodeLength : forall n,
    0 <= n < 2 ^ 56 -> 1 <= len (encodeLength n) <= 8.
Proof.
  intros n Hn. unfold encodeLength.
  destruct (Z.ltb_spec n 128).
  - cbn. lia.
  - rewrite len_cons, len_octetsOf.
    destruct (octetCount_range n) as [Hk _]; lia.
Qed.

(** The header of an encoded element reads back: header length and content
    length, and the element fits the window it starts. *)
Lemma decode_encoded :
  forall t content suffix depth offset,
    len content < 2 ^ 56 ->
    len suffix < 2 ^ 60 ->
    parseASN1Element (encodeElement t content ++ suffix) depth offset =
    Done (elementOf t depth offset (1 + len (encodeLength (len content))) (len content),
          len (encodeElement t content), None).
Proof.
  intros t content suffix depth offset Hc Hs.
  pose proof (len_nonneg content) as Hc0. pose proof (len_nonneg suffix) as Hs0.
  change (2 ^ 56) with 72057594037927936 in *.
  change (2 ^ 60) with 1152921504606846976 in *.
  unfold encodeElement. rewrite len_cons, len_app.
  unfold encodeLength.
  destruct (Z.ltb_spec (len content) 128) as [Hshort|Hlong].
  - cbn [app].
    rewrite parseASN1Element_short_form;
      rewrite ?b2z_z2b_small, ?len_app by lia;
      try (change (2 ^ 62) with 4611686018427387904); try lia.
    change (len [z2b (len content)]) with 1.
    change (1 + 1) with 2.
    now replace (1 + (1 + len content)) with (2 + len content) by lia.
  - destruct (octetCount_range (len content)) as [Hk Hfit];
      [change (2 ^ 56) with 72057594037927936; lia|].
    set (k := octetCount (len content)) in *.
    set (octets := octetsOf k (len content)).
    assert (Hlo : len octets = Z.of_nat k) by apply len_octetsOf.
    assert (Hval : bigEndian octets 0 = len content)
      by (apply bigEndian_octetsOf; lia).
    cbn [app]. rewrite <- !app_assoc.
    set (lb := z2b (128 + Z.of_nat k)).
    assert (Hlb : b2z lb = 128 + Z.of_nat k)
      by (unfold lb; apply b2z_z2b_small; lia).
    set (rest := content ++ suffix).
    assert (Hrest : len rest = len content + len suffix) by apply len_app.
    assert (Hlen : len (t :: lb :: octets ++ rest) = 2 + Z.of_nat k + len rest)
      by (rewrite !len_cons, len_app; lia).
    rewrite parseASN1Element_header. cbv zeta.
    rewrite high_bit_test by lia.
    destruct (Z.ltb_spec (b2z lb) 128); [lia|].
    rewrite land_0x7F_mod by lia.
    replace (b2z lb mod 128) with (Z.of_nat k)
      by (apply Z.mod_unique with 1; lia).
    destruct (Z.eqb_spec (Z.of_nat k) 0); [lia|].
    rewrite add_small by (unfold GoInt.in_range; lia).
    rewrite Hlen.
    destruct (Z.ltb_spec (2 + Z.of_nat k + len rest) (2 + Z.of_nat k)); [lia|].
    destruct (readLength_value (Z.to_nat (Z.of_nat k)) (t :: lb :: octets ++ rest) 0 2 0)
      as [Hread _];
      [change (2 ^ (8 * Z.of_nat 0)) with 1; lia|lia|lia|
       rewrite Hlen; lia|
       rewrite Hlen; change (2 ^ 62) with 4611686018427387904; lia|].
    rewrite Hread. cbn [bind].
    rewrite Nat2Z.id.
    replace k with (List.length octets) at 1 by (unfold len in Hlo; lia).
    change (Z.to_nat 2) with (List.length [t; lb]).
    change (t :: lb :: octets ++ rest) with ([t; lb] ++ octets ++ rest).
    rewrite len_firstn_skipn_app, Hval.
    assert (Hall : len ([t; lb] ++ octets ++ rest) = 2 + Z.of_nat k + len rest)
      by exact Hlen.
    rewrite finishElement_fits;
      cbn [withLength Length HeaderLen]; rewrite ?Hall;
      try (change (2 ^ 62) with 4611686018427387904); try lia.
    unfold elementOf, withLength. cbn [Depth Offset Tag Class IsCompound].
    rewrite len_cons, Hlo.
    replace (1 + (1 + Z.of_nat k)) with (2 + Z.of_nat k) by lia.
    now replace (1 + (1 + Z.of_nat k + len content))
      with (2 + Z.of_nat k + len content) by lia.
Qed.

(** ** Object identifiers, written and read back *)

Lemma continues_z2b : forall z,
    0 <= z < 256 -> continues (z2b z) = negb (z <? 128).
Proof.
  intros z Hz. unfold continues.
  rewrite b2z_z2b_small by assumption. now rewrite high_bit_test.
Qed.

Lemma base128_snoc : forall chunk b,
    base128 (chunk ++ [b]) = base128 chunk * 128 + b2z b mod 128.
Proof. intros. unfold base128. now rewrite fold_left_app. Qed.

Lemma highDigits_spec : forall k n,
    0 <= n < 128 ^ Z.of_nat k ->
    forallb continues (highDigits k n) = true /\ base128 (highDigits k n) = n.
Proof.
  induction k as [|k IH]; intros n Hn.
  - cbn in *. split; [reflexivity|]. unfold base128. cbn. lia.
  - cbn [highDigits].
    destruct (Z.eqb_spec n 0) as [->|Hne]; [split; reflexivity|].
    replace (Z.of_nat (S k)) with (Z.of_nat k + 1) in Hn by lia.
    rewrite Z.pow_add_r in Hn by lia. change (128 ^ 1) with 128 in Hn.
    pose proof (Z.mod_pos_bound n 128) as Hm.
    destruct (IH (n / 128)) as [Hall Hval];
      [split; [apply Z.div_pos; lia|apply Z.div_lt_upper_bound; lia]|].
    split.
    + rewrite forallb_app, Hall. cbn [forallb andb].
      rewrite continues_z2b by lia.
      destruct (Z.ltb_spec (128 + n mod 128) 128); [lia|reflexivity].
    + rewrite base128_snoc, Hval, b2z_z2b_small by lia.
      replace ((128 + n mod 128) mod 128) with (n mod 128)
        by (apply Z.mod_unique with 1; lia).
      pose proof (Z.div_mod n 128). lia.
Qed.

Lemma encodeArc_spec : forall n,
    0 <= n < 2 ^ 64 ->
    wellFormedChunk (encodeArc n) = true /\ base128 (encodeArc n) mod 2 ^ 64 = n.
Proof.
  intros n Hn. unfold encodeArc.
  pose proof (Z.mod_pos_bound n 128) as Hm.
  destruct (highDigits_spec 10 (n / 128)) as [Hall Hval].
  { split; [apply Z.div_pos; lia|].
    apply Z.div_lt_upper_bound; [lia|].
    change (2 ^ 64) with 18446744073709551616 in Hn.
    change (128 ^ Z.of_nat 10) with 1180591620717411303424. lia. }
  split.
  - unfold wellFormedChunk. rewrite rev_app_distr. cbn [rev app].
    rewrite forallb_rev, Hall, continues_z2b by lia.
    destruct (Z.ltb_spec (n mod 128) 128); [reflexivity|lia].
  - rewrite base128_snoc, Hval, b2z_z2b_small by lia.
    rewrite Z.mod_mod by lia.
    pose proof (Z.div_mod n 128).
    rewrite Z.mod_small; lia.
Qed.

Lemma encodeArcs_spec : forall arcs,
    forallb (fun arc => (0 <=? arc) && (arc <? 2 ^ 64)) arcs = true ->
    forallb wellFormedChunk (map encodeArc arcs) = true /\
    map (fun chunk => base128 chunk mod 2 ^ 64) (map encodeArc arcs) = arcs.
Proof.
  induction arcs as [|arc arcs IH]; intro Hall; [split; reflexivity|].
  cbn [forallb] in Hall. apply andb_prop in Hall as [Harc Hall].
  apply andb_prop in Harc as [Hlo Hhi].
  apply Z.leb_le in Hlo. apply Z.ltb_lt in Hhi.
  destruct (encodeArc_spec arc) as [Hwf Hval]; [lia|].
  destruct (IH Hall) as [Hwfs Hvals].
  cbn [map forallb]. rewrite Hwf, Hwfs, Hval, Hvals. split; reflexivity.
Qed.

(** [parseOID] reads the arcs that [encodeOID] wrote. *)
Lemma parseOID_encodeOID : forall arcs,
    validArcs arcs = true ->
    0 < len (encodeOID arcs) /\ parseOID (encodeOID arcs) = dotted arcs.
Proof.
  intros arcs Hvalid.
  destruct arcs as [|first [|second rest]]; try discriminate.
  cbn [validArcs] in Hvalid.
  repeat (apply andb_prop in Hvalid as [Hvalid ?]).
  repeat match goal with
         | H : (_ <=? _) = true |- _ => apply Z.leb_le in H
         | H : (_ <? _) = true |- _ => apply Z.ltb_lt in H
         end.
  destruct (encodeArcs_spec rest) as [Hwf Hvals]; [assumption|].
  cbn [encodeOID]. split.
  - rewrite len_cons. pose proof (len_nonneg (List.concat (map encodeArc rest))). lia.
  - unfold parseOID, oidArcs, dotted.
    rewrite oidSubidentifiers_wellFormed, Hvals by assumption.
    rewrite b2z_z2b_small by lia.
    replace ((40 * first + second) / 40) with first
      by (apply Z.div_unique with second; lia).
    replace ((40 * first + second) mod 40) with second
      by (apply Z.mod_unique with first; lia).
    reflexivity.
Qed.

(** ** The dotted form determines the arcs *)

Lemma fmt_d_inj : forall a b, 0 <= a -> 0 <= b -> fmt_d a = fmt_d b -> a = b.
Proof.
  intros a b Ha Hb H. unfold fmt_d in H.
  apply (f_equal NilEmpty.uint_of_string) in H.
  rewrite !NilEmpty.usu in H. inversion H as [Hu].
  apply (f_equal N.of_uint) in Hu. rewrite !DecimalN.Unsigned.of_to in Hu.
  lia.
Qed.

Lemma fmt_d_not_empty : forall a, fmt_d a <> ""%string.
Proof.
  intros a H. unfold fmt_d in H.
  apply (f_equal NilEmpty.uint_of_string) in H.
  rewrite NilEmpty.usu in H. cbn in H. inversion H as [Hu].
  pose proof (DecimalN.Unsigned.of_to (Z.to_N a)) as Hn.
  rewrite Hu in Hn. cbn in Hn. rewrite <- Hn in Hu. discriminate.
Qed.

Lemma dotFree_string_of_uint : forall d, dotFree (NilEmpty.string_of_uint d) = true.
Proof. induction d; cbn; auto. Qed.

Lemma dotFree_fmt_d : forall a, dotFree (fmt_d a) = true.
Proof. intro a. apply dotFree_string_of_uint. Qed.

Lemma dotFree_split : forall s1 s2 r1 r2,
    dotFree s1 = true -> dotFree s2 = true ->
    (s1 ++ "." ++ r1 = s2 ++ "." ++ r2)%string ->
    s1 = s2 /\ r1 = r2.
Proof.
  induction s1 as [|c s1 IH]; intros s2 r1 r2 H1 H2 Heq.
  - destruct s2 as [|c2 s2].
    + cbn in Heq. inversion Heq. auto.
    + cbn in Heq, H2. inversion Heq; subst c2. discriminate.
  - destruct s2 as [|c2 s2].
    + cbn in Heq, H1. inversion Heq; subst c. discriminate.
    + cbn in Heq, H1, H2. inversion Heq; subst c2.
      apply andb_prop in H1 as [_ H1]. apply andb_prop in H2 as [_ H2].
      destruct (IH s2 r1 r2 H1 H2) as [-> ->]; auto.
Qed.

Lemma dotFree_no_dot : forall s1 r1 s2,
    dotFree s2 = true -> (s1 ++ "." ++ r1)%string <> s2.
Proof.
  induction s1 as [|c s1 IH]; intros r1 s2 H2 Heq.
  - subst s2. discriminate.
  - destruct s2 as [|c2 s2]; [discriminate|].
    cbn in Heq, H2. inversion Heq; subst c2.
    apply andb_prop in H2 as [_ H2]. now apply (IH r1 s2).
Qed.

Lemma dotted_cons : forall a b rest,
    dotted (a :: b :: rest) = (fmt_d a ++ "." ++ dotted (b :: rest))%string.
Proof. reflexivity. Qed.

Lemma dotted_inj : forall arcs1 arcs2,
    Forall (fun arc => 0 <= arc) arcs1 ->
    Forall (fun arc => 0 <= arc) arcs2 ->
    dotted arcs1 = dotted arcs2 -> arcs1 = arcs2.
Proof.
  induction arcs1 as [|a arcs1 IH]; intros arcs2 H1 H2 Heq.
  - destruct arcs2 as [|b [|c arcs2]]; [reflexivity| |].
    + cbn in Heq. symmetry in Heq. now apply fmt_d_not_empty in Heq.
    + rewrite dotted_cons in Heq. cbn in Heq.
      destruct (fmt_d b) eqn:Hb; [now apply fmt_d_not_empty in Hb|discriminate].
  - inversion H1 as [|? ? Ha H1']; subst.
    destruct arcs2 as [|b arcs2].
    + destruct arcs1 as [|c arcs1].
      * cbn in Heq. now apply fmt_d_not_empty in Heq.
      * rewrite dotted_cons in Heq. cbn in Heq.
        destruct (fmt_d a) eqn:Hfa; [now apply fmt_d_not_empty in Hfa|discriminate].
    + inversion H2 as [|? ? Hb H2']; subst.
      destruct arcs1 as [|c arcs1], arcs2 as [|d arcs2].
      * cbn in Heq. f_equal. now apply fmt_d_inj.
      * rewrite dotted_cons in Heq. exfalso.
        symmetry in Heq. revert Heq. apply dotFree_no_dot, dotFree_fmt_d.
      * rewrite dotted_cons in Heq. exfalso.
        revert Heq. apply dotFree_no_dot, dotFree_fmt_d.
      * rewrite !dotted_cons in Heq.
        apply dotFree_split in Heq as [Hab Hrest]; try apply dotFree_fmt_d.
        f_equal; [now apply fmt_d_inj|now apply IH].
Qed.

Lemma validArcs_nonneg : forall arcs,
    validArcs arcs = true -> Forall (fun arc => 0 <= arc) arcs.
Proof.
  intros [|first [|second rest]] Hvalid; try discriminate.
  cbn [validArcs] in Hvalid.
  repeat (apply andb_prop in Hvalid as [Hvalid ?]).
  repeat match goal with
         | H : (_ <=? _) = true |- _ => apply Z.leb_le in H
         | H : (_ <? _) = true |- _ => apply Z.ltb_lt in H
         end.
  repeat constructor; try lia.
  rewrite forallb_forall in H. apply Forall_forall. intros arc Hin.
  specialize (H arc Hin). apply andb_prop in H as [Hlo _]. now apply Z.leb_le in Hlo.
Qed.

(** An object identifier reads back: [parseOID] on the content written for
    a list of arcs yields the arcs in dotted form, and two lists of arcs with
    the same result are the same list. *)
Theorem encoded_oid_reads_back :
  forall arcs,
    validArcs arcs = true ->
    parseOID (encodeOID arcs) = dotted arcs /\
    forall others,
      validArcs others = true ->
      parseOID (encodeOID others) = parseOID (encodeOID arcs) ->
      others = arcs.
Proof.
  intros arcs Hvalid.
  destruct (parseOID_encodeOID arcs Hvalid) as [_ Hread].
  split; [exact Hread|].
  intros others Hothers Heq.
  destruct (parseOID_encodeOID others Hothers) as [_ Hread'].
  rewrite Hread, Hread' in Heq.
  apply dotted_inj; [now apply validArcs_nonneg|now apply validArcs_nonneg|exact Heq].
Qed.

Lemma encoded_oid_reads_back_witness :
  parseOID (encodeOID [1; 2; 840; 113549; 1; 9; 1]) = OIDEmailAddress /\
  forall others,
    validArcs others = true ->
    parseOID (encodeOID others) = parseOID (encodeOID [1; 2; 840; 113549; 1; 9; 1]) ->
    others = [1; 2; 840; 113549; 1; 9; 1].
Proof.
  apply (encoded_oid_reads_back [1; 2; 840; 113549; 1; 9; 1]). reflexivity.
Defined.

(** ** The field walk on an encoded structure *)

Lemma encode_header : forall n, encode n = headerOf n ++ contentOf n.
Proof. intros [arcs|t content|t children]; reflexivity. Qed.

Lemma attributesBelow_constructed : forall t children,
    attributesBelow (Constructed t children) = attributes children.
Proof.
  intros t children. cbn [attributesBelow].
  induction children as [|c rest IH]; [reflexivity|].
  cbn [attributes]. now rewrite IH.
Qed.

Lemma encodeAll_cons : forall n rest,
    encodeAll (n :: rest) = encode n ++ encodeAll rest.
Proof. reflexivity. Qed.

Lemma len_headerOf : forall n, 2 <= len (headerOf n).
Proof.
  intro n. unfold headerOf, encodeLength. rewrite len_cons.
  destruct (_ <? 128).
  - cbn. lia.
  - rewrite len_cons. pose proof (len_nonneg (octetsOf (octetCount (len (contentOf n)))
                                                       (len (contentOf n)))). lia.
Qed.

Lemma len_encode : forall n, len (encode n) = len (headerOf n) + len (contentOf n).
Proof. intro n. now rewrite encode_header, len_app. Qed.

Lemma slice_middle : forall pre mid post,
    slice (pre ++ mid ++ post) (len pre) (len pre + len mid) = Done mid.
Proof.
  intros pre mid post.
  replace (len pre) with (len pre + 0) at 1 by lia.
  rewrite slice_app by lia. unfold slice.
  pose proof (len_nonneg mid). pose proof (len_nonneg post).
  rewrite len_app.
  destruct (Z.leb_spec 0 (len mid)); [|lia].
  destruct (Z.leb_spec (len mid) (len mid + len post)); [|lia].
  cbn [andb Z.leb Z.compare Z.to_nat skipn].
  rewrite Z.sub_0_r. unfold len. rewrite Nat2Z.id.
  rewrite firstn_app, firstn_all, Nat.sub_diag. cbn [firstn].
  now rewrite app_nil_r.
Qed.

(** The element that [parseASN1Element] returns for an encoded element. *)
Lemma decode_node : forall n suffix depth offset,
    len (contentOf n) < 2 ^ 56 ->
    len suffix < 2 ^ 60 ->
    parseASN1Element (encode n ++ suffix) depth offset =
    Done (elementOf (tagOf n) depth offset (len (headerOf n)) (len (contentOf n)),
          len (encode n), None).
Proof.
  intros n suffix depth offset Hc Hs.
  replace (encode n) with (encodeElement (tagOf n) (contentOf n))
    by (destruct n; reflexivity).
  rewrite decode_encoded by assumption.
  unfold headerOf. now rewrite len_cons.
Qed.

Lemma wellFormed_tag : forall n,
    wellFormed n = true ->
    (Z.land (b2z (tagOf n)) 0x1F =? TagObjectID) =
      match n with ObjectIdentifier _ => true | _ => false end /\
    negb (Z.land (b2z (tagOf n)) 0x20 =? 0) =
      match n with Constructed _ _ => true | _ => false end.
Proof.
  intros [arcs|t content|t children] Hwf; cbn [wellFormed tagOf] in *.
  - split; reflexivity.
  - apply andb_prop in Hwf as [Hc Ht].
    unfold constructedBit, tagNumber in *.
    apply negb_true_iff in Ht. apply negb_true_iff in Hc. auto.
  - apply andb_prop in Hwf as [Hwf _]. apply andb_prop in Hwf as [Hc Ht].
    unfold constructedBit, tagNumber in *.
    apply negb_true_iff in Ht. auto.
Qed.

(** An element written with a definite length reads back:
    [parseASN1Element], on the encoding of a well-formed element followed by
    any bytes, succeeds and consumes the element and nothing more; the tag
    number and the constructed flag are those of the identifier byte, the
    header and the content make up the element, and the content it
    delimits is the content that was written. *)
Theorem encoded_element_reads_back :
  forall n suffix depth offset,
    wellFormed n = true ->
    len (contentOf n) < 2 ^ 56 ->
    len suffix < 2 ^ 60 ->
    exists e,
      parseASN1Element (encode n ++ suffix) depth offset =
        Done (e, len (encode n), None) /\
      Tag e = tagNumber (tagOf n) /\
      IsCompound e = match n with Constructed _ _ => true | _ => false end /\
      HeaderLen e + Length e = len (encode n) /\
      slice (encode n ++ suffix) (HeaderLen e) (HeaderLen e + Length e) =
        Done (contentOf n).
Proof.
  intros n suffix depth offset Hwf Hc Hs.
  exists (elementOf (tagOf n) depth offset (len (headerOf n)) (len (contentOf n))).
  split; [now apply decode_node|].
  unfold elementOf. cbn [Tag IsCompound HeaderLen Length].
  split; [reflexivity|].
  split; [now destruct (wellFormed_tag n Hwf)|].
  split; [now rewrite len_encode|].
  rewrite encode_header, <- app_assoc. apply slice_middle.
Qed.

Lemma encoded_element_reads_back_witness :
  exists e,
    parseASN1Element (encode (Primitive x04 (repeat x00 207)) ++ [x05; x00]) 3 7 =
      Done (e, len (encode (Primitive x04 (repeat x00 207))), None) /\
    Tag e = tagNumber (tagOf (Primitive x04 (repeat x00 207))) /\
    IsCompound e = false /\
    HeaderLen e + Length e = len (encode (Primitive x04 (repeat x00 207))) /\
    slice (encode (Primitive x04 (repeat x00 207)) ++ [x05; x00])
          (HeaderLen e) (HeaderLen e + Length e) =
      Done (contentOf (Primitive x04 (repeat x00 207))).
Proof.
  apply (encoded_element_reads_back (Primitive x04 (repeat x00 207)) [x05; x00] 3 7);
    reflexivity.
Defined.

Lemma content_slice : forall pre n suffix,
    len (pre ++ encode n ++ suffix) < 2 ^ 62 ->
    slice (pre ++ encode n ++ suffix)
          (GoInt.add (len pre) (len (headerOf n)))
          (GoInt.add (GoInt.add (len pre) (len (headerOf n))) (len (contentOf n))) =
    Done (contentOf n).
Proof.
  intros pre n suffix Hbig.
  rewrite !len_app, len_encode in Hbig.
  pose proof (len_nonneg pre). pose proof (len_nonneg suffix).
  pose proof (len_nonneg (contentOf n)). pose proof (len_headerOf n).
  change (2 ^ 62) with 4611686018427387904 in Hbig.
  rewrite !add_small
    by (unfold GoInt.in_range; change (2 ^ 63) with 9223372036854775808; lia).
  rewrite encode_header, <- !app_assoc.
  rewrite (app_assoc pre), <- len_app.
  apply slice_middle.
Qed.

Lemma wellFormed_value_length : forall n,
    wellFormed n = true ->
    (len (contentOf n) >? 0) =
      match n with
      | ObjectIdentifier _ => true
      | Primitive _ [] => false
      | Primitive _ _ => true
      | Constructed _ [] => false
      | Constructed _ _ => true
      end.
Proof.
  intros [arcs|t content|t children] Hwf; cbn [contentOf wellFormed] in *.
  - destruct (parseOID_encodeOID arcs Hwf) as [Hpos _].
    destruct (Z.gtb_spec (len (encodeOID arcs)) 0); [reflexivity|lia].
  - destruct content; reflexivity.
  - destruct children as [|c cs]; [reflexivity|].
    rewrite encodeAll_cons, len_app, len_encode.
    pose proof (len_headerOf c). pose proof (len_nonneg (contentOf c)).
    pose proof (len_nonneg (encodeAll cs)).
    destruct (Z.gtb_spec (len (headerOf c) + len (contentOf c) + len (encodeAll cs)) 0);
      [reflexivity|lia].
Qed.

Lemma value_encoded : forall pre n following,
    wellFormed n = true ->
    forallb wellFormed following = true ->
    len (pre ++ encode n ++ encodeAll following) < 2 ^ 56 ->
    exists found,
      valueAfterOID (pre ++ encode n ++ encodeAll following) (len pre)
        (elementOf (tagOf n) 0 (len pre) (len (headerOf n)) (len (contentOf n)))
        (len (encode n)) = Done found /\
      occurrence found = rendered (attributeAt n following).
Proof.
  intros pre n following Hwf Hrest Hbig.
  assert (Hbig62 : len (pre ++ encode n ++ encodeAll following) < 2 ^ 62)
    by (eapply Z.lt_trans; [exact Hbig|reflexivity]).
  pose proof Hbig as Hsize. rewrite !len_app in Hsize.
  pose proof (len_nonneg pre) as Hp. pose proof (len_nonneg (encodeAll following)) as Hf.
  pose proof (len_encode n) as Hn. pose proof (len_headerOf n) as Hh.
  pose proof (len_nonneg (contentOf n)) as Hc.
  change (2 ^ 56) with 72057594037927936 in Hsize.
  destruct (wellFormed_tag n Hwf) as [Htag _].
  unfold valueAfterOID, elementOf. cbn [Tag Length HeaderLen].
  rewrite Htag, (wellFormed_value_length n Hwf).
  destruct n as [arcs|t content|t children];
    try (exists None; split; reflexivity).
  cbn [andb].
  rewrite content_slice by assumption. cbn [bind contentOf].
  destruct (parseOID_encodeOID arcs Hwf) as [_ ->].
  rewrite add_small
    by (unfold GoInt.in_range; change (2 ^ 63) with 9223372036854775808; lia).
  destruct following as [|v more].
  - exists None. split; [|reflexivity].
    cbn [encodeAll map List.concat]. rewrite app_nil_r, len_app.
    destruct (Z.ltb_spec (len pre + len (encode (ObjectIdentifier arcs)))
                         (len pre + len (encode (ObjectIdentifier arcs))));
      [lia|reflexivity].
  - cbn [forallb] in Hrest. apply andb_prop in Hrest as [Hv Hmore].
    rewrite encodeAll_cons in *.
    rewrite !len_app in Hsize.
    pose proof (len_encode v) as Hvl. pose proof (len_headerOf v) as Hvh.
    pose proof (len_nonneg (contentOf v)) as Hvc.
    pose proof (len_nonneg (encodeAll more)) as Hm.
    rewrite !len_app.
    destruct (Z.ltb_spec (len pre + len (encode (ObjectIdentifier arcs)))
                         (len pre + (len (encode (ObjectIdentifier arcs)) +
                                     (len (encode v) + len (encodeAll more)))));
      [|lia].
    rewrite (app_assoc pre), <- (len_app pre).
    rewrite slice_from_app. cbn [bind].
    rewrite decode_node
      by (try (change (2 ^ 56) with 72057594037927936);
          try (change (2 ^ 60) with 1152921504606846976); lia).
    cbn [bind]. unfold elementOf. cbn [IsCompound Length HeaderLen].
    destruct (wellFormed_tag v Hv) as [_ ->].
    rewrite (wellFormed_value_length v Hv).
    destruct v as [arcs'|t' [|b content']|t' children'];
      try (exists None; split; reflexivity).
    + rewrite content_slice
        by (rewrite <- app_assoc; assumption).
      cbn [bind negb andb]. eexists. split; reflexivity.
    + rewrite content_slice
        by (rewrite <- app_assoc; assumption).
      cbn [bind negb andb]. eexists. split; reflexivity.
Qed.

Lemma content_encoded : forall pre n following,
    wellFormed n = true ->
    len (pre ++ encode n ++ encodeAll following) < 2 ^ 56 ->
    compoundContent (pre ++ encode n ++ encodeAll following) (len pre)
      (elementOf (tagOf n) 0 (len pre) (len (headerOf n)) (len (contentOf n)))
      (len (encode n)) =
    Done (match n with
          | Constructed _ (c :: cs) => Some (encodeAll (c :: cs))
          | _ => None
          end).
Proof.
  intros pre n following Hwf Hbig.
  assert (Hbig62 : len (pre ++ encode n ++ encodeAll following) < 2 ^ 62)
    by (eapply Z.lt_trans; [exact Hbig|reflexivity]).
  pose proof Hbig as Hsize. rewrite !len_app in Hsize.
  pose proof (len_nonneg pre) as Hp. pose proof (len_nonneg (encodeAll following)) as Hf.
  pose proof (len_encode n) as Hn. pose proof (len_headerOf n) as Hh.
  pose proof (len_nonneg (contentOf n)) as Hc.
  change (2 ^ 56) with 72057594037927936 in Hsize.
  destruct (wellFormed_tag n Hwf) as [_ Hcons].
  pose proof (wellFormed_value_length n Hwf) as Hpos.
  unfold compoundContent, elementOf. cbn [IsCompound Length HeaderLen].
  rewrite Hcons, Hpos.
  destruct n as [arcs|t content|t [|c cs]]; try reflexivity.
  cbn [andb].
  destruct (Z.gtb_spec (len (contentOf (Constructed t (c :: cs)))) 0) as [Hgt|];
    [|discriminate].
  destruct (Z.ltb_spec (len (headerOf (Constructed t (c :: cs))))
                       (len (encode (Constructed t (c :: cs))))); [|lia].
  rewrite slice_from_app. cbn [bind].
  rewrite len_app.
  rewrite sub_small
    by (unfold GoInt.in_range; change (2 ^ 63) with 9223372036854775808; lia).
  destruct (Z.leb_spec (len (contentOf (Constructed t (c :: cs))))
                       (len (encode (Constructed t (c :: cs))) + len (encodeAll following) -
                        len (headerOf (Constructed t (c :: cs))))); [|lia].
  rewrite content_slice by assumption.
  reflexivity.
Qed.

Lemma rendered_app : forall l1 l2, rendered (l1 ++ l2) = rendered l1 ++ rendered l2.
Proof. intros. unfold rendered. apply map_app. Qed.

(** The field walk over the encoding of well-formed siblings returns, and
    hands their attributes to [setValidationField] in document order. *)
Lemma fieldOccurrences_encoded :
  forall fuel siblings pre,
    forallb wellFormed siblings = true ->
    len (pre ++ encodeAll siblings) < 2 ^ 56 ->
    len (encodeAll siblings) < Z.of_nat fuel ->
    fieldOccurrences_from fuel (pre ++ encodeAll siblings) (len pre) =
    Done (rendered (attributes siblings)).
Proof.
  induction fuel as [|fuel IH]; intros siblings pre Hwf Hbig Hfuel.
  - pose proof (len_nonneg (encodeAll siblings)). cbn in Hfuel. lia.
  - cbn [fieldOccurrences_from].
    destruct siblings as [|n following].
    + cbn [encodeAll map List.concat]. rewrite app_nil_r.
      destruct (Z.ltb_spec (len pre) (len pre)); [lia|reflexivity].
    + cbn [forallb] in Hwf. apply andb_prop in Hwf as [Hn Hrest].
      rewrite encodeAll_cons in *.
      pose proof Hbig as Hsize. rewrite !len_app in Hsize.
      rewrite len_app in Hfuel.
      pose proof (len_nonneg pre) as Hp.
      pose proof (len_nonneg (encodeAll following)) as Hf.
      pose proof (len_encode n) as Hlen. pose proof (len_headerOf n) as Hh.
      pose proof (len_nonneg (contentOf n)) as Hc.
      change (2 ^ 56) with 72057594037927936 in Hsize.
      rewrite !len_app.
      destruct (Z.ltb_spec (len pre) (len pre + (len (encode n) + len (encodeAll following))));
        [|lia].
      rewrite slice_from_app. cbn [bind].
      rewrite decode_node
        by (try (change (2 ^ 56) with 72057594037927936);
            try (change (2 ^ 60) with 1152921504606846976); lia).
      cbn [bind].
      destruct (value_encoded pre n following Hn Hrest Hbig) as (found & -> & Hfound).
      cbn [bind].
      rewrite content_encoded by assumption.
      cbn [bind].
      rewrite add_small
        by (unfold GoInt.in_range; change (2 ^ 63) with 9223372036854775808; lia).
      assert (Hlater :
                fieldOccurrences_from fuel (pre ++ encode n ++ encodeAll following)
                                      (len pre + len (encode n)) =
                Done (rendered (attributes following))).
      { rewrite app_assoc, <- len_app. apply IH.
        - exact Hrest.
        - now rewrite <- app_assoc.
        - lia. }
      cbn [attributes]. rewrite !rendered_app, <- Hfound.
      destruct n as [arcs|t content|t [|c cs]];
        try (rewrite Hlater; reflexivity).
      assert (Hbelow : fieldOccurrences_from fuel (encodeAll (c :: cs)) 0 =
                       Done (rendered (attributes (c :: cs)))).
      { apply (IH (c :: cs) []).
        - cbn [wellFormed] in Hn. now apply andb_prop in Hn as [_ Hn].
        - cbn [app contentOf] in *. change (2 ^ 56) with 72057594037927936. lia.
        - cbn [contentOf] in *. lia. }
      rewrite Hbelow. cbn [bind]. rewrite Hlater. cbn [bind].
      now rewrite attributesBelow_constructed.
Qed.

Lemma attributeAt_valid : forall n following p,
    wellFormed n = true -> In p (attributeAt n following) -> validArcs (fst p) = true.
Proof.
  intros [arcs|t content|t children] [|next more] p Hwf Hin; try contradiction.
  cbn [attributeAt] in Hin.
  destruct (primitiveValue next); [|contradiction].
  destruct Hin as [<-|[]]. exact Hwf.
Qed.

(** Every attribute of a well-formed structure has valid arcs. *)
Lemma attributes_valid : forall bound siblings p,
    (List.length (encodeAll siblings) < bound)%nat ->
    forallb wellFormed siblings = true ->
    In p (attributes siblings) -> validArcs (fst p) = true.
Proof.
  induction bound as [|bound IH]; intros siblings p Hb Hwf Hin; [lia|].
  destruct siblings as [|n following]; [contradiction|].
  cbn [forallb] in Hwf. apply andb_prop in Hwf as [Hn Hrest].
  rewrite encodeAll_cons, length_app in Hb.
  pose proof (len_encode n) as Hlen. pose proof (len_headerOf n) as Hh.
  unfold len in Hlen, Hh.
  cbn [attributes] in Hin. apply in_app_or in Hin as [Hin|Hin].
  - now apply (attributeAt_valid n following).
  - apply in_app_or in Hin as [Hin|Hin].
    + destruct n as [arcs|t content|t children]; try contradiction.
      rewrite attributesBelow_constructed in Hin.
      apply (IH children); [|now cbn [wellFormed] in Hn; apply andb_prop in Hn as [_ Hn]|exact Hin].
      cbn [contentOf] in Hlen. lia.
    + apply (IH following); [lia|exact Hrest|exact Hin].
Qed.

Lemma lastValueOf_rendered : forall arcs found,
    Forall (fun arc => 0 <= arc) arcs ->
    (forall p, In p found -> validArcs (fst p) = true) ->
    lastValueOf (dotted arcs) (rendered found) = lastValueFor arcs found.
Proof.
  intros arcs found Harcs. induction found as [|[a value] rest IH]; intro Hall;
    [reflexivity|].
  cbn [rendered map lastValueOf lastValueFor fst snd].
  fold (rendered rest). rewrite IH by (intros p Hp; apply Hall; now right).
  destruct (lastValueFor arcs rest); [reflexivity|].
  destruct (list_eq_dec Z.eq_dec a arcs) as [->|Hne].
  - now rewrite String.eqb_refl.
  - destruct (String.eqb_spec (dotted a) (dotted arcs)) as [Heq|]; [|reflexivity].
    exfalso. apply Hne. apply dotted_inj; try assumption.
    apply validArcs_nonneg. apply (Hall (a, value)). now left.
Qed.

Lemma recorded_fieldOf : forall a validation,
    recorded a validation = fieldOf (dotted (arcsOf a)) validation.
Proof. intros [] validation; reflexivity. Qed.

Lemma arcsOf_recognized : forall a, recognized (dotted (arcsOf a)).
Proof.
  intros []; unfold recognized;
    [left|right; left|right; right; left|right; right; right; left|
     right; right; right; right]; reflexivity.
Qed.

Lemma arcsOf_nonneg : forall a, Forall (fun arc => 0 <= arc) (arcsOf a).
Proof. intros []; repeat constructor; lia. Qed.

Lemma validateSignatureFields_encoded :
  forall structure fuel,
    forallb wellFormed structure = true ->
    len (encodeAll structure) < 2 ^ 56 ->
    len (encodeAll structure) < Z.of_nat fuel ->
    validateSignatureFields fuel (encodeAll structure) =
    Done (recordAll (rendered (attributes structure)) zeroValidation).
Proof.
  intros structure fuel Hwf Hbig Hfuel.
  unfold validateSignatureFields, findFieldsInASN1.
  rewrite findFieldsInASN1_replays_occurrences.
  change (fieldOccurrences_from fuel (encodeAll structure) 0)
    with (fieldOccurrences_from fuel ([] ++ encodeAll structure) (len [])).
  rewrite fieldOccurrences_encoded by assumption.
  reflexivity.
Qed.

Lemma recorded_last_value :
  forall structure a,
    forallb wellFormed structure = true ->
    recorded a (recordAll (rendered (attributes structure)) zeroValidation) =
    match lastValueFor (arcsOf a) (attributes structure) with
    | Some value => (true, value)
    | None => (false, ""%string)
    end.
Proof.
  intros structure a Hwf.
  rewrite recorded_fieldOf.
  rewrite <- (lastValueOf_rendered (arcsOf a) (attributes structure)).
  - destruct (lastValueOf (dotted (arcsOf a)) (rendered (attributes structure)))
      as [value|] eqn:Hlast.
    + apply recordAll_last_value; [apply arcsOf_recognized|exact Hlast].
    + rewrite recordAll_keeps_field; [|apply arcsOf_recognized|exact Hlast].
      now destruct a.
  - apply arcsOf_nonneg.
  - intros p Hp.
    apply (attributes_valid (S (List.length (encodeAll structure))) structure);
      [lia|exact Hwf|exact Hp].
Qed.

(** In the encoding of a well-formed structure of less than 2^56 bytes the
    field walk returns, and every attribute of [SignatureValidation] holds
    the value that follows the last occurrence of its object identifier in
    document order (depth first, left to right); an attribute that does not
    occur keeps a clear flag and an empty value. *)
Theorem last_occurrence_wins_in_encoded_structure :
  forall structure fuel a,
    forallb wellFormed structure = true ->
    len (encodeAll structure) < 2 ^ 56 ->
    len (encodeAll structure) < Z.of_nat fuel ->
    exists validation,
      validateSignatureFields fuel (encodeAll structure) = Done validation /\
      recorded a validation =
        match lastValueFor (arcsOf a) (attributes structure) with
        | Some value => (true, value)
        | None => (false, ""%string)
        end.
Proof.
  intros structure fuel a Hwf Hbig Hfuel.
  exists (recordAll (rendered (attributes structure)) zeroValidation). split.
  - now apply validateSignatureFields_encoded.
  - now apply recorded_last_value.
Qed.

Lemma last_occurrence_wins_in_encoded_structure_witness :
  exists validation,
    validateSignatureFields 30 twoCommonNames = Done validation /\
    recorded commonName validation = (true, "B"%string).
Proof.
  apply (last_occurrence_wins_in_encoded_structure
           [Constructed x30
              [Constructed x31
                 [Constructed x30 [ObjectIdentifier [2; 5; 4; 3]; Primitive x0c [x41]]];
               Constructed x31
                 [Constructed x30 [ObjectIdentifier [2; 5; 4; 3]; Primitive x0c [x42]]]]]
           30%nat commonName).
  - reflexivity.
  - reflexivity.
  - reflexivity.
Defined.

(** ** Buffers without a byte above 0x87 *)

Lemma oidStep_digits : forall value b,
    0 <= value ->
    0 <= oidStep value b /\
    oidStep value b mod 128 = b2z b mod 128 /\
    (oidStep value b / 128) mod 128 = value mod 128.
Proof.
  intros value b Hv. unfold oidStep. rewrite oid_step_value by assumption.
  pose proof (Z.mod_pos_bound (b2z b) 128) as Hc.
  set (c := b2z b mod 128) in *.
  change (2 ^ 64) with (128 * 2 ^ 57).
  rewrite Z.rem_mul_r by lia.
  replace ((value * 128 + c) mod 128) with c
    by (apply Z.mod_unique with value; lia).
  replace ((value * 128 + c) / 128) with value
    by (apply Z.div_unique with c; lia).
  pose proof (Z.mod_pos_bound value (2 ^ 57)) as Hm.
  split; [lia|]. split.
  - symmetry. apply Z.mod_unique with (value mod 2 ^ 57); lia.
  - replace ((c + 128 * (value mod 2 ^ 57)) / 128) with (value mod 2 ^ 57)
      by (apply Z.div_unique with c; lia).
    change (2 ^ 57) with (128 * 2 ^ 50).
    rewrite Z.rem_mul_r by lia.
    pose proof (Z.mod_pos_bound value 128).
    symmetry. apply Z.mod_unique with ((value / 128) mod 2 ^ 50); lia.
Qed.

Lemma oidChunk_small_digit : forall content value,
    shortLengths content = true ->
    0 <= value -> value mod 128 < 8 -> (value / 128) mod 128 < 8 ->
    0 <= fst (oidChunk value content) /\
    (fst (oidChunk value content) / 128) mod 128 < 8 /\
    shortLengths (snd (oidChunk value content)) = true.
Proof.
  induction content as [|b rest IH]; intros value Hs Hv Hlow Hsecond.
  - cbn. auto.
  - cbn [shortLengths forallb] in Hs. apply andb_prop in Hs as [Hb Hrest].
    apply Z.ltb_lt in Hb. pose proof (b2z_range b) as Hrange.
    cbn [oidChunk]. fold (oidStep value b).
    destruct (oidStep_digits value b Hv) as (Hnn & Hd0 & Hd1).
    rewrite high_bit_test by assumption.
    destruct (Z.ltb_spec (b2z b) 128).
    + cbn [fst snd]. repeat split; [exact Hnn|lia|exact Hrest].
    + apply IH; try assumption.
      * rewrite Hd0. replace (b2z b mod 128) with (b2z b - 128)
          by (apply Z.mod_unique with 1; lia). lia.
      * lia.
Qed.

Lemma oidSubidentifiers_small_digit : forall n content,
    shortLengths content = true ->
    Forall (fun v => 0 <= v /\ (v / 128) mod 128 < 8) (oidSubidentifiers n content).
Proof.
  induction n as [|n IH]; intros content Hs.
  - destruct content; constructor.
  - destruct content as [|b rest]; [constructor|].
    rewrite oidSubidentifiers_step.
    destruct (oidChunk_small_digit (b :: rest) 0 Hs) as (Hnn & Hd & Hrest);
      try reflexivity; try lia.
    constructor; [auto|]. now apply IH.
Qed.

(** The arc 113549 of [emailAddress] needs the byte 0xF7. *)
Lemma parseOID_short_not_email : forall content,
    shortLengths content = true -> parseOID content <> OIDEmailAddress.
Proof.
  intros [|first rest] Hs; [discriminate|].
  cbn [shortLengths forallb] in Hs. apply andb_prop in Hs as [_ Hrest].
  pose proof (oidSubidentifiers_small_digit (List.length rest) rest Hrest) as Hsub.
  pose proof (b2z_range first) as Hf.
  intro Heq.
  change (parseOID (first :: rest)) with (dotted (oidArcs (first :: rest))) in Heq.
  change OIDEmailAddress with (dotted [1; 2; 840; 113549; 1; 9; 1]) in Heq.
  apply dotted_inj in Heq.
  - cbn [oidArcs app] in Heq. inversion Heq as [[H1 H2 Harcs]].
    rewrite Harcs in Hsub.
    inversion Hsub as [|? ? _ Hsub']; subst.
    inversion Hsub' as [|? ? [_ Hbad] _]; subst.
    revert Hbad. vm_compute. discriminate.
  - cbn [oidArcs app]. constructor; [apply Z.div_pos; lia|].
    constructor; [pose proof (Z.mod_pos_bound (b2z first) 40); lia|].
    eapply Forall_impl; [|exact Hsub]. intros v [Hv _]. exact Hv.
  - repeat constructor; lia.
Qed.

Lemma slice_shortLengths : forall data lo hi content,
    shortLengths data = true ->
    slice data lo hi = Done content -> shortLengths content = true.
Proof.
  intros data lo hi content Hs. unfold slice.
  destruct (_ && _); [|discriminate].
  intro H. inversion H. now apply shortLengths_firstn, shortLengths_skipn.
Qed.

Lemma valueAfterOID_short : forall data offset e n oid value,
    shortLengths data = true ->
    valueAfterOID data offset e n = Done (Some (oid, value)) ->
    oid <> OIDEmailAddress.
Proof.
  intros data offset e n oid value Hs. unfold valueAfterOID.
  destruct (_ && _); [|discriminate].
  destruct (slice data _ _) as [content| |] eqn:Hc; cbn [bind]; try discriminate.
  apply slice_shortLengths in Hc; [|exact Hs].
  destruct (_ <? _); [|discriminate].
  destruct (slice_from data _) as [rest| |]; cbn [bind]; try discriminate.
  destruct (parseASN1Element rest 0 _) as [[[ve vn] verr]| |];
    cbn [bind]; try discriminate.
  destruct verr; [discriminate|].
  destruct (_ && _); [|discriminate].
  destruct (slice data _ _) as [valueBytes| |]; cbn [bind]; try discriminate.
  intro Heq. inversion Heq; subst.
  now apply parseOID_short_not_email.
Qed.

Lemma compoundContent_short : forall data offset e n content,
    shortLengths data = true ->
    compoundContent data offset e n = Done (Some content) ->
    shortLengths content = true.
Proof.
  intros data offset e n content Hs. unfold compoundContent.
  destruct (_ && _); [|discriminate].
  destruct (_ <? _); [|discriminate].
  destruct (slice_from data offset) as [rest| |]; cbn [bind]; try discriminate.
  destruct (_ <=? _); [|discriminate].
  destruct (slice data _ _) as [c| |] eqn:Hc; cbn [bind]; try discriminate.
  intro H. inversion H; subst. eapply slice_shortLengths; eauto.
Qed.

Lemma fieldOccurrences_short : forall fuel data offset occ,
    shortLengths data = true ->
    fieldOccurrences_from fuel data offset = Done occ ->
    Forall (fun p => fst p <> OIDEmailAddress) occ.
Proof.
  induction fuel as [|fuel IH]; intros data offset occ Hs; [discriminate|].
  cbn [fieldOccurrences_from].
  destruct (offset <? len data); [|intro H; inversion H; constructor].
  destruct (slice_from data offset) as [rest| |]; cbn [bind]; try discriminate.
  destruct (parseASN1Element rest 0 offset) as [[[e n] err]| |];
    cbn [bind]; try discriminate.
  destruct err; [intro H; inversion H; constructor|].
  destruct (valueAfterOID data offset e n) as [found| |] eqn:Hv;
    cbn [bind]; try discriminate.
  destruct (compoundContent data offset e n) as [inner| |] eqn:Hc;
    cbn [bind]; try discriminate.
  assert (Hfound : Forall (fun p => fst p <> OIDEmailAddress) (occurrence found)).
  { destruct found as [[oid value]|]; cbn [occurrence]; constructor; [|constructor].
    cbn [fst]. eapply valueAfterOID_short; eauto. }
  destruct inner as [content|].
  - destruct (fieldOccurrences_from fuel content 0) as [below| |] eqn:Hb;
      cbn [bind]; try discriminate.
    destruct (fieldOccurrences_from fuel data (GoInt.add offset n)) as [later| |] eqn:Hl;
      cbn [bind]; try discriminate.
    intro H. inversion H. rewrite !Forall_app.
    repeat split; eauto. eapply IH; [|exact Hb].
    eapply compoundContent_short; eauto.
  - cbn [bind].
    destruct (fieldOccurrences_from fuel data (GoInt.add offset n)) as [later| |] eqn:Hl;
      cbn [bind]; try discriminate.
    intro H. inversion H. rewrite !Forall_app. repeat split; eauto.
Qed.

Lemma lastValueOf_absent : forall oid occ,
    Forall (fun p => fst p <> oid) occ -> lastValueOf oid occ = None.
Proof.
  intros oid occ H. induction H as [|[o v] rest Hne _ IH]; [reflexivity|].
  cbn [lastValueOf]. rewrite IH. cbn [fst] in Hne.
  destruct (String.eqb_spec o oid); [contradiction|reflexivity].
Qed.

(** Without a byte above 0x87 the [emailAddress] flag stays clear. *)
Lemma validateSignatureFields_short_not_valid : forall fuel data validation,
    shortLengths data = true ->
    validateSignatureFields fuel data = Done validation ->
    IsValid validation = false.
Proof.
  intros fuel data validation Hs Hv.
  unfold validateSignatureFields, findFieldsInASN1 in Hv.
  rewrite findFieldsInASN1_replays_occurrences in Hv.
  destruct (fieldOccurrences_from fuel data 0) as [occ| |] eqn:Hocc;
    cbn [omap bind] in Hv; try discriminate.
  inversion Hv; subst validation. clear Hv.
  apply fieldOccurrences_short in Hocc; [|exact Hs].
  pose proof (recordAll_keeps_field occ OIDEmailAddress zeroValidation) as Hkeep.
  assert (Hflag : HasEmailAddress (recordAll occ zeroValidation) = false).
  { change (HasEmailAddress (recordAll occ zeroValidation))
      with (fst (fieldOf OIDEmailAddress (recordAll occ zeroValidation))).
    rewrite Hkeep; [reflexivity| |now apply lastValueOf_absent].
    unfold recognized. tauto. }
  unfold IsValid. rewrite Hflag. apply andb_false_r.
Qed.

Section SearchOnShortBytes.

Variable Unmarshal : list byte -> option (asn1.RawValue * list byte).
Hypothesis Hcuts : cutsFromBuffer Unmarshal.

Lemma tryCandidate_short_rejects :
  forall fuel data i,
    shortLengths data = true -> len data < 2 ^ 62 ->
    (List.length data < fuel)%nat ->
    0 <= i <= len data - 2 ->
    tryCandidate Unmarshal fuel data i = Done None.
Proof.
  intros fuel data i Hs Hbig Hfuel Hi.
  destruct (tryCandidate_returns Unmarshal Hcuts fuel data i) as [[raw|] Hr];
    try assumption.
  exfalso.
  destruct (tryCandidate_accepts Unmarshal fuel data i raw Hr)
    as (_ & _ & (buffer & rest & Hb & HU) & validation & Hv & Hvalid).
  destruct (Hcuts _ _ _ HU) as [n Hfull].
  destruct (slice_from_ok data i) as [Hb' _]; [lia|].
  rewrite Hb' in Hb. inversion Hb; subst buffer.
  apply validateSignatureFields_short_not_valid in Hv; [congruence|].
  rewrite Hfull. now apply shortLengths_firstn, shortLengths_skipn.
Qed.

(** On a buffer in which no byte is 0x88 or more, with a decoder that
    returns bytes of its buffer, [FindValidSignature] returns the error, for
    any fuel above the length of the buffer: every field walk returns, and
    none finds [emailAddress], whose arc 113549 is written with the byte
    0xF7. *)
Theorem search_returns_on_short_lengths :
  forall fuel data,
    shortLengths data = true ->
    len data < 2 ^ 62 ->
    (List.length data < fuel)%nat ->
    FindValidSignature Unmarshal fuel data = Done (None, 0, Some noSignature).
Proof.
  intros fuel data Hs Hbig Hfuel.
  apply FindValidSignature_exhausted; [exact Hbig|].
  intros j Hj. now apply tryCandidate_short_rejects.
Qed.

End SearchOnShortBytes.

Lemma search_returns_on_short_lengths_witness :
  FindValidSignature unmarshalSequence2 300
    ([x4d; x5a; x30; x82; x01; x00] ++ repeat x00 256) =
  Done (None, 0, Some noSignature).
Proof.
  apply (search_returns_on_short_lengths unmarshalSequence2
           unmarshalSequence2_cutsFromBuffer 300
           ([x4d; x5a; x30; x82; x01; x00] ++ repeat x00 256)).
  - reflexivity.
  - reflexivity.
  - cbn. lia.
Defined.

(** ** The search on encoded structures *)


Section SearchOnEncodedStructures.

Variable Unmarshal : list byte -> option (asn1.RawValue * list byte).



End SearchOnEncodedStructures.




(** The same run, evaluated: the structure is returned, at offset 2. *)
Example search_on_encoded_structure_run :
  FindValidSignature unmarshalSequence2 300
    ([x4d; x5a] ++ completeSignature ++ [xde; xad; xbe; xef]) =
  Done (Some (asn1.mkRawValue 0 16 true (skipn 4 completeSignature) completeSignature),
        2, None).
Proof. vm_compute. reflexivity. Qed.

(** * Repeated attributes (C9) *)



